(** * A command-line to-do list manager: [Task] and [TodoList] of todo.py

    The two classes of todo.py are embedded over an explicit world: a heap
    of [Task] objects, a heap of Python list objects holding references to
    tasks, the backing files, and the clock read by
    [datetime.now().isoformat()].  Methods are computations in a state and
    exception monad [M]; they are written statement by statement after the
    Python source.  The interactive functions of the shell run in a second
    monad [Sh], which adds the console to the world.

    Typing.  Fields carry the types of the constructor's annotations and of
    the persisted format: text as [string] (compared character by
    character, as Python compares [str]), [id] and [next_id] as unbounded
    integers [Z], optional values as [option].  A JSON record whose keys
    hold values of other JSON types is outside this model.  A text is held
    as its UTF-8 bytes.  [str.lower] is modelled on ASCII letters, where it
    is Python's: what is proved of the comparison of categories without
    case is proved for category texts in ASCII. *)

From Stdlib Require Import ZArith String Ascii Permutation Sorted OrderedTypeEx.
From stdpp Require Import base option list gmap strings pretty.

Local Open Scope string_scope.

(** ** Object states *)

(** References to heap objects. *)
Definition loc := positive.

(** The attributes of a [Task] instance. *)
Record Task := mkTask {
  id : option Z;
  title : string;
  description : string;
  category : string;
  priority : string;
  due_date : option string;
  completed : bool;
  created_at : string;
  completed_at : option string
}.

(** A task record as stored in the file and as produced by [Task.to_dict]:
    a dictionary with at most the nine keys below.  [None] at the outer
    level means that the key is absent; for the three keys that may hold
    JSON [null] the inner [None] is that [null]. *)
Record TaskDict := mkTaskDict {
  d_id : option (option Z);
  d_title : option string;
  d_description : option string;
  d_category : option string;
  d_priority : option string;
  d_due_date : option (option string);
  d_completed : option bool;
  d_created_at : option string;
  d_completed_at : option (option string)
}.

(** The top-level dictionary written by [save_tasks]. *)
Record StoreDict := mkStoreDict {
  d_tasks : option (list TaskDict);
  d_next_id : option Z
}.

(** What [json.load] can return: a JSON object, or any other JSON value
    (an array, a string, a number, [null]). *)
Inductive document :=
  | JObject (data : StoreDict)
  | JOther.

(** The content of a backing file: text on which [json.load] raises
    [JSONDecodeError] (an empty file, for one), or the document it parses
    to.  [json.dump] followed by [json.load] is the identity on documents,
    so a written file is kept as its document. *)
Inductive content :=
  | NotJson
  | Json (doc : document).

(** The attributes of a [TodoList] instance; [tasks] refers to a list
    object. *)
Record TodoList := mkTodoList {
  data_file : string;
  tasks : loc;
  next_id : Z
}.

#[global] Instance Task_inhabited : Inhabited Task :=
  populate (mkTask None "" "" "" "" None false "" None).

(** ** The world and the monad of computations *)

Record World := mkWorld {
  clock : nat → string;          (* the n-th reading of the clock *)
  ticks : nat;                   (* readings taken so far *)
  task_heap : gmap loc Task;     (* Task objects *)
  list_heap : gmap loc (list loc); (* list objects *)
  disk : gmap string content     (* files by path *)
}.

Inductive exn :=
  | KeyError (key : string)
  | AttributeError
  | JSONDecodeError
  | FileNotFoundError.

Inductive outcome (A : Type) :=
  | Return (a : A)
  | Raise (e : exn).
Arguments Return {A} a.
Arguments Raise {A} e.

(** A computation runs in a world and ends with a value or an exception;
    effects made before an exception stay. *)
Definition M (A : Type) : Type := World → outcome A * World.

#[global] Instance M_ret : MRet M := λ A a w, (Return a, w).

#[global] Instance M_bind : MBind M := λ A B k m w,
  match m w with
  | (Return a, w') => k a w'
  | (Raise e, w') => (Raise e, w')
  end.

Definition raise {A} (e : exn) : M A := λ w, (Raise e, w).

(** [try: m except caught: handler]. *)
Definition try_except {A} (m : M A) (caught : exn → bool) (handler : M A) : M A :=
  λ w, match m w with
       | (Return a, w') => (Return a, w')
       | (Raise e, w') => if caught e then handler w' else (Raise e, w')
       end.

(** [datetime.now().isoformat()]. *)
Definition now : M string := λ w,
  (Return (clock w (ticks w)),
   mkWorld (clock w) (S (ticks w)) (task_heap w) (list_heap w) (disk w)).

(** Task objects.  Every reference that the methods below hand out names
    an object; for a reference that names none, a read gives a blank
    object and an update does nothing. *)
Definition new_task (t : Task) : M loc := λ w,
  let r := fresh (dom (task_heap w)) in
  (Return r, mkWorld (clock w) (ticks w) (<[r := t]> (task_heap w)) (list_heap w) (disk w)).

Definition read_task (r : loc) : M Task := λ w, (Return (task_heap w !!! r), w).

Definition modify_task (r : loc) (f : Task → Task) : M unit := λ w,
  (Return (), mkWorld (clock w) (ticks w) (alter f r (task_heap w)) (list_heap w) (disk w)).

(** List objects, with the same convention: a reference that names no
    list reads as the empty list. *)
Definition new_list (l : list loc) : M loc := λ w,
  let r := fresh (dom (list_heap w)) in
  (Return r, mkWorld (clock w) (ticks w) (task_heap w) (<[r := l]> (list_heap w)) (disk w)).

Definition read_list (r : loc) : M (list loc) := λ w, (Return (list_heap w !!! r), w).

Definition modify_list (r : loc) (f : list loc → list loc) : M unit := λ w,
  (Return (), mkWorld (clock w) (ticks w) (task_heap w) (alter f r (list_heap w)) (disk w)).

(** Files. *)
Definition path_exists (path : string) : M bool := λ w,
  (Return (bool_decide (is_Some (disk w !! path))), w).

(** [json.load] of the file at [path]. *)
Definition json_load (path : string) : M document := λ w,
  match disk w !! path with
  | None => (Raise FileNotFoundError, w)
  | Some NotJson => (Raise JSONDecodeError, w)
  | Some (Json doc) => (Return doc, w)
  end.

(** [json.dump] into the file at [path], opened for writing. *)
Definition json_dump (path : string) (doc : document) : M unit := λ w,
  (Return (), mkWorld (clock w) (ticks w) (task_heap w) (list_heap w)
                      (<[path := Json doc]> (disk w))).

(** [d[key]] on a dictionary whose value at [key] is [v]. *)
Definition subscript {A} (v : option A) (key : string) : M A :=
  match v with
  | Some a => mret a
  | None => raise (KeyError key)
  end.

(** Attribute assignments. *)
Definition set_id (v : option Z) (t : Task) : Task :=
  mkTask v (title t) (description t) (category t) (priority t) (due_date t)
         (completed t) (created_at t) (completed_at t).

Definition set_completed (v : bool) (t : Task) : Task :=
  mkTask (id t) (title t) (description t) (category t) (priority t) (due_date t)
         v (created_at t) (completed_at t).

Definition set_created_at (v : string) (t : Task) : Task :=
  mkTask (id t) (title t) (description t) (category t) (priority t) (due_date t)
         (completed t) v (completed_at t).

Definition set_completed_at (v : option string) (t : Task) : Task :=
  mkTask (id t) (title t) (description t) (category t) (priority t) (due_date t)
         (completed t) (created_at t) v.

(** ** class Task *)

Module Task.

(** [Task.__init__]: the new object is returned by reference. *)
Definition __init__ (title description category priority : string)
    (due_date : option string) : M loc :=
  created ← now;
  new_task {| id := None;
              title := title;
              description := description;
              category := category;
              priority := priority;
              due_date := due_date;
              completed := false;
              created_at := created;
              completed_at := None |}.

Definition mark_complete (self : loc) : M unit :=
  modify_task self (set_completed true);;
  stamp ← now;
  modify_task self (set_completed_at (Some stamp)).

Definition mark_incomplete (self : loc) : M unit :=
  modify_task self (set_completed false);;
  modify_task self (set_completed_at None).

Definition to_dict (self : loc) : M TaskDict :=
  t ← read_task self;
  mret {| d_id := Some (id t);
          d_title := Some (title t);
          d_description := Some (description t);
          d_category := Some (category t);
          d_priority := Some (priority t);
          d_due_date := Some (due_date t);
          d_completed := Some (completed t);
          d_created_at := Some (created_at t);
          d_completed_at := Some (completed_at t) |}.

(** [data.get(key)] gives [None] both for an absent key and for [null];
    [data.get(key, dflt)] gives [dflt] for an absent key.  The default of
    [created_at] is computed before the lookup, as Python evaluates
    arguments. *)
Definition from_dict (data : TaskDict) : M loc :=
  title ← subscript (d_title data) "title";
  task ← __init__ title
                  (default "" (d_description data))
                  (default "General" (d_category data))
                  (default "Medium" (d_priority data))
                  (default None (d_due_date data));
  modify_task task (set_id (default None (d_id data)));;
  modify_task task (set_completed (default false (d_completed data)));;
  fallback ← now;
  modify_task task (set_created_at (default fallback (d_created_at data)));;
  modify_task task (set_completed_at (default None (d_completed_at data)));;
  mret task.

End Task.

(** ** Python built-ins used by [TodoList] *)

(** [str.lower] on ASCII letters: on a text in ASCII this is Python's
    [str.lower]; the letters outside ASCII, which Python also maps, are
    left as they are.  The theorems that depend on the outcome of a
    comparison made with it assume the texts compared to be in ASCII
    ([ascii_categories] below). *)
Definition lower_ascii (c : ascii) : ascii :=
  let n := nat_of_ascii c in
  if (65 <=? n)%nat && (n <=? 90)%nat then ascii_of_nat (n + 32) else c.

Fixpoint lower (s : string) : string :=
  match s with
  | EmptyString => EmptyString
  | String c rest => String (lower_ascii c) (lower rest)
  end.

(** [[x for x in l if cond(x)]]. *)
Fixpoint comprehension {A} (cond : A → M bool) (l : list A) : M (list A) :=
  match l with
  | [] => mret []
  | x :: rest =>
      keep ← cond x;
      kept ← comprehension cond rest;
      mret (if keep : bool then x :: kept else kept)
  end.

(** [list.sort(key=...)] sorts in place, is stable, and compares keys with
    [<] only.  On a total order every stable sort computes the same list
    (see [stable_sort_unique] below), so an insertion sort over the
    decorated list stands for it. *)
Fixpoint insert_sorted {K A} (lt : K → K → bool) (x : K * A) (l : list (K * A))
    : list (K * A) :=
  match l with
  | [] => [x]
  | y :: rest => if lt y.1 x.1 then y :: insert_sorted lt x rest else x :: l
  end.

Definition stable_sort {K A} (lt : K → K → bool) (l : list (K * A)) : list (K * A) :=
  foldr (insert_sorted lt) [] l.

Definition list_sort {K} (lt : K → K → bool) (key : loc → M K) (self : loc) : M unit :=
  l ← read_list self;
  keys ← mapM key l;
  modify_list self (λ _, (stable_sort lt (zip keys l)).*2).

(** ** class TodoList *)

Module TodoList.

(** [data.get('tasks', [])] and [data.get('next_id', 1)]: only a
    dictionary has [get]. *)
Definition get_tasks_key (data : document) : M (list TaskDict) :=
  match data with
  | JObject d => mret (default [] (d_tasks d))
  | JOther => raise AttributeError
  end.

Definition get_next_id_key (data : document) : M Z :=
  match data with
  | JObject d => mret (default 1%Z (d_next_id d))
  | JOther => raise AttributeError
  end.

Definition load_tasks (self : TodoList) : M TodoList :=
  found ← path_exists (data_file self);
  if found : bool then
    try_except
      (data ← json_load (data_file self);
       records ← get_tasks_key data;
       loaded ← mapM Task.from_dict records;
       l ← new_list loaded;
       n ← get_next_id_key data;
       mret (mkTodoList (data_file self) l n))
      (λ e, match e with
            | JSONDecodeError | FileNotFoundError => true
            | _ => false
            end)
      (l ← new_list [];
       mret (mkTodoList (data_file self) l 1%Z))
  else mret self.

Definition __init__ (data_file : string) : M TodoList :=
  l ← new_list [];
  load_tasks (mkTodoList data_file l 1%Z).

Definition save_tasks (self : TodoList) : M unit :=
  l ← read_list (tasks self);
  dicts ← mapM Task.to_dict l;
  json_dump (data_file self)
            (JObject {| d_tasks := Some dicts; d_next_id := Some (next_id self) |}).

Definition add_task (self : TodoList) (title description category priority : string)
    (due_date : option string) : M (TodoList * loc) :=
  task ← Task.__init__ title description category priority due_date;
  modify_task task (set_id (Some (next_id self)));;
  let self := mkTodoList (data_file self) (tasks self) (next_id self + 1)%Z in
  modify_list (tasks self) (λ l, (l ++ [task])%list);;
  save_tasks self;;
  mret (self, task).

(** The loop of [remove_task] over [enumerate(self.tasks)]. *)
Fixpoint remove_task_loop (self : TodoList) (task_id : Z) (i : nat) (rest : list loc)
    : M bool :=
  match rest with
  | [] => mret false
  | task :: rest =>
      t ← read_task task;
      if bool_decide (id t = Some task_id) then
        modify_list (tasks self) (delete i);;
        save_tasks self;;
        mret true
      else remove_task_loop self task_id (S i) rest
  end.

Definition remove_task (self : TodoList) (task_id : Z) : M bool :=
  l ← read_list (tasks self);
  remove_task_loop self task_id 0 l.

Fixpoint get_task_loop (task_id : Z) (rest : list loc) : M (option loc) :=
  match rest with
  | [] => mret None
  | task :: rest =>
      t ← read_task task;
      if bool_decide (id t = Some task_id) then mret (Some task)
      else get_task_loop task_id rest
  end.

Definition get_task (self : TodoList) (task_id : Z) : M (option loc) :=
  l ← read_list (tasks self);
  get_task_loop task_id l.

Definition mark_complete (self : TodoList) (task_id : Z) : M bool :=
  task ← get_task self task_id;
  match task with
  | Some task =>
      Task.mark_complete task;;
      save_tasks self;;
      mret true
  | None => mret false
  end.

Definition mark_incomplete (self : TodoList) (task_id : Z) : M bool :=
  task ← get_task self task_id;
  match task with
  | Some task =>
      Task.mark_incomplete task;;
      save_tasks self;;
      mret true
  | None => mret false
  end.

(** [priority_order = {"High": 0, "Medium": 1, "Low": 2}]. *)
Definition priority_order : gmap string Z :=
  <["High" := 0%Z]> (<["Medium" := 1%Z]> (<["Low" := 2%Z]> ∅)).

(** The key of the sort: [(t.completed, priority_order.get(t.priority, 1),
    t.created_at)]. *)
Definition sort_key (task : loc) : M (bool * Z * string) :=
  t ← read_task task;
  mret (completed t, default 1%Z (priority_order !! priority t), created_at t).

(** [<] on the key tuples: the first component that differs decides. *)
Definition key_lt (a b : bool * Z * string) : bool :=
  let '(c1, p1, s1) := a in
  let '(c2, p2, s2) := b in
  if bool_decide (c1 ≠ c2) then negb c1 && c2
  else if bool_decide (p1 ≠ p2) then (p1 <? p2)%Z
  else String.ltb s1 s2.

(** The conditions of the two list comprehensions of [list_tasks]:
    [not task.completed] and
    [task.category.lower() == category.lower()]. *)
Definition not_completed (task : loc) : M bool :=
  t ← read_task task;
  mret (negb (completed t)).

Definition category_is (c : string) (task : loc) : M bool :=
  t ← read_task task;
  mret (bool_decide (lower (category t) = lower c)).

(** [if category:] holds for a string that is not empty. *)
Definition list_tasks (self : TodoList) (show_completed : bool)
    (category : option string) : M loc :=
  let filtered_tasks := tasks self in
  filtered_tasks ←
    (if negb show_completed then
       l ← read_list filtered_tasks;
       kept ← comprehension not_completed l;
       new_list kept
     else mret filtered_tasks);
  filtered_tasks ←
    match category with
    | Some c =>
        if bool_decide (c ≠ "") then
          l ← read_list filtered_tasks;
          kept ← comprehension (category_is c) l;
          new_list kept
        else mret filtered_tasks
    | None => mret filtered_tasks
    end;
  list_sort key_lt sort_key filtered_tasks;;
  mret filtered_tasks.

(** [get_categories] returns a fresh list of strings:
    [sorted(list(set(...)))]. *)
Definition get_categories (self : TodoList) : M (list string) :=
  l ← read_list (tasks self);
  names ← mapM (λ task, t ← read_task task; mret (category t)) l;
  let categories : gset string := list_to_set names in
  mret (stable_sort String.ltb ((λ c, (c, c)) <$> elements categories)).*2.

(** The dictionaries returned by [get_stats]. *)
Record CategoryStats := mkCategoryStats {
  c_total : Z;
  c_completed : Z
}.

Record Stats := mkStats {
  s_total : Z;
  s_completed : Z;
  s_pending : Z;
  s_categories : gmap string CategoryStats
}.

(** One round of the loop of [get_stats]. *)
Definition count_task (categories : gmap string CategoryStats) (t : Task)
    : gmap string CategoryStats :=
  let categories :=
    if bool_decide (categories !! category t = None)
    then <[category t := mkCategoryStats 0 0]> categories
    else categories in
  let categories :=
    alter (λ c, mkCategoryStats (c_total c + 1) (c_completed c)) (category t) categories in
  if completed t
  then alter (λ c, mkCategoryStats (c_total c) (c_completed c + 1)) (category t) categories
  else categories.

Definition get_stats (self : TodoList) : M Stats :=
  l ← read_list (tasks self);
  ts ← mapM read_task l;
  let total := Z.of_nat (length ts) in
  let done := Z.of_nat (length (filter (λ t, completed t = true) ts)) in
  let pending := (total - done)%Z in
  mret (mkStats total done pending (foldl count_task ∅ ts)).

End TodoList.

(** ** A client of one [TodoList] instance

    The calls a client can make on a store, and a run of a sequence of
    calls; the run reports the ids of the tasks that [add_task] returned,
    in order. *)
Inductive call :=
  | AddTask (title description category priority : string) (due_date : option string)
  | RemoveTask (task_id : Z)
  | GetTask (task_id : Z)
  | MarkComplete (task_id : Z)
  | MarkIncomplete (task_id : Z)
  | ListTasks (show_completed : bool) (category : option string)
  | GetCategories
  | GetStats.

Definition perform (self : TodoList) (c : call) : M (TodoList * list (option Z)) :=
  match c with
  | AddTask title description category priority due_date =>
      res ← TodoList.add_task self title description category priority due_date;
      t ← read_task res.2;
      mret (res.1, [id t])
  | RemoveTask task_id => TodoList.remove_task self task_id;; mret (self, [])
  | GetTask task_id => TodoList.get_task self task_id;; mret (self, [])
  | MarkComplete task_id => TodoList.mark_complete self task_id;; mret (self, [])
  | MarkIncomplete task_id => TodoList.mark_incomplete self task_id;; mret (self, [])
  | ListTasks show_completed category =>
      TodoList.list_tasks self show_completed category;; mret (self, [])
  | GetCategories => TodoList.get_categories self;; mret (self, [])
  | GetStats => TodoList.get_stats self;; mret (self, [])
  end.

Fixpoint run (self : TodoList) (calls : list call) : M (TodoList * list (option Z)) :=
  match calls with
  | [] => mret (self, [])
  | c :: rest =>
      first ← perform self c;
      others ← run first.1 rest;
      mret (others.1, (first.2 ++ others.2)%list)
  end.

(** Reading the heaps of a world. *)
Definition task_at (w : World) (r : loc) : Task := task_heap w !!! r.
Definition list_at (w : World) (r : loc) : list loc := list_heap w !!! r.

(** ** Sorting by a key, without the decoration

    [sort_by] is the insertion sort of [stable_sort] written on the
    elements themselves; [stable_sort_decorate] below shows that it is what
    [list_sort] leaves in the list. *)
Fixpoint insert_by {K A} (lt : K → K → bool) (key : A → K) (x : A) (l : list A) : list A :=
  match l with
  | [] => [x]
  | y :: rest => if lt (key y) (key x) then y :: insert_by lt key x rest else x :: l
  end.

Definition sort_by {K A} (lt : K → K → bool) (key : A → K) (l : list A) : list A :=
  foldr (insert_by lt key) [] l.

Definition decorate {K A} (key : A → K) (l : list A) : list (K * A) :=
  (λ x, (key x, x)) <$> l.

(** [b] is not strictly before [a]. *)
Definition not_after {K A} (lt : K → K → bool) (key : A → K) (a b : A) : Prop :=
  lt (key b) (key a) = false.

(** The key that [list_tasks] computes for a task. *)
Definition key_of (t : Task) : bool * Z * string :=
  (completed t, default 1%Z (TodoList.priority_order !! priority t), created_at t).

(** ** The specification's reading of [list_tasks]

    The definitions of this part follow the words of the specification,
    not the code; the theorems below compare the two. *)

(** Two characters, then two strings, that differ at most in the case of
    ASCII letters: equality without case of texts in ASCII, to which the
    theorems that use it are confined. *)
Definition is_upper (a : ascii) : bool :=
  (65 <=? nat_of_ascii a)%nat && (nat_of_ascii a <=? 90)%nat.

Definition same_letter (a b : ascii) : bool :=
  bool_decide (a = b)
  || (is_upper a && (nat_of_ascii b =? nat_of_ascii a + 32)%nat)
  || (is_upper b && (nat_of_ascii a =? nat_of_ascii b + 32)%nat).

Fixpoint same_ignoring_case (s1 s2 : string) : bool :=
  match s1, s2 with
  | EmptyString, EmptyString => true
  | String a r1, String b r2 => same_letter a b && same_ignoring_case r1 r2
  | _, _ => false
  end.

(** Step (a): completed tasks are dropped when [show_completed] is false. *)
Definition spec_shown (show_completed : bool) (t : Task) : bool :=
  show_completed || negb (completed t).


(** Step (b) with the empty string read as no category. *)
Definition spec_in_category (wanted : option string) (t : Task) : bool :=
  match wanted with
  | Some EmptyString => true
  | Some c => same_ignoring_case (category t) c
  | None => true
  end.

(** The rank of a priority: High, then Medium, then Low; any other text
    ranks as Medium. *)
Definition spec_rank (p : string) : Z :=
  if bool_decide (p = "High") then 0%Z
  else if bool_decide (p = "Low") then 2%Z
  else 1%Z.



(** The tasks of [l] that steps (a) and (b) keep, in the order of [l]. *)
Definition spec_selected (w : World) (show_completed : bool) (wanted : option string)
    (l : list loc) : list loc :=
  filter (λ r, spec_in_category wanted (task_at w r))
         (filter (λ r, spec_shown show_completed (task_at w r)) l).



(** [if category:] holds for a string that is not empty. *)
Definition category_given (wanted : option string) : bool :=
  match wanted with
  | Some (String _ _) => true
  | _ => false
  end.

(** ** The values that [to_dict] and [from_dict] compute *)

(** The dictionary that [to_dict] returns for an object in state [t]. *)
Definition dict_of (t : Task) : TaskDict :=
  {| d_id := Some (id t);
     d_title := Some (title t);
     d_description := Some (description t);
     d_category := Some (category t);
     d_priority := Some (priority t);
     d_due_date := Some (due_date t);
     d_completed := Some (completed t);
     d_created_at := Some (created_at t);
     d_completed_at := Some (completed_at t) |}.

(** The state in which [from_dict] leaves the object it builds from a
    record with a title, [fallback] being the clock reading taken for the
    default of [created_at]. *)
Definition decoded (data : TaskDict) (title fallback : string) : Task :=
  {| id := default None (d_id data);
     title := title;
     description := default "" (d_description data);
     category := default "General" (d_category data);
     priority := default "Medium" (d_priority data);
     due_date := default None (d_due_date data);
     completed := default false (d_completed data);
     created_at := default fallback (d_created_at data);
     completed_at := default None (d_completed_at data) |}.

(** The invariant of the data model: [completed_at] is set exactly when
    [completed] is true. *)
Definition completion_consistent (t : Task) : Prop :=
  completed_at t ≠ None ↔ completed t = true.

(** ** The worlds that the methods of [TodoList] leave *)

(** The document that [save_tasks] writes. *)
Definition saved_document (w : World) (self : TodoList) : document :=
  JObject {| d_tasks := Some ((λ r, dict_of (task_at w r)) <$> list_at w (tasks self));
             d_next_id := Some (next_id self) |}.

(** The world after [save_tasks]. *)
Definition saved (w : World) (self : TodoList) : World :=
  mkWorld (clock w) (ticks w) (task_heap w) (list_heap w)
          (<[data_file self := Json (saved_document w self)]> (disk w)).

(** The world after an update of the list object [r]. *)
Definition with_list (w : World) (r : loc) (f : list loc → list loc) : World :=
  mkWorld (clock w) (ticks w) (task_heap w) (alter f r (list_heap w)) (disk w).

(** The world after [Task.mark_complete] and [Task.mark_incomplete] on the
    object [r]. *)
Definition marked_complete (w : World) (r : loc) : World :=
  mkWorld (clock w) (S (ticks w))
    (alter (λ t, set_completed_at (Some (clock w (ticks w))) (set_completed true t))
           r (task_heap w))
    (list_heap w) (disk w).

Definition marked_incomplete (w : World) (r : loc) : World :=
  mkWorld (clock w) (ticks w)
    (alter (λ t, set_completed_at None (set_completed false t)) r (task_heap w))
    (list_heap w) (disk w).

(** The first task of [l] whose id is [task_id], and its position counted
    from [i]. *)
Fixpoint first_with_id (w : World) (task_id : Z) (l : list loc) : option loc :=
  match l with
  | [] => None
  | r :: rest =>
      if bool_decide (id (task_at w r) = Some task_id) then Some r
      else first_with_id w task_id rest
  end.

Fixpoint index_with_id (w : World) (task_id : Z) (i : nat) (l : list loc) : option nat :=
  match l with
  | [] => None
  | r :: rest =>
      if bool_decide (id (task_at w r) = Some task_id) then Some i
      else index_with_id w task_id (S i) rest
  end.

(** The store and the world after [add_task]. *)
Definition added_store (self : TodoList) : TodoList :=
  mkTodoList (data_file self) (tasks self) (next_id self + 1)%Z.

Definition added_task (w : World) (self : TodoList)
    (title description category priority : string) (due_date : option string) : Task :=
  mkTask (Some (next_id self)) title description category priority due_date false
         (clock w (ticks w)) None.

Definition added (w : World) (self : TodoList)
    (title description category priority : string) (due_date : option string) : World :=
  let r := fresh (dom (task_heap w)) in
  saved (mkWorld (clock w) (S (ticks w))
           (<[r := added_task w self title description category priority due_date]>
              (task_heap w))
           (alter (λ l, (l ++ [r])%list) (tasks self) (list_heap w))
           (disk w))
        (added_store self).

(** The world after a new list object holding [l] is made. *)
Definition with_new_list (w : World) (l : list loc) : World :=
  mkWorld (clock w) (ticks w) (task_heap w)
          (<[fresh (dom (list_heap w)) := l]> (list_heap w)) (disk w).

(** ** What a run of calls returns *)

(** [P] holds of every task object of the world. *)
Definition every_task (P : Task → Prop) (w : World) : Prop :=
  map_Forall (λ _, P) (task_heap w).

(** The store after a call and the id it issues: only [add_task] touches
    the attributes of the store, and it issues [next_id]. *)
Definition issues (self : TodoList) (c : call) : TodoList * list (option Z) :=
  match c with
  | AddTask _ _ _ _ _ => (added_store self, [Some (next_id self)])
  | _ => (self, [])
  end.

Fixpoint run_issues (self : TodoList) (calls : list call) : TodoList * list (option Z) :=
  match calls with
  | [] => (self, [])
  | c :: rest =>
      let first := issues self c in
      let others := run_issues first.1 rest in
      (others.1, (first.2 ++ others.2)%list)
  end.

(** A record marked completed that carries no completion time. *)
Definition done_record : TaskDict :=
  mkTaskDict None (Some "Done long ago") None None None None (Some true) None None.

(** ** Concrete worlds for the examples *)

(** A clock whose n-th reading ends in the digit [n]. *)
Definition stamp (n : nat) : string :=
  "2024-01-01T09:00:0" ++ String (ascii_of_nat (48 + n)) "".

(** Nothing allocated, no file. *)
Definition blank_world : World := mkWorld stamp 0 ∅ ∅ ∅.

(** A new store on a missing file, then [add_task("Buy milk")] with the
    default arguments. *)
Definition one_task_program : M (TodoList * loc) :=
  todo ← TodoList.__init__ "tasks.json";
  TodoList.add_task todo "Buy milk" "" "General" "Medium" None.

(** A task as [Task("Buy milk")] leaves it: no id yet, no description, no
    due date, not completed; and a world holding just that object. *)
Definition bare_task : Task :=
  mkTask None "Buy milk" "" "General" "Medium" None false "2024-01-01T09:00:00" None.

Definition bare_task_world : World :=
  mkWorld stamp 1 (<[1%positive := bare_task]> ∅) ∅ ∅.

(** A file whose only task record has no title; a file that is not JSON;
    a file written without [next_id] that holds one task of id 1. *)
Definition untitled_record : TaskDict :=
  mkTaskDict (Some (Some 1%Z)) None (Some "no title here") None None None None None None.

Definition untitled_record_world : World :=
  mkWorld stamp 0 ∅ ∅
    (<["tasks.json" := Json (JObject (mkStoreDict (Some [untitled_record]) (Some 2%Z)))]> ∅).

Definition garbage_world : World :=
  mkWorld stamp 0 ∅ ∅ (<["tasks.json" := NotJson]> ∅).

Definition old_record : TaskDict :=
  mkTaskDict (Some (Some 1%Z)) (Some "Old task") None None None None None None None.

Definition old_document_world : World :=
  mkWorld stamp 0 ∅ ∅
    (<["tasks.json" := Json (JObject (mkStoreDict (Some [old_record]) None))]> ∅).

(** The tasks of [l] whose id is [task_id]. *)
Definition with_id (w : World) (task_id : Z) (l : list loc) : list loc :=
  filter (λ r, id (task_at w r) = Some task_id) l.

(** A new store, then a Low task and a High task. *)
Definition two_task_program : M TodoList :=
  todo ← TodoList.__init__ "tasks.json";
  first ← TodoList.add_task todo "Write report" "" "General" "Low" None;
  second ← TodoList.add_task first.1 "Call bank" "" "General" "High" None;
  mret second.1.

(** A new store on the file that holds one task of id 1 and no [next_id],
    then one addition. *)
Definition reused_id_program : M TodoList :=
  todo ← TodoList.__init__ "tasks.json";
  res ← TodoList.add_task todo "New task" "" "General" "Medium" None;
  mret res.1.

(** The store and the world that [one_task_program] leaves, and the world
    after [remove_task(1)] on them. *)
Definition one_task_store : TodoList := mkTodoList "tasks.json" 1%positive 2%Z.

Definition one_task_world : World := (one_task_program blank_world).2.

Definition after_removal_world : World :=
  (TodoList.remove_task one_task_store 1%Z one_task_world).2.

(** ** The test of the repository, as a program

    [test_todolist_operations] of test_todo.py: the temporary file is
    created empty, which [json.load] rejects.  The program returns what
    the assertions of the test look at. *)
Definition empty_file_world : World :=
  mkWorld stamp 0 ∅ ∅ (<["test.json" := NotJson]> ∅).

Record TestReport := mkTestReport {
  number_after_adds : nat;
  ids_of_added : list (option Z);
  marked : bool;
  first_is_completed : bool;
  number_listed : nat;
  ids_pending : list (option Z);
  categories_of_work : list string;
  removed_second : bool;
  number_after_removal : nat;
  removed_missing : bool;
  stats_after_removal : Z * Z * Z;
  titles_reloaded : list string;
  completed_reloaded : list bool
}.

Definition test_todolist_operations : M TestReport :=
  todo ← TodoList.__init__ "test.json";
  added1 ← TodoList.add_task todo "Task 1" "Description 1" "Work" "High" None;
  added2 ← TodoList.add_task added1.1 "Task 2" "Description 2" "Personal" "Low" None;
  let todo := added2.1 in
  l ← read_list (tasks todo);
  task1 ← read_task added1.2;
  task2 ← read_task added2.2;
  marked ← TodoList.mark_complete todo 1;
  found ← TodoList.get_task todo 1;
  found_task ← read_task (default 1%positive found);
  all_tasks ← TodoList.list_tasks todo true None;
  all_list ← read_list all_tasks;
  pending_tasks ← TodoList.list_tasks todo false None;
  pending_list ← read_list pending_tasks;
  pending ← mapM read_task pending_list;
  work_tasks ← TodoList.list_tasks todo true (Some "Work");
  work_list ← read_list work_tasks;
  work ← mapM read_task work_list;
  removed ← TodoList.remove_task todo 2;
  l' ← read_list (tasks todo);
  missing ← TodoList.remove_task todo 999;
  stats ← TodoList.get_stats todo;
  todo2 ← TodoList.__init__ "test.json";
  l2 ← read_list (tasks todo2);
  reloaded ← mapM read_task l2;
  mret {| number_after_adds := length l;
          ids_of_added := [id task1; id task2];
          marked := marked;
          first_is_completed := completed found_task;
          number_listed := length all_list;
          ids_pending := id <$> pending;
          categories_of_work := category <$> work;
          removed_second := removed;
          number_after_removal := length l';
          removed_missing := missing;
          stats_after_removal :=
            (TodoList.s_total stats, TodoList.s_completed stats, TodoList.s_pending stats);
          titles_reloaded := title <$> reloaded;
          completed_reloaded := completed <$> reloaded |}.

(** The scenarios of the specification: priorities Low, High, Medium added
    in that order and listed; an id is not issued again after a removal. *)
Definition three_priorities_program : M (list string) :=
  todo ← TodoList.__init__ "tasks.json";
  a ← TodoList.add_task todo "a" "" "General" "Low" None;
  b ← TodoList.add_task a.1 "b" "" "General" "High" None;
  c ← TodoList.add_task b.1 "c" "" "General" "Medium" None;
  listed ← TodoList.list_tasks c.1 true None;
  l ← read_list listed;
  ts ← mapM read_task l;
  mret (priority <$> ts).

Definition add_remove_add_program : M (option Z) :=
  todo ← TodoList.__init__ "tasks.json";
  a ← TodoList.add_task todo "a" "" "General" "Medium" None;
  TodoList.remove_task a.1 1;;
  b ← TodoList.add_task a.1 "b" "" "General" "Medium" None;
  t ← read_task b.2;
  mret (id t).

(** ** Text in ASCII

    On a text whose characters are all ASCII, [lower] is [str.lower]. *)
Fixpoint ascii_only (s : string) : bool :=
  match s with
  | EmptyString => true
  | String c rest => (nat_of_ascii c <? 128)%nat && ascii_only rest
  end.

(** The texts that [list_tasks] compares without case are in ASCII: the
    category given, when it is given and not empty, and then the category
    of each task of [l]. *)
Definition ascii_categories (w : World) (wanted : option string) (l : list loc) : Prop :=
  match wanted with
  | Some (String _ _ as c) =>
      ascii_only c = true ∧ Forall (λ r, ascii_only (category (task_at w r)) = true) l
  | _ => True
  end.

(** Three tasks, two of them in one category written in two ways. *)
Definition mixed_case_program : M TodoList :=
  todo ← TodoList.__init__ "tasks.json";
  a ← TodoList.add_task todo "Write report" "" "Work" "Low" None;
  b ← TodoList.add_task a.1 "Call bank" "" "work" "High" None;
  c ← TodoList.add_task b.1 "Water plants" "" "Home" "Medium" None;
  mret c.1.

(** ** Counting tasks by category *)

(** The tasks of [ts] in category [c], and those of them that are
    completed. *)
Definition in_category (c : string) (ts : list Task) : list Task :=
  filter (λ t, category t = c) ts.

Definition done_in_category (c : string) (ts : list Task) : list Task :=
  filter (λ t, completed t = true) (in_category c ts).

(** The entry that the tasks [ts] give to category [c] in the statistics:
    none when no task is in the category. *)
Definition category_entry (c : string) (ts : list Task) : option TodoList.CategoryStats :=
  match in_category c ts with
  | [] => None
  | _ =>
      Some (TodoList.mkCategoryStats (Z.of_nat (length (in_category c ts)))
                                     (Z.of_nat (length (done_in_category c ts))))
  end.

(** ** Stores in good order *)

(** The list object of the store exists, each of its tasks is an object
    with an id below [next_id], and no two of them have the same id. *)
Definition store_ok (w : World) (self : TodoList) : Prop :=
  ∃ l, list_heap w !! tasks self = Some l
       ∧ Forall (λ r, ∃ t n, task_heap w !! r = Some t
                             ∧ id t = Some n ∧ (n < next_id self)%Z) l
       ∧ NoDup ((λ r, id (task_at w r)) <$> l).

(** ** The file and the store *)

(** The file of the store holds the [next_id] of the store and, in some
    order, one record for each task of the store, as [to_dict] writes the
    task now. *)
Definition file_agrees (w : World) (self : TodoList) : Prop :=
  ∃ l ts, list_heap w !! tasks self = Some l
          ∧ disk w !! data_file self
            = Some (Json (JObject {| d_tasks := Some (dict_of <$> ts);
                                     d_next_id := Some (next_id self) |}))
          ∧ ts ≡ₚ task_at w <$> l.

(** ** The console and the interactive functions of todo.py

    The functions that talk to the user run in a second monad [Sh], which
    adds the console to the world: the lines still to be read from the
    standard input and the texts written to the standard output.  A line
    is a text, held as its UTF-8 bytes, without a line break.  [input] at
    the end of the input raises [EOFError].  [str.strip] removes the white
    space of Unicode.  [str.lower] and [str.capitalize] act on ASCII
    letters; the shell itself uses them for two tests only, whether an
    answer begins with y once lower-cased and whether a capitalized answer
    is one of High, Medium, Low, and no character outside ASCII
    lower-cases to y or takes part in a text that capitalizes to one of
    the three. *)

Record Console := mkConsole {
  stdin : list string;           (* the lines still to be read *)
  stdout : list string           (* the texts written, in order *)
}.

Inductive shell_exn :=
  | StoreError (e : exn)         (* an exception of the store *)
  | EOFError.

Inductive shell_outcome (A : Type) :=
  | Done (a : A)
  | Failed (e : shell_exn).
Arguments Done {A} a.
Arguments Failed {A} e.

Definition Sh (A : Type) : Type := Console → World → shell_outcome A * Console * World.

#[global] Instance Sh_ret : MRet Sh := λ A a c w, (Done a, c, w).

#[global] Instance Sh_bind : MBind Sh := λ A B f m c w,
  match m c w with
  | (Done a, c', w') => f a c' w'
  | (Failed e, c', w') => (Failed e, c', w')
  end.

(** A method of the store called from the shell. *)
Definition call_store {A} (m : M A) : Sh A := λ c w,
  match m w with
  | (Return a, w') => (Done a, c, w')
  | (Raise e, w') => (Failed (StoreError e), c, w')
  end.

(** The line feed, and [print] of one text. *)
Definition LF : string := String "010"%char "".

Definition print (s : string) : Sh unit := λ c w,
  (Done (), mkConsole (stdin c) (stdout c ++ [(s ++ LF)%string])%list, w).

(** [input(prompt)] writes the prompt and reads one line. *)
Definition input (prompt : string) : Sh string := λ c w,
  match stdin c with
  | [] => (Failed EOFError, mkConsole [] (stdout c ++ [prompt])%list, w)
  | line :: rest => (Done line, mkConsole rest (stdout c ++ [prompt])%list, w)
  end.

(** [str.strip()] removes the characters that [str.isspace] accepts from
    both ends.  A text is held as its UTF-8 bytes, so the white space of
    Unicode is recognised by its encoding: one byte for U+0009 to U+000D,
    U+001C to U+001F and U+0020; two bytes for U+0085 and U+00A0; three
    bytes for U+1680, U+2000 to U+200A, U+2028, U+2029, U+202F, U+205F and
    U+3000. *)
Definition is_space (c : ascii) : bool :=
  let n := nat_of_ascii c in
  ((9 <=? n)%nat && (n <=? 13)%nat) || ((28 <=? n)%nat && (n <=? 32)%nat).

Definition is_space2 (a b : ascii) : bool :=
  let y := nat_of_ascii b in
  (nat_of_ascii a =? 194)%nat && ((y =? 133)%nat || (y =? 160)%nat).

Definition is_space3 (a b c : ascii) : bool :=
  let x := nat_of_ascii a in
  let y := nat_of_ascii b in
  let z := nat_of_ascii c in
  ((x =? 225)%nat && (y =? 154)%nat && (z =? 128)%nat)
  || ((x =? 226)%nat && (y =? 128)%nat
      && (((128 <=? z)%nat && (z <=? 138)%nat)
          || (z =? 168)%nat || (z =? 169)%nat || (z =? 175)%nat))
  || ((x =? 226)%nat && (y =? 129)%nat && (z =? 159)%nat)
  || ((x =? 227)%nat && (y =? 128)%nat && (z =? 128)%nat).

(** The text is one white-space character. *)
Definition is_space_char (s : string) : bool :=
  match s with
  | String a EmptyString => is_space a
  | String a (String b EmptyString) => is_space2 a b
  | String a (String b (String c EmptyString)) => is_space3 a b c
  | _ => false
  end.

Fixpoint lstrip (s : string) : string :=
  match s with
  | EmptyString => EmptyString
  | String a rest1 =>
      if is_space a then lstrip rest1
      else
        match rest1 with
        | EmptyString => s
        | String b rest2 =>
            if is_space2 a b then lstrip rest2
            else
              match rest2 with
              | EmptyString => s
              | String c rest3 => if is_space3 a b c then lstrip rest3 else s
              end
        end
  end.

Fixpoint rstrip (s : string) : string :=
  match s with
  | EmptyString => EmptyString
  | String a rest =>
      let kept := rstrip rest in
      if is_space_char (String a kept) then EmptyString else String a kept
  end.

Definition strip (s : string) : string := rstrip (lstrip s).

(** [str.capitalize()] on ASCII letters. *)
Definition upper_ascii (c : ascii) : ascii :=
  let n := nat_of_ascii c in
  if (97 <=? n)%nat && (n <=? 122)%nat then ascii_of_nat (n - 32) else c.

Definition capitalize (s : string) : string :=
  match s with
  | EmptyString => EmptyString
  | String c rest => String (upper_ascii c) (lower rest)
  end.

(** [a or b] on texts: the empty text is false. *)
Definition or_else (a b : string) : string :=
  if bool_decide (a ≠ "") then a else b.

(** ["-" * n]. *)
Definition dashes (n : nat) : string := String.concat "" (replicate n "-").

(** [str(task.id)]. *)
Definition str_id (i : option Z) : string :=
  match i with
  | Some n => pretty n
  | None => "None"
  end.

(** [Task.__str__]. *)
Definition priority_symbol : gmap string string :=
  {[ "High" := "🔴"; "Medium" := "🟡"; "Low" := "🟢" ]}.

Definition Task__str__ (self : loc) : M string :=
  t ← read_task self;
  let status := if completed t then "✓" else "○" in
  let symbol := default "🟡" (priority_symbol !! priority t) in
  let result := status ++ " [" ++ str_id (id t) ++ "] " ++ symbol ++ " " ++ title t in
  let result :=
    if bool_decide (category t ≠ "General")
    then result ++ " (" ++ category t ++ ")" else result in
  let result :=
    match due_date t with
    | Some (String _ _ as due) => result ++ " [Due: " ++ due ++ "]"
    | _ => result
    end in
  let result :=
    if bool_decide (description t ≠ "")
    then result ++ LF ++ "    📝 " ++ description t else result in
  mret result.

(** [get_user_input].  Each round of the loop reads one line, so the loop
    is written by recursion on the lines still to be read; when none is
    left, [input] raises [EOFError]. *)
Fixpoint get_user_input_loop (prompt : string) (required : bool) (lines : list string)
    : Sh string :=
  match lines with
  | [] => input prompt
  | _ :: rest =>
      line ← input prompt;
      let value := strip line in
      if bool_decide (value ≠ "") || negb required then mret value
      else
        print "❌ This field is required. Please try again.";;
        get_user_input_loop prompt required rest
  end.

Definition get_user_input (prompt : string) (required : bool) : Sh string := λ c w,
  get_user_input_loop prompt required (stdin c) c w.

(** [add_task_interactive]; the store comes back with its new
    [next_id]. *)
Definition add_task_interactive (todo_list : TodoList) : Sh TodoList :=
  print (LF ++ "➕ ADD NEW TASK");;
  print (dashes 20);;
  title ← get_user_input "📌 Task title: " true;
  description ← get_user_input "📝 Description (optional): " false;
  names ← call_store (TodoList.get_categories todo_list);
  print (LF ++ "📂 Available categories:" ++ " " ++ or_else (String.concat ", " names) "None");;
  answer ← get_user_input "📂 Category (default: General): " false;
  let category := or_else answer "General" in
  print (LF ++ "🎯 Priority levels: High, Medium, Low");;
  answer ← get_user_input "🎯 Priority (default: Medium): " false;
  let priority := or_else answer "Medium" in
  let priority :=
    if bool_decide (capitalize priority ∉ ["High"; "Medium"; "Low"])
    then "Medium" else capitalize priority in
  answer ← get_user_input "📅 Due date (YYYY-MM-DD, optional): " false;
  let due_date := if bool_decide (answer ≠ "") then Some answer else None in
  added ← call_store (TodoList.add_task todo_list title description category priority due_date);
  t ← call_store (read_task added.2);
  print (LF ++ "✅ Task added successfully with ID: " ++ str_id (id t));;
  mret added.1.

(** [for task in tasks: print(task); print()]. *)
Fixpoint print_tasks (l : list loc) : Sh unit :=
  match l with
  | [] => mret ()
  | task :: rest =>
      text ← call_store (Task__str__ task);
      print text;;
      print "";;
      print_tasks rest
  end.

(** [list_tasks_interactive]. *)
Definition list_tasks_interactive (todo_list : TodoList) : Sh unit :=
  print (LF ++ "📝 TASK LIST");;
  print (dashes 20);;
  answer ← input "Show completed tasks? (y/N): ";
  let show_completed := String.prefix "y" (lower answer) in
  category ← get_user_input "Filter by category (optional): " false;
  let category := if bool_decide (category ≠ "") then strip category else category in
  tasks ← call_store (TodoList.list_tasks todo_list show_completed (Some category));
  l ← call_store (read_list tasks);
  match l with
  | [] => print "📭 No tasks found."
  | _ =>
      print (LF ++ "📋 Found " ++ pretty (length l) ++ " task(s):");;
      print (dashes 40);;
      print_tasks l
  end.

(** [str.upper()] on ASCII letters. *)
Fixpoint upper (s : string) : string :=
  match s with
  | EmptyString => EmptyString
  | String c rest => String (upper_ascii c) (upper rest)
  end.

(** [mark_task_interactive] and [remove_task_interactive] read the id with
    the built-in [int], which is a parameter here: [int s] is the number
    that [int(s)] returns, and [None] when [int(s)] raises [ValueError],
    the one exception that the two functions catch. *)
Definition mark_task_interactive (int : string → option Z) (todo_list : TodoList)
    (complete : bool) : Sh unit :=
  let action := if complete then "complete" else "incomplete" in
  print (LF ++ (if complete then "✅" else "❌") ++ " MARK TASK " ++ upper action);;
  print (dashes 20);;
  answer ← get_user_input "🔢 Enter task ID: " true;
  match int answer with
  | Some task_id =>
      success ← call_store (if complete then TodoList.mark_complete todo_list task_id
                            else TodoList.mark_incomplete todo_list task_id);
      if success : bool
      then print ("✅ Task " ++ pretty task_id ++ " marked as " ++ action ++ "!")
      else print ("❌ Task " ++ pretty task_id ++ " not found.")
  | None => print "❌ Invalid task ID. Please enter a number."
  end.

Definition remove_task_interactive (int : string → option Z) (todo_list : TodoList)
    : Sh unit :=
  print (LF ++ "🗑️  REMOVE TASK");;
  print (dashes 20);;
  answer ← get_user_input "🔢 Enter task ID to remove: " true;
  match int answer with
  | Some task_id =>
      found ← call_store (TodoList.get_task todo_list task_id);
      match found with
      | None => print ("❌ Task " ++ pretty task_id ++ " not found.")
      | Some task =>
          print (LF ++ "📋 Task to remove:");;
          text ← call_store (Task__str__ task);
          print text;;
          confirm ← input (LF ++ "⚠️  Are you sure you want to remove this task? (y/N): ");
          if String.prefix "y" (lower confirm)
          then
            call_store (TodoList.remove_task todo_list task_id);;
            print ("✅ Task " ++ pretty task_id ++ " removed successfully!")
          else print "❌ Task removal cancelled."
      end
  | None => print "❌ Invalid task ID. Please enter a number."
  end.

(** Two task objects that differ in their priority only. *)
Definition two_priorities_world : World :=
  mkWorld stamp 0
    (<[2%positive := mkTask (Some 2%Z) "Call bank" "" "Work" "Urgent" None false
                            "2024-01-01T09:00:00" None]>
       (<[1%positive := mkTask (Some 2%Z) "Call bank" "" "Work" "Medium" None false
                               "2024-01-01T09:00:00" None]> ∅))
    ∅ ∅.

(** * Properties *)

(** ** Stable sorting on a strict total order *)

Section StableSort.
Context {K A : Type} `{!EqDecision K}.
Variable lt : K → K → bool.
Variable key : A → K.
Hypothesis lt_irrefl : ∀ a, lt a a = false.
Hypothesis lt_trans : ∀ a b c, lt a b = true → lt b c = true → lt a c = true.
Hypothesis lt_connected : ∀ a b, lt a b = false → lt b a = false → a = b.

Lemma lt_asym a b : lt a b = true → lt b a = false.
Proof.
  intros Hab. destruct (lt b a) eqn:Hba; [|done].
  rewrite <- (lt_irrefl a). symmetry. by eapply lt_trans.
Qed.

Lemma not_lt_trans a b c : lt b a = false → lt c b = false → lt c a = false.
Proof.
  intros Hba Hcb. destruct (lt c a) eqn:Hca; [|done].
  destruct (lt a b) eqn:Hab.
  - rewrite <- Hcb. symmetry. by eapply lt_trans.
  - rewrite (lt_connected a b Hab Hba) in Hca. congruence.
Qed.

Lemma insert_sorted_decorate x l :
  insert_sorted lt (key x, x) (decorate key l) = decorate key (insert_by lt key x l).
Proof.
  induction l as [|y l IH]; [done|]. simpl.
  destruct (lt (key y) (key x)); [|done].
  by rewrite IH.
Qed.

Lemma stable_sort_decorate l :
  stable_sort lt (decorate key l) = decorate key (sort_by lt key l).
Proof.
  unfold stable_sort, sort_by.
  induction l as [|x l IH]; [done|]. simpl.
  rewrite IH. apply insert_sorted_decorate.
Qed.

Lemma undecorate (l : list A) : (decorate key l).*2 = l.
Proof. unfold decorate. rewrite <- list_fmap_compose. apply list_fmap_id. Qed.

Lemma zip_decorate (l : list A) : zip (key <$> l) l = decorate key l.
Proof. induction l as [|x l IH]; [done|]. cbn. f_equal. exact IH. Qed.

Lemma insert_by_perm x l : insert_by lt key x l ≡ₚ x :: l.
Proof.
  induction l as [|y l IH]; [done|]. simpl.
  destruct (lt (key y) (key x)); [|done].
  rewrite IH. apply Permutation_swap.
Qed.

Lemma sort_by_perm l : sort_by lt key l ≡ₚ l.
Proof.
  induction l as [|x l IH]; [done|]. simpl.
  rewrite insert_by_perm. by rewrite IH.
Qed.

Lemma insert_by_sorted x l :
  StronglySorted (not_after lt key) l →
  StronglySorted (not_after lt key) (insert_by lt key x l).
Proof.
  induction l as [|y l IH]; intros Hs; simpl.
  - repeat constructor.
  - apply StronglySorted_inv in Hs as [Hl Hy].
    destruct (lt (key y) (key x)) eqn:Hyx.
    + constructor; [by apply IH|].
      rewrite insert_by_perm. constructor; [|done].
      unfold not_after. by apply lt_asym.
    + constructor; [by constructor|].
      constructor; [done|].
      eapply Forall_impl; [exact Hy|].
      intros z Hz. unfold not_after in *. by eapply not_lt_trans.
Qed.

Lemma sort_by_sorted l : StronglySorted (not_after lt key) (sort_by lt key l).
Proof.
  induction l as [|x l IH]; simpl; [constructor|]. by apply insert_by_sorted.
Qed.

Lemma insert_by_stable k x l :
  filter (λ y, key y = k) (insert_by lt key x l) = filter (λ y, key y = k) (x :: l).
Proof.
  induction l as [|y l IH]; [done|]. simpl.
  destruct (lt (key y) (key x)) eqn:Hyx; [|done].
  rewrite (filter_cons _ y), IH, !(filter_cons _ x), (filter_cons _ y).
  destruct (decide (key y = k)) as [Hy|Hy]; [|done].
  destruct (decide (key x = k)) as [Hx|Hx]; [|done].
  rewrite Hy, Hx, lt_irrefl in Hyx. done.
Qed.

Lemma sort_by_stable k l :
  filter (λ y, key y = k) (sort_by lt key l) = filter (λ y, key y = k) l.
Proof.
  induction l as [|x l IH]; [done|]. simpl.
  rewrite insert_by_stable, !(filter_cons _ x), IH. done.
Qed.

(** A sorted list whose equal-key runs are fixed is fixed. *)
Lemma stable_sort_unique l1 l2 :
  StronglySorted (not_after lt key) l1 →
  StronglySorted (not_after lt key) l2 →
  (∀ k, filter (λ y, key y = k) l1 = filter (λ y, key y = k) l2) →
  l1 = l2.
Proof.
  assert (Hhead : ∀ h t l, StronglySorted (not_after lt key) l →
            filter (λ y, key y = key h) (h :: t) = filter (λ y, key y = key h) l →
            ∃ h' t', l = h' :: t' ∧ lt (key h) (key h') = false).
  { intros h t l Hs Hf. rewrite filter_cons_True in Hf by done.
    assert (Hin : h ∈ l).
    { eapply (list_elem_of_filter (λ y, key y = key h)). rewrite <- Hf. left. }
    destruct l as [|h' t']; [by apply elem_of_nil in Hin|].
    exists h', t'. split; [done|].
    apply elem_of_cons in Hin as [->|Hin]; [apply lt_irrefl|].
    apply StronglySorted_inv in Hs as [_ Hall].
    rewrite Forall_forall in Hall. by apply Hall. }
  revert l2. induction l1 as [|h1 t1 IH]; intros l2 Hs1 Hs2 Hf.
  - destruct l2 as [|h2 t2]; [done|].
    specialize (Hf (key h2)). rewrite filter_cons_True in Hf by done. done.
  - destruct (Hhead h1 t1 l2 Hs2 (Hf (key h1))) as (h2 & t2 & -> & H12).
    destruct (Hhead h2 t2 (h1 :: t1) Hs1 (eq_sym (Hf (key h2))))
      as (h & t & [= <- <-] & H21).
    pose proof (lt_connected _ _ H12 H21) as Hk.
    pose proof (Hf (key h1)) as Hf1.
    rewrite filter_cons_True in Hf1 by done.
    rewrite filter_cons_True in Hf1 by done.
    injection Hf1 as <- Hf1.
    f_equal. apply IH.
    + by apply StronglySorted_inv in Hs1 as [? _].
    + by apply StronglySorted_inv in Hs2 as [? _].
    + intros k. specialize (Hf k). rewrite !(filter_cons _ h1) in Hf.
      destruct (decide (key h1 = k)); [by injection Hf|done].
Qed.

End StableSort.

(** ** The order of the sort keys *)

Lemma ltb_irrefl s : String.ltb s s = false.
Proof.
  unfold String.ltb. pose proof (String.compare_antisym s s) as H.
  destruct (String.compare s s); done.
Qed.

Lemma ltb_trans a b c :
  String.ltb a b = true → String.ltb b c = true → String.ltb a c = true.
Proof.
  unfold String.ltb. intros Hab Hbc.
  assert (Hlt : ∀ x y, String.compare x y = Lt ↔ String_as_OT.lt x y)
    by apply String_as_OT.cmp_lt.
  destruct (String.compare a b) eqn:Eab; try done.
  destruct (String.compare b c) eqn:Ebc; try done.
  apply Hlt in Eab, Ebc.
  pose proof (String_as_OT.lt_trans _ _ _ Eab Ebc) as Hac.
  apply Hlt in Hac. by rewrite Hac.
Qed.

Lemma ltb_connected a b : String.ltb a b = false → String.ltb b a = false → a = b.
Proof.
  unfold String.ltb. rewrite (String.compare_antisym a b).
  destruct (String.compare b a) eqn:E; simpl; try done.
  intros _ _. symmetry. by apply String.compare_eq_iff.
Qed.


Lemma key_lt_irrefl k : TodoList.key_lt k k = false.
Proof.
  destruct k as [[c p] s]. unfold TodoList.key_lt.
  rewrite !bool_decide_eq_false_2 by (intros H; by apply H).
  apply ltb_irrefl.
Qed.

Lemma key_lt_trans a b c :
  TodoList.key_lt a b = true → TodoList.key_lt b c = true → TodoList.key_lt a c = true.
Proof.
  destruct a as [[c1 p1] s1], b as [[c2 p2] s2], c as [[c3 p3] s3].
  unfold TodoList.key_lt.
  destruct c1, c2, c3; repeat case_bool_decide; simpl; try done;
    rewrite ?Z.ltb_lt; try lia; subst; try apply ltb_trans.
Qed.

Lemma key_lt_connected a b :
  TodoList.key_lt a b = false → TodoList.key_lt b a = false → a = b.
Proof.
  destruct a as [[c1 p1] s1], b as [[c2 p2] s2].
  unfold TodoList.key_lt.
  destruct c1, c2; repeat case_bool_decide; simpl; try done;
    rewrite ?Z.ltb_ge; try lia.
  all: intros Hab Hba; subst; f_equal; by apply ltb_connected.
Qed.

(** The dictionary lookup of the code ranks priorities as the
    specification does. *)
Lemma priority_order_rank p :
  default 1%Z (TodoList.priority_order !! p) = spec_rank p.
Proof.
  unfold TodoList.priority_order, spec_rank.
  rewrite !lookup_insert, lookup_empty.
  repeat case_decide; repeat case_bool_decide; subst; done.
Qed.



(** ** Stepping through computations *)

Lemma bind_run {A B} (m : M A) (k : A → M B) (w : World) :
  (m ≫= k) w = match m w with
               | (Return a, w') => k a w'
               | (Raise e, w') => (Raise e, w')
               end.
Proof. reflexivity. Qed.

Lemma ret_run {A} (a : A) (w : World) : (mret a : M A) w = (Return a, w).
Proof. reflexivity. Qed.

(** Run the first computation of a bind: by the equation [lem] that gives
    its result, or by unfolding the primitive [prim]. *)
Tactic Notation "step_by" uconstr(lem) := rewrite bind_run, lem; cbn beta iota.
Tactic Notation "step_in" reference(prim) :=
  rewrite bind_run; unfold prim at 1; cbn beta iota.

Lemma mapM_reader {A B} (f : A → M B) (g : A → B) (w : World) (l : list A) :
  (∀ x, f x w = (Return (g x), w)) → mapM f l w = (Return (g <$> l), w).
Proof.
  intros Hf. induction l as [|x l IH]; [done|].
  cbn [mapM]. by rewrite bind_run, Hf, bind_run, IH.
Qed.

Lemma comprehension_reader {A} (cond : A → M bool) (p : A → bool) (w : World) (l : list A) :
  (∀ x, cond x w = (Return (p x), w)) →
  comprehension cond l w = (Return (filter (λ x, p x) l), w).
Proof.
  intros Hc. induction l as [|x l IH]; [done|].
  cbn [comprehension]. rewrite bind_run, Hc, bind_run, IH.
  rewrite filter_cons. destruct (p x); done.
Qed.

Lemma sort_key_run (w : World) (r : loc) :
  TodoList.sort_key r w = (Return (key_of (task_at w r)), w).
Proof. reflexivity. Qed.

Lemma list_sort_run (w : World) (r : loc) :
  list_sort TodoList.key_lt TodoList.sort_key r w =
  (Return (),
   mkWorld (clock w) (ticks w) (task_heap w)
     (alter (λ _, sort_by TodoList.key_lt (λ x, key_of (task_at w x)) (list_at w r)) r
            (list_heap w))
     (disk w)).
Proof.
  unfold list_sort. rewrite bind_run. cbn [read_list].
  rewrite bind_run, (mapM_reader _ _ _ _ (sort_key_run w)).
  unfold modify_list. fold (list_at w r).
  rewrite zip_decorate, stable_sort_decorate, undecorate. done.
Qed.

(** ** Comparing without case *)

Lemma nat_of_ascii_inj a b : nat_of_ascii a = nat_of_ascii b → a = b.
Proof.
  intros H. rewrite <- (ascii_nat_embedding a), <- (ascii_nat_embedding b). by rewrite H.
Qed.

Lemma nat_of_lower_ascii a :
  nat_of_ascii (lower_ascii a) =
  if is_upper a then (nat_of_ascii a + 32)%nat else nat_of_ascii a.
Proof.
  unfold lower_ascii, is_upper.
  destruct ((65 <=? nat_of_ascii a)%nat && (nat_of_ascii a <=? 90)%nat) eqn:E; [|done].
  apply andb_true_iff in E as [_ E%Nat.leb_le].
  apply nat_ascii_embedding. lia.
Qed.

Lemma same_letter_lower a b :
  same_letter a b = bool_decide (lower_ascii a = lower_ascii b).
Proof.
  assert (Hiff : same_letter a b = true ↔ lower_ascii a = lower_ascii b).
  { split.
    - intros H. apply nat_of_ascii_inj. rewrite !nat_of_lower_ascii.
      unfold same_letter, is_upper in *.
      repeat (apply orb_true_iff in H as [H|H]).
      + apply bool_decide_eq_true in H. by subst.
      + apply andb_true_iff in H as [Hu%andb_true_iff Hb%Nat.eqb_eq].
        destruct Hu as [H1%Nat.leb_le H2%Nat.leb_le].
        repeat case_match; rewrite ?andb_true_iff, ?andb_false_iff,
          ?Nat.leb_le, ?Nat.leb_gt in *; lia.
      + apply andb_true_iff in H as [Hu%andb_true_iff Hb%Nat.eqb_eq].
        destruct Hu as [H1%Nat.leb_le H2%Nat.leb_le].
        repeat case_match; rewrite ?andb_true_iff, ?andb_false_iff,
          ?Nat.leb_le, ?Nat.leb_gt in *; lia.
    - intros H. apply (f_equal nat_of_ascii) in H. rewrite !nat_of_lower_ascii in H.
      unfold same_letter, is_upper in *.
      rewrite !orb_true_iff, !andb_true_iff, bool_decide_eq_true, !Nat.eqb_eq, !Nat.leb_le.
      destruct (decide (a = b)) as [|Hne]; [by left; left|].
      assert (nat_of_ascii a ≠ nat_of_ascii b) by (intros ?; by apply Hne, nat_of_ascii_inj).
      repeat case_match; rewrite ?andb_true_iff, ?andb_false_iff,
          ?Nat.leb_le, ?Nat.leb_gt in *; lia. }
  destruct (same_letter a b); symmetry.
  - apply bool_decide_eq_true, Hiff. done.
  - apply bool_decide_eq_false. intros H%Hiff. done.
Qed.

(** The code's test [a.lower() == b.lower()] is the specification's
    comparison without case. *)
Lemma same_ignoring_case_lower s1 s2 :
  same_ignoring_case s1 s2 = bool_decide (lower s1 = lower s2).
Proof.
  revert s2. induction s1 as [|a r1 IH]; intros [|b r2]; simpl; try done.
  rewrite IH, same_letter_lower.
  repeat case_bool_decide; simpl; try done; try congruence.
Qed.

(** ** Running [list_tasks] *)

Lemma filter_all {A} (p : A → bool) (l : list A) :
  (∀ x, p x = true) → filter (λ x, p x) l = l.
Proof.
  intros Hp. induction l as [|x l IH]; [done|].
  rewrite filter_cons, IH, Hp. done.
Qed.

Lemma filter_bool_ext {A} (p q : A → bool) (l : list A) :
  (∀ x, p x = q x) → filter (λ x, p x) l = filter (λ x, q x) l.
Proof.
  intros Hp. induction l as [|x l IH]; [done|].
  rewrite !filter_cons, IH, Hp. done.
Qed.

Lemma not_completed_run (w : World) (r : loc) :
  TodoList.not_completed r w = (Return (negb (completed (task_at w r))), w).
Proof. reflexivity. Qed.

Lemma category_is_run (c : string) (w : World) (r : loc) :
  TodoList.category_is c r w =
  (Return (bool_decide (lower (category (task_at w r)) = lower c)), w).
Proof. reflexivity. Qed.

(** A list comprehension over the list object [r] whose condition only
    reads: the result is a new list object. *)
Lemma comprehension_step (cond : loc → M bool) (p : loc → bool) (w : World) (r : loc) :
  (∀ x, cond x w = (Return (p x), w)) →
  (read_list r ≫= λ l, comprehension cond l ≫= λ kept, new_list kept) w
  = (Return (fresh (dom (list_heap w))),
     mkWorld (clock w) (ticks w) (task_heap w)
       (<[fresh (dom (list_heap w)) := filter (λ x, p x) (list_at w r)]> (list_heap w))
       (disk w)).
Proof.
  intros Hc. step_in read_list.
  by rewrite bind_run, (comprehension_reader _ _ _ _ Hc).
Qed.

Lemma fresh_list_loc (lh : gmap loc (list loc)) : fresh (dom lh) ∉ dom lh.
Proof. apply is_fresh. Qed.

Lemma sort_then_return (w : World) (r : loc) :
  (list_sort TodoList.key_lt TodoList.sort_key r ≫= λ _, mret r) w
  = (Return r,
     mkWorld (clock w) (ticks w) (task_heap w)
       (alter (λ _, sort_by TodoList.key_lt (λ x, key_of (task_at w x)) (list_at w r)) r
              (list_heap w))
       (disk w)).
Proof. by rewrite bind_run, list_sort_run. Qed.

Lemma lookup_total_alter_const (lh : gmap loc (list loc)) (r : loc) (f : list loc → list loc) :
  f [] = [] → alter (λ _, f (lh !!! r)) r lh !!! r = f (lh !!! r).
Proof.
  intros Hf. rewrite !lookup_total_alt, lookup_alter_eq.
  destruct (lh !! r); [done|]. simpl. by rewrite Hf.
Qed.

Lemma sorted_in_new_list (w : World) (lh : gmap loc (list loc)) (r : loc) (l : list loc) :
  alter (λ _, sort_by TodoList.key_lt
                (λ x, key_of (task_at (mkWorld (clock w) (ticks w) (task_heap w)
                                               (<[r:=l]> lh) (disk w)) x))
                (list_at (mkWorld (clock w) (ticks w) (task_heap w)
                                  (<[r:=l]> lh) (disk w)) r))
        r (<[r:=l]> lh) !!! r
  = sort_by TodoList.key_lt (λ x, key_of (task_at w x)) l.
Proof.
  rewrite lookup_total_alt, lookup_alter_eq, lookup_insert_eq.
  unfold list_at. cbn [list_heap fmap option_fmap option_map default].
  rewrite lookup_total_insert_eq. done.
Qed.

Lemma list_tasks_run (w : World) (self : TodoList) (sc : bool) (wanted : option string) :
  ∃ out lh,
    TodoList.list_tasks self sc wanted w
      = (Return out, mkWorld (clock w) (ticks w) (task_heap w) lh (disk w))
    ∧ (lh !!! out) = sort_by TodoList.key_lt (λ x, key_of (task_at w x))
                     (spec_selected w sc wanted (list_at w (tasks self)))
    ∧ (if (sc && negb (category_given wanted))%bool
       then out = tasks self
            ∧ lh = alter (λ _, sort_by TodoList.key_lt (λ x, key_of (task_at w x))
                                 (list_at w (tasks self))) (tasks self) (list_heap w)
       else (out ∉ dom (list_heap w))
            ∧ ∀ r, r ∈ dom (list_heap w) → lh !! r = list_heap w !! r).
Proof.
  pose proof (fresh_list_loc (list_heap w)) as Hfresh.
  assert (Hcat : ∀ c0 c (l : list loc),
    filter (λ x, bool_decide (lower (category (task_at w x)) = lower (String c0 c))) l
    = filter (λ r, spec_in_category (Some (String c0 c)) (task_at w r)) l).
  { intros c0 c l. apply filter_bool_ext. intros x. cbn [spec_in_category].
    by rewrite same_ignoring_case_lower. }
  unfold TodoList.list_tasks, spec_selected.
  destruct sc; cbn [negb].
  - rewrite (filter_all (λ r, spec_shown true (task_at w r))) by done.
    step_by ret_run.
    destruct wanted as [[|c0 c]|]; cbn [category_given andb negb].
    + rewrite bind_run. cbn [bool_decide]. rewrite bool_decide_eq_false_2 by (intros H; by apply H).
      rewrite ret_run. cbn beta iota. rewrite sort_then_return.
      eexists _, _. split; [reflexivity|]. split; [|done].
      rewrite filter_all by done.
      apply (lookup_total_alter_const _ _ (sort_by _ _)). done.
    + rewrite bind_run, bool_decide_eq_true_2 by done.
      rewrite (comprehension_step _ _ _ _ (category_is_run _ w)). cbn beta iota.
      rewrite sort_then_return. cbn [clock ticks task_heap list_heap disk].
      eexists _, _. split; [reflexivity|]. split; [|split; [done|]].
      * rewrite (sorted_in_new_list w). apply f_equal, Hcat.
      * intros r Hr. rewrite lookup_alter_ne, lookup_insert_ne; [done| |]; intros <-; done.
    + step_by ret_run. rewrite sort_then_return.
      eexists _, _. split; [reflexivity|]. split; [|done].
      rewrite filter_all by done.
      apply (lookup_total_alter_const _ _ (sort_by _ _)). done.
  - rewrite bind_run.
    rewrite (comprehension_step _ _ _ _ (not_completed_run w)). cbn beta iota.
    set (r1 := fresh (dom (list_heap w))) in *.
    set (l1 := filter _ (list_at w (tasks self))).
    assert (Hl1 : l1 = filter (λ r, spec_shown false (task_at w r)) (list_at w (tasks self)))
      by done.
    destruct wanted as [[|c0 c]|]; cbn [category_given andb negb].
    + rewrite bind_run. cbn [bool_decide]. rewrite bool_decide_eq_false_2 by (intros H; by apply H).
      rewrite ret_run. cbn beta iota. rewrite sort_then_return.
      cbn [clock ticks task_heap list_heap disk].
      eexists _, _. split; [reflexivity|]. split; [|split; [done|]].
      * rewrite (sorted_in_new_list w), filter_all by done. by rewrite Hl1.
      * intros r Hr. rewrite lookup_alter_ne, lookup_insert_ne; [done| |]; intros <-; done.
    + rewrite bind_run, bool_decide_eq_true_2 by done.
      set (w1 := mkWorld _ _ _ _ _).
      rewrite (comprehension_step _ _ _ _ (category_is_run _ w1)). cbn beta iota.
      rewrite sort_then_return.
      subst w1. cbn [clock ticks task_heap list_heap disk].
      set (r2 := fresh (dom (<[r1:=l1]> (list_heap w)))).
      assert (Hr2 : r2 ∉ dom (<[r1:=l1]> (list_heap w))) by apply fresh_list_loc.
      rewrite dom_insert_L in Hr2.
      eexists _, _. split; [reflexivity|]. split; [|split; [set_solver|]].
      * rewrite (sorted_in_new_list w). unfold list_at at 1. cbn [list_heap].
        rewrite lookup_total_insert_eq, Hl1. apply f_equal, Hcat.
      * intros r Hr. rewrite lookup_alter_ne, !lookup_insert_ne; [done| | |];
          intros <-; set_solver.
    + step_by ret_run. rewrite sort_then_return.
      cbn [clock ticks task_heap list_heap disk].
      eexists _, _. split; [reflexivity|]. split; [|split; [done|]].
      * rewrite (sorted_in_new_list w), filter_all by done. by rewrite Hl1.
      * intros r Hr. rewrite lookup_alter_ne, lookup_insert_ne; [done| |]; intros <-; done.
Qed.









(** ** Running the methods of [Task] *)

Lemma Task_init_run (w : World) (title description category priority : string)
    (due_date : option string) :
  Task.__init__ title description category priority due_date w
  = (Return (fresh (dom (task_heap w))),
     mkWorld (clock w) (S (ticks w))
       (<[fresh (dom (task_heap w)) :=
            mkTask None title description category priority due_date false
                   (clock w (ticks w)) None]> (task_heap w))
       (list_heap w) (disk w)).
Proof. reflexivity. Qed.

Lemma alter_alter {A} (f g : A → A) (r : loc) (m : gmap loc A) :
  alter f r (alter g r m) = alter (λ x, f (g x)) r m.
Proof.
  apply map_eq. intros i. destruct (decide (r = i)) as [->|Hne].
  - rewrite !lookup_alter_eq. by destruct (m !! i).
  - by rewrite !lookup_alter_ne.
Qed.

Lemma mark_complete_run (w : World) (self : loc) :
  Task.mark_complete self w
  = (Return (),
     mkWorld (clock w) (S (ticks w))
       (alter (λ t, set_completed_at (Some (clock w (ticks w))) (set_completed true t))
              self (task_heap w))
       (list_heap w) (disk w)).
Proof.
  rewrite <- alter_alter. reflexivity.
Qed.

Lemma mark_incomplete_run (w : World) (self : loc) :
  Task.mark_incomplete self w
  = (Return (),
     mkWorld (clock w) (ticks w)
       (alter (λ t, set_completed_at None (set_completed false t)) self (task_heap w))
       (list_heap w) (disk w)).
Proof.
  rewrite <- alter_alter. reflexivity.
Qed.

Lemma to_dict_run (w : World) (self : loc) :
  Task.to_dict self w = (Return (dict_of (task_at w self)), w).
Proof. reflexivity. Qed.

Lemma from_dict_run (w : World) (data : TaskDict) (title : string) :
  d_title data = Some title →
  Task.from_dict data w
  = (Return (fresh (dom (task_heap w))),
     mkWorld (clock w) (S (S (ticks w)))
       (<[fresh (dom (task_heap w)) := decoded data title (clock w (S (ticks w)))]>
          (task_heap w))
       (list_heap w) (disk w)).
Proof.
  intros Ht. unfold Task.from_dict. rewrite Ht.
  set (r := fresh (dom (task_heap w))).
  transitivity
    (Return r,
     mkWorld (clock w) (S (S (ticks w)))
       (alter (set_completed_at (default None (d_completed_at data))) r
         (alter (set_created_at (default (clock w (S (ticks w))) (d_created_at data))) r
           (alter (set_completed (default false (d_completed data))) r
             (alter (set_id (default None (d_id data))) r
               (<[r := mkTask None title (default "" (d_description data))
                              (default "General" (d_category data))
                              (default "Medium" (d_priority data))
                              (default None (d_due_date data)) false
                              (clock w (ticks w)) None]> (task_heap w))))))
       (list_heap w) (disk w)); [reflexivity|].
  by rewrite !alter_insert_eq.
Qed.

Lemma from_dict_no_title (w : World) (data : TaskDict) :
  d_title data = None → Task.from_dict data w = (Raise (KeyError "title"), w).
Proof. intros Ht. unfold Task.from_dict. by rewrite Ht. Qed.

Lemma decoded_dict_of (t : Task) (fallback : string) :
  decoded (dict_of t) (title t) fallback = t.
Proof. by destruct t. Qed.

(** ** Serialization round trip *)

(** C2.  For every task object, whatever its fields hold (an absent id,
    an empty description, no due date, no completion time included),
    [from_dict(to_dict(t))] builds a new object equal to [t] in each of the
    nine fields; [t] itself is left as it was. *)
Theorem from_dict_to_dict_restores_task (w : World) (self : loc) (t : Task) :
  task_heap w !! self = Some t →
  ∃ data copy w',
    Task.to_dict self w = (Return data, w)
    ∧ Task.from_dict data w = (Return copy, w')
    ∧ task_heap w' !! copy = Some t
    ∧ copy ≠ self
    ∧ task_heap w' !! self = Some t.
Proof.
  intros Hself.
  assert (Hat : task_at w self = t).
  { unfold task_at. by rewrite lookup_total_alt, Hself. }
  assert (Hne : fresh (dom (task_heap w)) ≠ self).
  { intros Heq. apply (is_fresh (dom (task_heap w))). rewrite Heq.
    apply elem_of_dom. eauto. }
  eexists _, _, _. split; [apply to_dict_run|]. rewrite Hat.
  split; [by apply (from_dict_run w (dict_of t) (title t))|].
  cbn [task_heap]. rewrite decoded_dict_of, lookup_insert_eq.
  split; [done|]. split; [done|]. by rewrite lookup_insert_ne.
Qed.

Lemma from_dict_to_dict_restores_task_witness :
  task_heap bare_task_world !! 1%positive = Some bare_task
  ∧ ∃ data copy w',
      Task.to_dict 1%positive bare_task_world = (Return data, bare_task_world)
      ∧ Task.from_dict data bare_task_world = (Return copy, w')
      ∧ task_heap w' !! copy = Some bare_task
      ∧ copy ≠ 1%positive
      ∧ task_heap w' !! 1%positive = Some bare_task.
Proof.
  split; [reflexivity|].
  apply (from_dict_to_dict_restores_task bare_task_world 1%positive bare_task).
  reflexivity.
Defined.

(** ** Completion toggles *)

Lemma alter_idem {A} (f : A → A) (r : loc) (m : gmap loc A) :
  (∀ x, f (f x) = f x) → alter f r (alter f r m) = alter f r m.
Proof.
  intros Hf. apply map_eq. intros i. destruct (decide (r = i)) as [->|Hne].
  - rewrite !lookup_alter_eq. destruct (m !! i); simpl; [|done]. by rewrite Hf.
  - by rewrite !lookup_alter_ne.
Qed.

(** C9.  For every task object, whatever its completion state,
    [mark_complete] followed by [mark_incomplete] leaves it with
    [completed = False] and [completed_at = None], the other fields being
    untouched; and [mark_incomplete] applied twice leaves the world that
    one application leaves. *)
Theorem mark_complete_then_mark_incomplete (w : World) (self : loc) (t : Task) :
  task_heap w !! self = Some t →
  ∃ w1 w2,
    Task.mark_complete self w = (Return (), w1)
    ∧ Task.mark_incomplete self w1 = (Return (), w2)
    ∧ task_heap w2 !! self = Some (set_completed_at None (set_completed false t))
    ∧ completed (task_at w2 self) = false
    ∧ completed_at (task_at w2 self) = None
    ∧ ∀ v, ∃ v1, Task.mark_incomplete self v = (Return (), v1)
                 ∧ Task.mark_incomplete self v1 = (Return (), v1).
Proof.
  intros Hself. eexists _, _.
  split; [apply mark_complete_run|].
  split; [apply mark_incomplete_run|].
  cbn [task_heap clock ticks list_heap disk].
  assert (Hlook : alter (λ t0, set_completed_at None (set_completed false t0)) self
            (alter (λ t0, set_completed_at (Some (clock w (ticks w))) (set_completed true t0))
               self (task_heap w)) !! self
          = Some (set_completed_at None (set_completed false t))).
  { rewrite !lookup_alter_eq, Hself. done. }
  split; [exact Hlook|].
  unfold task_at. cbn [task_heap]. rewrite lookup_total_alt, Hlook.
  split; [done|]. split; [done|].
  intros v. eexists. split; [apply mark_incomplete_run|].
  rewrite mark_incomplete_run. cbn [task_heap clock ticks list_heap disk].
  by rewrite alter_idem.
Qed.

Lemma mark_complete_then_mark_incomplete_witness :
  task_heap bare_task_world !! 1%positive = Some bare_task
  ∧ ∃ w1 w2,
      Task.mark_complete 1%positive bare_task_world = (Return (), w1)
      ∧ Task.mark_incomplete 1%positive w1 = (Return (), w2)
      ∧ task_heap w2 !! 1%positive
        = Some (set_completed_at None (set_completed false bare_task))
      ∧ completed (task_at w2 1%positive) = false
      ∧ completed_at (task_at w2 1%positive) = None
      ∧ ∀ v, ∃ v1, Task.mark_incomplete 1%positive v = (Return (), v1)
                   ∧ Task.mark_incomplete 1%positive v1 = (Return (), v1).
Proof.
  split; [reflexivity|].
  apply (mark_complete_then_mark_incomplete bare_task_world 1%positive bare_task).
  reflexivity.
Defined.

(** ** Running the methods of [TodoList] *)

Lemma save_tasks_run (w : World) (self : TodoList) :
  TodoList.save_tasks self w = (Return (), saved w self).
Proof.
  unfold TodoList.save_tasks. step_in read_list.
  rewrite bind_run, (mapM_reader _ _ _ _ (to_dict_run w)). reflexivity.
Qed.

Lemma add_task_run (w : World) (self : TodoList)
    (title description category priority : string) (due_date : option string) :
  TodoList.add_task self title description category priority due_date w
  = (Return (added_store self, fresh (dom (task_heap w))),
     added w self title description category priority due_date).
Proof.
  unfold TodoList.add_task. step_by Task_init_run.
  step_in modify_task.
  step_in modify_list.
  step_by save_tasks_run.
  unfold added. cbn [task_heap clock ticks list_heap disk].
  rewrite alter_insert_eq. reflexivity.
Qed.

Lemma get_task_loop_run (w : World) (task_id : Z) (l : list loc) :
  TodoList.get_task_loop task_id l w = (Return (first_with_id w task_id l), w).
Proof.
  induction l as [|r l IH]; [done|].
  cbn [TodoList.get_task_loop first_with_id]. rewrite bind_run.
  unfold read_task at 1. cbn beta iota. fold (task_at w r).
  destruct (bool_decide (id (task_at w r) = Some task_id)); [done|apply IH].
Qed.

Lemma get_task_run (w : World) (self : TodoList) (task_id : Z) :
  TodoList.get_task self task_id w
  = (Return (first_with_id w task_id (list_at w (tasks self))), w).
Proof.
  unfold TodoList.get_task. step_in read_list.
  apply get_task_loop_run.
Qed.

Lemma remove_task_loop_run (w : World) (self : TodoList) (task_id : Z) (i : nat)
    (rest : list loc) :
  TodoList.remove_task_loop self task_id i rest w
  = match index_with_id w task_id i rest with
    | Some k => (Return true, saved (with_list w (tasks self) (delete k)) self)
    | None => (Return false, w)
    end.
Proof.
  revert i. induction rest as [|r rest IH]; intros i; [done|].
  cbn [TodoList.remove_task_loop index_with_id]. rewrite bind_run.
  unfold read_task at 1. cbn beta iota. fold (task_at w r).
  destruct (bool_decide (id (task_at w r) = Some task_id)); [|apply IH].
  step_in modify_list.
  by rewrite bind_run, save_tasks_run.
Qed.

Lemma remove_task_run (w : World) (self : TodoList) (task_id : Z) :
  TodoList.remove_task self task_id w
  = match index_with_id w task_id 0 (list_at w (tasks self)) with
    | Some k => (Return true, saved (with_list w (tasks self) (delete k)) self)
    | None => (Return false, w)
    end.
Proof.
  unfold TodoList.remove_task. step_in read_list.
  apply remove_task_loop_run.
Qed.

Lemma store_mark_complete_run (w : World) (self : TodoList) (task_id : Z) :
  TodoList.mark_complete self task_id w
  = match first_with_id w task_id (list_at w (tasks self)) with
    | Some r => (Return true, saved (marked_complete w r) self)
    | None => (Return false, w)
    end.
Proof.
  unfold TodoList.mark_complete. step_by get_task_run.
  destruct (first_with_id w task_id (list_at w (tasks self))) as [r|]; [|done].
  step_by mark_complete_run.
  by rewrite bind_run, save_tasks_run.
Qed.

Lemma store_mark_incomplete_run (w : World) (self : TodoList) (task_id : Z) :
  TodoList.mark_incomplete self task_id w
  = match first_with_id w task_id (list_at w (tasks self)) with
    | Some r => (Return true, saved (marked_incomplete w r) self)
    | None => (Return false, w)
    end.
Proof.
  unfold TodoList.mark_incomplete. step_by get_task_run.
  destruct (first_with_id w task_id (list_at w (tasks self))) as [r|]; [|done].
  step_by mark_incomplete_run.
  by rewrite bind_run, save_tasks_run.
Qed.

Lemma get_categories_run (w : World) (self : TodoList) :
  ∃ names, TodoList.get_categories self w = (Return names, w).
Proof.
  unfold TodoList.get_categories. step_in read_list.
  rewrite bind_run.
  rewrite (mapM_reader _ (λ r, category (task_at w r))) by done.
  cbn beta iota. eexists. reflexivity.
Qed.

Lemma get_stats_run (w : World) (self : TodoList) :
  ∃ stats, TodoList.get_stats self w = (Return stats, w)
           ∧ TodoList.s_total stats
             = (TodoList.s_completed stats + TodoList.s_pending stats)%Z.
Proof.
  unfold TodoList.get_stats. step_in read_list.
  rewrite bind_run.
  rewrite (mapM_reader _ (task_at w)) by done.
  cbn beta iota. eexists. split; [reflexivity|]. cbn. lia.
Qed.

(** ** Loading *)

Lemma new_list_run (w : World) (l : list loc) :
  new_list l w = (Return (fresh (dom (list_heap w))), with_new_list w l).
Proof. reflexivity. Qed.

(** Decoding a list of records that all have a title: one new object per
    record, the objects already there untouched. *)
Lemma mapM_from_dict_run (ds : list TaskDict) :
  Forall (λ d, is_Some (d_title d)) ds →
  ∀ w, ∃ rs w',
    mapM Task.from_dict ds w = (Return rs, w')
    ∧ Forall2 (λ r d, ∃ title fallback,
                 d_title d = Some title
                 ∧ task_heap w' !! r = Some (decoded d title fallback)) rs ds
    ∧ list_heap w' = list_heap w
    ∧ disk w' = disk w
    ∧ (∀ r t, task_heap w !! r = Some t → task_heap w' !! r = Some t).
Proof.
  induction 1 as [|d ds [title Ht] _ IH]; intros w.
  - exists [], w. repeat split; [constructor|auto].
  - cbn [mapM]. step_by (from_dict_run w d title Ht).
    set (r := fresh (dom (task_heap w))).
    set (w1 := mkWorld _ _ _ _ _).
    destruct (IH w1) as (rs & w' & Hrun & Hall & Hlists & Hdisk & Hkeep).
    step_by Hrun.
    exists (r :: rs), w'. split; [done|]. split; [|split; [done|split; [done|]]].
    + constructor; [|done]. eexists _, _. split; [done|].
      apply Hkeep. subst w1. cbn [task_heap]. apply lookup_insert_eq.
    + intros r' t' Hr'. apply Hkeep. subst w1. cbn [task_heap].
      rewrite lookup_insert_ne; [done|]. intros <-.
      apply (is_fresh (dom (task_heap w))). apply elem_of_dom. eauto.
Qed.

(** A record without a title stops the decoding with [KeyError]. *)
Lemma mapM_from_dict_raises (ds : list TaskDict) :
  Exists (λ d, d_title d = None) ds →
  ∀ w, ∃ w', mapM Task.from_dict ds w = (Raise (KeyError "title"), w')
             ∧ list_heap w' = list_heap w ∧ disk w' = disk w.
Proof.
  induction ds as [|d ds IH]; intros Hex w; [by apply Exists_nil in Hex|].
  cbn [mapM]. rewrite bind_run.
  destruct (d_title d) as [title|] eqn:Ht.
  - rewrite (from_dict_run w d title Ht). cbn beta iota.
    apply Exists_cons in Hex as [Hd|Hex]; [congruence|].
    edestruct (IH Hex) as (w' & Hrun & Hl & Hd).
    step_by Hrun. eexists. split; [done|].
    rewrite Hl, Hd. done.
  - rewrite (from_dict_no_title w d Ht). cbn beta iota. eauto.
Qed.

Lemma load_tasks_missing_file (w : World) (self : TodoList) :
  disk w !! data_file self = None → TodoList.load_tasks self w = (Return self, w).
Proof.
  intros Hfile. unfold TodoList.load_tasks. rewrite bind_run. unfold path_exists at 1.
  rewrite Hfile, bool_decide_eq_false_2 by (by intros [? ?]). done.
Qed.

Lemma load_tasks_not_json (w : World) (self : TodoList) :
  disk w !! data_file self = Some NotJson →
  TodoList.load_tasks self w
  = (Return (mkTodoList (data_file self) (fresh (dom (list_heap w))) 1),
     with_new_list w []).
Proof.
  intros Hfile. unfold TodoList.load_tasks. rewrite bind_run. unfold path_exists at 1.
  rewrite Hfile, bool_decide_eq_true_2 by eauto. cbn beta iota.
  unfold try_except. rewrite bind_run. unfold json_load at 1.
  rewrite Hfile. reflexivity.
Qed.

Lemma load_tasks_not_object (w : World) (self : TodoList) :
  disk w !! data_file self = Some (Json JOther) →
  TodoList.load_tasks self w = (Raise AttributeError, w).
Proof.
  intros Hfile. unfold TodoList.load_tasks. rewrite bind_run. unfold path_exists at 1.
  rewrite Hfile, bool_decide_eq_true_2 by eauto. cbn beta iota.
  unfold try_except. rewrite bind_run. unfold json_load at 1.
  rewrite Hfile. reflexivity.
Qed.

Lemma load_tasks_object (w : World) (self : TodoList) (d : StoreDict) :
  disk w !! data_file self = Some (Json (JObject d)) →
  TodoList.load_tasks self w
  = match mapM Task.from_dict (default [] (d_tasks d)) w with
    | (Return rs, w') =>
        (Return (mkTodoList (data_file self) (fresh (dom (list_heap w')))
                            (default 1%Z (d_next_id d))),
         with_new_list w' rs)
    | (Raise (KeyError k), w') => (Raise (KeyError k), w')
    | (Raise AttributeError, w') => (Raise AttributeError, w')
    | (Raise _, w') =>
        (Return (mkTodoList (data_file self) (fresh (dom (list_heap w'))) 1),
         with_new_list w' [])
    end.
Proof.
  intros Hfile. unfold TodoList.load_tasks. rewrite bind_run. unfold path_exists at 1.
  rewrite Hfile, bool_decide_eq_true_2 by eauto. cbn beta iota.
  unfold try_except. rewrite bind_run. unfold json_load at 1.
  rewrite Hfile. cbn beta iota.
  rewrite bind_run. cbn [TodoList.get_tasks_key]. rewrite ret_run. cbn beta iota.
  rewrite bind_run.
  destruct (mapM Task.from_dict (default [] (d_tasks d)) w) as [[rs|e] w'].
  - reflexivity.
  - destruct e; reflexivity.
Qed.

Lemma init_run (w : World) (path : string) :
  TodoList.__init__ path w
  = TodoList.load_tasks (mkTodoList path (fresh (dom (list_heap w))) 1)
                        (with_new_list w []).
Proof. reflexivity. Qed.

Lemma list_at_new_list (w : World) (l : list loc) :
  list_at (with_new_list w l) (fresh (dom (list_heap w))) = l.
Proof. unfold list_at, with_new_list. cbn [list_heap]. apply lookup_total_insert_eq. Qed.

(** C3, the claim as stated fails on a document that parses but holds a
    task record without a title: the constructor raises [KeyError]. *)
Lemma init_raises_on_record_without_title :
  disk untitled_record_world !! "tasks.json"
    = Some (Json (JObject (mkStoreDict (Some [untitled_record]) (Some 2%Z))))
  ∧ d_title untitled_record = None
  ∧ ∃ w', TodoList.__init__ "tasks.json" untitled_record_world
          = (Raise (KeyError "title"), w').
Proof.
  split; [reflexivity|]. split; [reflexivity|].
  eexists. vm_compute. reflexivity.
Qed.

(** C3, amended.  The constructor returns a store with an empty tasks
    collection and [next_id = 1], without raising, when the backing file
    does not exist or its content is not JSON.  When the content is JSON
    the errors of the load are not caught: a document that is not an object
    raises [AttributeError], and a task record without a title raises
    [KeyError]. *)
Theorem init_recovers_only_from_unparsable_file (w : World) (path : string) :
  (disk w !! path = None ∨ disk w !! path = Some NotJson →
     ∃ self w',
       TodoList.__init__ path w = (Return self, w')
       ∧ data_file self = path
       ∧ list_at w' (tasks self) = []
       ∧ next_id self = 1%Z
       ∧ task_heap w' = task_heap w
       ∧ disk w' = disk w)
  ∧ (disk w !! path = Some (Json JOther) →
     ∃ w', TodoList.__init__ path w = (Raise AttributeError, w'))
  ∧ (∀ d, disk w !! path = Some (Json (JObject d)) →
          Exists (λ r, d_title r = None) (default [] (d_tasks d)) →
          ∃ w', TodoList.__init__ path w = (Raise (KeyError "title"), w')).
Proof.
  rewrite init_run. split; [|split].
  - intros [Hfile|Hfile].
    + rewrite load_tasks_missing_file by done.
      eexists _, _. split; [done|]. cbn [data_file tasks next_id].
      by rewrite list_at_new_list.
    + rewrite load_tasks_not_json by done.
      eexists _, _. split; [done|]. cbn [data_file tasks next_id].
      by rewrite list_at_new_list.
  - intros Hfile. rewrite load_tasks_not_object by done. eauto.
  - intros d Hfile Hex. rewrite (load_tasks_object _ _ d) by done.
    destruct (mapM_from_dict_raises _ Hex (with_new_list w [])) as (w' & -> & _).
    eauto.
Qed.

(** The scenario of the specification, by the theorem: a file of invalid
    text gives an empty store with [next_id = 1]. *)
Lemma init_on_invalid_text :
  ∃ self w',
    TodoList.__init__ "tasks.json" garbage_world = (Return self, w')
    ∧ list_at w' (tasks self) = []
    ∧ next_id self = 1%Z.
Proof.
  destruct (init_recovers_only_from_unparsable_file garbage_world "tasks.json")
    as [Hok _].
  destruct Hok as (self & w' & Hrun & _ & Hl & Hn & _); [right; reflexivity|].
  exists self, w'. split; [exact Hrun|]. split; [exact Hl|exact Hn].
Defined.

Lemma lookup_total_alter_Some (lh : gmap loc (list loc)) (r : loc)
    (f : list loc → list loc) (l : list loc) :
  lh !! r = Some l → alter f r lh !!! r = f l.
Proof. intros Hr. by rewrite lookup_total_alt, lookup_alter_eq, Hr. Qed.

(** C10.  When the backing document is a JSON object without the key
    [next_id] (and each of its task records has a title), the constructor
    returns a store with [next_id = 1] whatever ids the loaded tasks carry,
    and the next [add_task] issues the id 1.  For the document that holds
    one task of id 1, the store then holds two distinct tasks of id 1. *)
Theorem init_without_next_id_restarts_at_one :
  (∀ (w : World) (path : string) (records : option (list TaskDict)),
     disk w !! path = Some (Json (JObject (mkStoreDict records None))) →
     Forall (λ d, is_Some (d_title d)) (default [] records) →
     ∃ self w',
       TodoList.__init__ path w = (Return self, w')
       ∧ next_id self = 1%Z
       ∧ Forall2 (λ r d, id (task_at w' r) = default None (d_id d))
                 (list_at w' (tasks self)) (default [] records)
       ∧ ∀ title description category priority due_date,
           ∃ self2 task w2,
             TodoList.add_task self title description category priority due_date w'
               = (Return (self2, task), w2)
             ∧ id (task_at w2 task) = Some 1%Z
             ∧ list_at w2 (tasks self2) = (list_at w' (tasks self) ++ [task])%list)
  ∧ (∃ self old w' self2 task w2,
       TodoList.__init__ "tasks.json" old_document_world = (Return self, w')
       ∧ next_id self = 1%Z
       ∧ list_at w' (tasks self) = [old]
       ∧ id (task_at w' old) = Some 1%Z
       ∧ TodoList.add_task self "New task" "" "General" "Medium" None w'
           = (Return (self2, task), w2)
       ∧ list_at w2 (tasks self2) = [old; task]
       ∧ old ≠ task
       ∧ id (task_at w2 old) = Some 1%Z
       ∧ id (task_at w2 task) = Some 1%Z).
Proof.
  split.
  - intros w path records Hfile Htitles.
    rewrite init_run, (load_tasks_object _ _ (mkStoreDict records None)) by done.
    cbn [d_tasks d_next_id].
    destruct (mapM_from_dict_run _ Htitles (with_new_list w []))
      as (rs & w1 & -> & Hall & Hlists & Hdisk & Hkeep).
    eexists _, _. split; [reflexivity|]. cbn [next_id tasks default].
    split; [done|]. rewrite list_at_new_list. split.
    + eapply Forall2_impl; [exact Hall|].
      intros r d (title & fallback & _ & Hr).
      unfold task_at, with_new_list. cbn [task_heap].
      by rewrite lookup_total_alt, Hr.
    + intros title description category priority due_date.
      rewrite add_task_run. eexists _, _, _. split; [reflexivity|].
      unfold added, saved, task_at, list_at, added_store.
      cbn [task_heap list_heap tasks with_new_list].
      rewrite lookup_total_insert_eq. split; [done|].
      erewrite lookup_total_alter_Some; [|apply lookup_insert_eq].
      done.
  - eexists _, _, _, _, _, _.
    split; [vm_compute; reflexivity|].
    split; [reflexivity|].
    split; [vm_compute; reflexivity|].
    split; [vm_compute; reflexivity|].
    split; [vm_compute; reflexivity|].
    split; [vm_compute; reflexivity|].
    split; [done|].
    split; vm_compute; reflexivity.
Qed.

(** ** Priorities at creation *)

(** C7, the claim as stated fails: a task created with the priority
    "Urgent" holds "Urgent", not "Medium". *)
Lemma init_keeps_unrecognized_priority :
  ∃ task w',
    Task.__init__ "Pay rent" "" "General" "Urgent" None blank_world = (Return task, w')
    ∧ priority (task_at w' task) = "Urgent"
    ∧ priority (task_at w' task) ≠ "Medium".
Proof.
  eexists _, _. split; [vm_compute; reflexivity|].
  split; [vm_compute; reflexivity|]. vm_compute. discriminate.
Qed.

(** C7, amended.  Whatever the priority text, [Task(...)] and [add_task]
    never reject it and the task they build holds that text unchanged; a
    text other than High, Medium and Low is ranked as Medium by the sort
    key of [list_tasks]. *)
Theorem creation_keeps_priority_text (w : World) (self : TodoList)
    (title description category p : string) (due_date : option string) :
  (∃ task w',
     Task.__init__ title description category p due_date w = (Return task, w')
     ∧ priority (task_at w' task) = p)
  ∧ (∃ self' task w',
       TodoList.add_task self title description category p due_date w
         = (Return (self', task), w')
       ∧ priority (task_at w' task) = p)
  ∧ (p ≠ "High" → p ≠ "Medium" → p ≠ "Low" →
     ∀ t, priority t = p → (key_of t).1.2 = 1%Z).
Proof.
  split; [|split].
  - rewrite Task_init_run. eexists _, _. split; [done|].
    unfold task_at. cbn [task_heap]. by rewrite lookup_total_insert_eq.
  - rewrite add_task_run. eexists _, _, _. split; [done|].
    unfold task_at, added, saved. cbn [task_heap]. by rewrite lookup_total_insert_eq.
  - intros H1 H2 H3 t Ht. unfold key_of. cbn [fst snd].
    rewrite priority_order_rank, Ht. unfold spec_rank.
    rewrite !bool_decide_eq_false_2; done.
Qed.

(** ** Completion times *)

(** C4, the claim as stated fails on deserialization: a record with
    [completed = true] and no [completed_at] gives a task that is completed
    and has no completion time. *)
Lemma from_dict_completed_without_completed_at :
  d_completed done_record = Some true
  ∧ d_completed_at done_record = None
  ∧ ∃ task w',
      Task.from_dict done_record blank_world = (Return task, w')
      ∧ completed (task_at w' task) = true
      ∧ completed_at (task_at w' task) = None
      ∧ ¬ completion_consistent (task_at w' task).
Proof.
  split; [reflexivity|]. split; [reflexivity|].
  eexists _, _. split; [vm_compute; reflexivity|].
  split; [vm_compute; reflexivity|]. split; [vm_compute; reflexivity|].
  intros [_ H]. vm_compute in H. by apply H.
Qed.

(** ** Runs of calls *)

Section HeapInvariant.
Variable P : Task → Prop.
Hypothesis P_new : ∀ i title description category priority due_date created,
  P (mkTask i title description category priority due_date false created None).
Hypothesis P_complete : ∀ stamp t,
  P t → P (set_completed_at (Some stamp) (set_completed true t)).
Hypothesis P_incomplete : ∀ t,
  P t → P (set_completed_at None (set_completed false t)).

Lemma every_task_alter (f : Task → Task) (r : loc) (m : gmap loc Task) :
  (∀ t, P t → P (f t)) →
  map_Forall (λ _, P) m → map_Forall (λ _, P) (alter f r m).
Proof.
  intros Hf Hm i t. destruct (decide (r = i)) as [->|Hne].
  - rewrite lookup_alter_eq. destruct (m !! i) as [t0|] eqn:Hi; [|done].
    intros [= <-]. apply Hf. by eapply Hm.
  - rewrite lookup_alter_ne by done. apply Hm.
Qed.

Lemma Task_init_every_task (w : World) title description category priority due_date :
  every_task P w →
  ∃ task w',
    Task.__init__ title description category priority due_date w = (Return task, w')
    ∧ every_task P w'
    ∧ is_Some (task_heap w' !! task).
Proof.
  intros Hw. rewrite Task_init_run. eexists _, _. split; [done|].
  unfold every_task. cbn [task_heap]. split.
  - apply map_Forall_insert_2; [apply P_new|done].
  - rewrite lookup_insert_eq. eauto.
Qed.

Lemma mark_complete_every_task (w : World) (self : loc) :
  every_task P w →
  ∃ w', Task.mark_complete self w = (Return (), w') ∧ every_task P w'.
Proof.
  intros Hw. rewrite mark_complete_run. eexists. split; [done|].
  apply every_task_alter; [|done]. intros t. apply P_complete.
Qed.

Lemma mark_incomplete_every_task (w : World) (self : loc) :
  every_task P w →
  ∃ w', Task.mark_incomplete self w = (Return (), w') ∧ every_task P w'.
Proof.
  intros Hw. rewrite mark_incomplete_run. eexists. split; [done|].
  apply every_task_alter; [|done]. intros t. apply P_incomplete.
Qed.

(** Each call returns, leaves the store as [issues] says, and keeps [P]
    on every task object. *)
Lemma perform_summary (w : World) (self : TodoList) (c : call) :
  every_task P w →
  ∃ w', perform self c w = (Return (issues self c), w') ∧ every_task P w'.
Proof.
  intros Hw. destruct c as [title description category priority due_date
    | task_id | task_id | task_id | task_id | show_completed wanted | | ];
    cbn [perform issues]; rewrite bind_run.
  - rewrite add_task_run. cbn beta iota. cbn [fst snd].
    step_in read_task.
    unfold added at 1, saved at 1. cbn [task_heap].
    rewrite lookup_total_insert_eq. rewrite ret_run. cbn [id added_task].
    eexists. split; [reflexivity|].
    unfold every_task, added, saved. cbn [task_heap].
    apply map_Forall_insert_2; [apply P_new|done].
  - rewrite remove_task_run.
    destruct (index_with_id w task_id 0 (list_at w (tasks self))); eauto.
  - rewrite get_task_run. eauto.
  - rewrite store_mark_complete_run.
    destruct (first_with_id w task_id (list_at w (tasks self))) as [r|]; [|eauto].
    cbn beta iota. rewrite ret_run. eexists. split; [done|].
    unfold every_task, saved, marked_complete. cbn [task_heap].
    apply every_task_alter; [|done]. intros t. apply P_complete.
  - rewrite store_mark_incomplete_run.
    destruct (first_with_id w task_id (list_at w (tasks self))) as [r|]; [|eauto].
    cbn beta iota. rewrite ret_run. eexists. split; [done|].
    unfold every_task, saved, marked_incomplete. cbn [task_heap].
    apply every_task_alter; [|done]. intros t. apply P_incomplete.
  - destruct (list_tasks_run w self show_completed wanted) as (out & lh & -> & _).
    cbn beta iota. rewrite ret_run. eexists. split; [done|]. done.
  - destruct (get_categories_run w self) as (names & ->). eauto.
  - destruct (get_stats_run w self) as (stats & -> & _). eauto.
Qed.

Lemma run_summary (calls : list call) (w : World) (self : TodoList) :
  every_task P w →
  ∃ w', run self calls w = (Return (run_issues self calls), w') ∧ every_task P w'.
Proof.
  revert w self. induction calls as [|c calls IH]; intros w self Hw; [by exists w|].
  cbn [run run_issues]. rewrite bind_run.
  destruct (perform_summary w self c Hw) as (w1 & -> & Hw1).
  destruct (IH w1 (issues self c).1 Hw1) as (w2 & Hrun & Hw2).
  rewrite bind_run, Hrun. eauto.
Qed.

End HeapInvariant.

(** The ids that a run issues: from [next_id] upwards, each larger than
    those before. *)
Lemma run_issues_ids (calls : list call) (self : TodoList) :
  (next_id self ≤ next_id (run_issues self calls).1)%Z
  ∧ Forall (λ i, ∃ n, i = Some n
                      ∧ (next_id self ≤ n < next_id (run_issues self calls).1)%Z)
           (run_issues self calls).2
  ∧ StronglySorted (λ i j, ∃ m n, i = Some m ∧ j = Some n ∧ (m < n)%Z)
                   (run_issues self calls).2.
Proof.
  revert self. induction calls as [|c calls IH]; intros self.
  - cbn. split; [lia|]. split; constructor.
  - cbn [run_issues fst snd].
    destruct (IH (issues self c).1) as (Hle & Hall & Hsorted).
    assert (Hstep : (next_id self ≤ next_id (issues self c).1)%Z)
      by (destruct c; cbn [issues fst added_store next_id]; lia).
    split; [lia|].
    assert (Hrest : Forall (λ i, ∃ n, i = Some n
               ∧ (next_id self ≤ n < next_id (run_issues (issues self c).1 calls).1)%Z)
             (run_issues (issues self c).1 calls).2).
    { eapply Forall_impl; [exact Hall|]. intros i (n & -> & Hn). exists n. split; [done|lia]. }
    destruct c; cbn [issues fst snd app added_store next_id] in *; try (split; done).
    split.
    + constructor; [|done]. eexists. split; [done|]. lia.
    + constructor; [done|].
      eapply Forall_impl; [exact Hall|]. intros i (n & -> & Hn).
      eexists _, _. split; [done|]. split; [done|]. lia.
Qed.

(** C5.  From any state of a store and after any sequence of calls on it
    (additions, removals, lookups, completion toggles, listings,
    statistics), [add_task] returns a task whose id is strictly greater
    than every id that [add_task] returned during the sequence; the ids
    issued in the sequence are strictly increasing, and [next_id] never
    decreases and grows with each addition. *)
Theorem add_task_ids_increase (w : World) (self : TodoList) (calls : list call)
    (title description category priority : string) (due_date : option string) :
  ∃ self1 ids w1 self2 task w2 n,
    run self calls w = (Return (self1, ids), w1)
    ∧ (next_id self ≤ next_id self1)%Z
    ∧ StronglySorted (λ i j, ∃ m k, i = Some m ∧ j = Some k ∧ (m < k)%Z) ids
    ∧ TodoList.add_task self1 title description category priority due_date w1
        = (Return (self2, task), w2)
    ∧ id (task_at w2 task) = Some n
    ∧ Forall (λ i, ∃ m, i = Some m ∧ (m < n)%Z) ids
    ∧ (next_id self1 < next_id self2)%Z.
Proof.
  destruct (run_summary (λ _, True) (λ _ _ _ _ _ _ _, I) (λ _ _ _, I) (λ _ _, I)
              calls w self) as (w1 & Hrun & _).
  { intros r t _. exact I. }
  destruct (run_issues_ids calls self) as (Hle & Hall & Hsorted).
  destruct (run_issues self calls) as [self1 ids]. cbn [fst snd] in *.
  exists self1, ids, w1, (added_store self1), (fresh (dom (task_heap w1))).
  eexists _, (next_id self1).
  split; [exact Hrun|]. split; [exact Hle|]. split; [exact Hsorted|].
  split; [apply add_task_run|].
  split.
  { unfold task_at, added, saved. cbn [task_heap]. by rewrite lookup_total_insert_eq. }
  split; [|cbn; lia].
  eapply Forall_impl; [exact Hall|]. intros i (m & -> & Hm). exists m. split; [done|lia].
Qed.

Lemma completion_consistent_new i title description category priority due_date created :
  completion_consistent
    (mkTask i title description category priority due_date false created None).
Proof. split; done. Qed.

Lemma completion_consistent_complete stamp t :
  completion_consistent t →
  completion_consistent (set_completed_at (Some stamp) (set_completed true t)).
Proof. split; done. Qed.

Lemma completion_consistent_incomplete t :
  completion_consistent t →
  completion_consistent (set_completed_at None (set_completed false t)).
Proof. split; done. Qed.

(** C4, amended.  In a world whose task objects all have a completion time
    exactly when they are completed, constructing a task, [mark_complete],
    [mark_incomplete] and every sequence of calls on a store return and
    leave a world of that kind.  [from_dict] copies [completed] and
    [completed_at] from the record (false and none when absent) without
    comparing them: the world it leaves is of that kind when the two
    entries of the record agree. *)
Theorem completion_consistency_kept (w : World) :
  every_task completion_consistent w →
  (∀ title description category priority due_date,
     ∃ task w',
       Task.__init__ title description category priority due_date w = (Return task, w')
       ∧ every_task completion_consistent w'
       ∧ is_Some (task_heap w' !! task))
  ∧ (∀ self, ∃ w', Task.mark_complete self w = (Return (), w')
                   ∧ every_task completion_consistent w')
  ∧ (∀ self, ∃ w', Task.mark_incomplete self w = (Return (), w')
                   ∧ every_task completion_consistent w')
  ∧ (∀ data title,
       d_title data = Some title →
       ∃ task w',
         Task.from_dict data w = (Return task, w')
         ∧ completed (task_at w' task) = default false (d_completed data)
         ∧ completed_at (task_at w' task) = default None (d_completed_at data)
         ∧ ((default None (d_completed_at data) ≠ None
             ↔ default false (d_completed data) = true) →
            every_task completion_consistent w'))
  ∧ (∀ self calls,
       ∃ res w', run self calls w = (Return res, w')
                 ∧ every_task completion_consistent w').
Proof.
  intros Hw. split; [|split; [|split; [|split]]].
  - intros. by apply (Task_init_every_task _ completion_consistent_new).
  - intros. by apply (mark_complete_every_task _ completion_consistent_complete).
  - intros. by apply (mark_incomplete_every_task _ completion_consistent_incomplete).
  - intros data title Ht. rewrite (from_dict_run w data title Ht).
    eexists _, _. split; [done|].
    unfold task_at, every_task. cbn [task_heap]. rewrite lookup_total_insert_eq.
    split; [done|]. split; [done|].
    intros Hagree. apply map_Forall_insert_2; [exact Hagree|done].
  - intros self calls.
    destruct (run_summary _ completion_consistent_new completion_consistent_complete
                completion_consistent_incomplete calls w self Hw) as (w' & Hrun & Hw').
    eauto.
Qed.

Lemma completion_consistency_kept_witness :
  every_task completion_consistent bare_task_world
  ∧ ∃ w', Task.mark_complete 1%positive bare_task_world = (Return (), w')
          ∧ every_task completion_consistent w'.
Proof.
  assert (H : every_task completion_consistent bare_task_world).
  { apply map_Forall_insert_2; [split; done|apply map_Forall_empty]. }
  split; [exact H|].
  exact (proj1 (proj2 (completion_consistency_kept bare_task_world H)) 1%positive).
Defined.

(** ** Removal *)

Lemma first_with_id_None (w : World) (task_id : Z) (l : list loc) :
  Forall (λ r, id (task_at w r) ≠ Some task_id) l → first_with_id w task_id l = None.
Proof.
  induction 1 as [|r l Hr _ IH]; [done|].
  cbn [first_with_id]. by rewrite bool_decide_eq_false_2.
Qed.

Lemma with_id_nil (w : World) (task_id : Z) (l : list loc) :
  with_id w task_id l = [] → Forall (λ r, id (task_at w r) ≠ Some task_id) l.
Proof.
  unfold with_id. induction l as [|r l IH]; [constructor|].
  rewrite filter_cons. destruct (decide (id (task_at w r) = Some task_id)); [done|].
  intros Hl. constructor; auto.
Qed.

Lemma with_id_nil_2 (w : World) (task_id : Z) (l : list loc) :
  Forall (λ r, id (task_at w r) ≠ Some task_id) l → with_id w task_id l = [].
Proof.
  unfold with_id. induction 1 as [|r l Hr _ IH]; [done|].
  by rewrite filter_cons, decide_False.
Qed.

(** Removing the first task of an id that at most one task carries leaves
    no task of that id. *)
Lemma delete_index_with_id (w : World) (task_id : Z) (l : list loc) (i k : nat) :
  index_with_id w task_id i l = Some k →
  (length (with_id w task_id l) ≤ 1)%nat →
  (i ≤ k)%nat ∧ Forall (λ r, id (task_at w r) ≠ Some task_id) (delete (k - i) l).
Proof.
  revert i. induction l as [|r l IH]; intros i Hk Hone; [done|].
  cbn [index_with_id] in Hk. unfold with_id in Hone. rewrite filter_cons in Hone.
  case_bool_decide as Hr.
  - injection Hk as <-. split; [lia|]. rewrite Nat.sub_diag. cbn [delete list_delete].
    rewrite decide_True in Hone by done. cbn [length] in Hone.
    apply with_id_nil. apply nil_length_inv. unfold with_id. lia.
  - rewrite decide_False in Hone by done.
    destruct (IH (S i) Hk Hone) as [Hle Hall]. split; [lia|].
    replace (k - i) with (S (k - S i)) by lia. cbn [delete list_delete].
    constructor; done.
Qed.

Lemma index_with_id_nonempty (w : World) (task_id : Z) (i k : nat) (l : list loc) :
  index_with_id w task_id i l = Some k → l ≠ [].
Proof. by destruct l. Qed.

(** What [list_at] reads after a save. *)
Lemma list_at_saved (w : World) (self : TodoList) (r : loc) :
  list_at (saved w self) r = list_at w r.
Proof. reflexivity. Qed.

(** Loading what [save_tasks] wrote: a new store with as many tasks, equal
    field by field, and the saved [next_id]. *)
Lemma init_after_save (w : World) (self : TodoList) :
  ∃ rs w',
    TodoList.__init__ (data_file self) (saved w self)
      = (Return (mkTodoList (data_file self) (fresh (dom (list_heap w'))) (next_id self)),
         with_new_list w' rs)
    ∧ task_at w' <$> rs = task_at w <$> list_at w (tasks self).
Proof.
  rewrite init_run.
  rewrite (load_tasks_object _ _
             (mkStoreDict (Some ((λ r, dict_of (task_at w r)) <$> list_at w (tasks self)))
                          (Some (next_id self))))
    by apply lookup_insert_eq.
  cbn [d_tasks d_next_id default from_option Datatypes.id data_file].
  destruct (mapM_from_dict_run ((λ r, dict_of (task_at w r)) <$> list_at w (tasks self)))
    with (w := with_new_list (saved w self) [])
    as (rs & w' & -> & Hall & _).
  { apply Forall_fmap, Forall_forall. intros r _. cbn. eauto. }
  exists rs, w'. split; [done|].
  apply Forall2_fmap_r in Hall.
  revert Hall. generalize (list_at w (tasks self)). clear.
  induction 1 as [|r r0 rs l (title & fallback & Ht & Hr) _ IH]; [done|].
  cbn [fmap list_fmap]. f_equal; [|exact IH].
  unfold task_at at 1. rewrite lookup_total_alt, Hr. cbn [default].
  cbn [dict_of d_title] in Ht. injection Ht as <-. apply decoded_dict_of.
Qed.

(** C8, amended.  When at most one task of the store carries the id,
    [remove_task(id)] returning true leaves a store in which [get_task(id)]
    returns [None], and a new store constructed on the same file, which the
    removal rewrote, holds no task of that id either. *)
Theorem removed_task_is_gone (w w1 : World) (self : TodoList) (task_id : Z) :
  (length (with_id w task_id (list_at w (tasks self))) ≤ 1)%nat →
  TodoList.remove_task self task_id w = (Return true, w1) →
  TodoList.get_task self task_id w1 = (Return None, w1)
  ∧ ∃ reloaded w2,
      TodoList.__init__ (data_file self) w1 = (Return reloaded, w2)
      ∧ length (list_at w2 (tasks reloaded)) = length (list_at w1 (tasks self))
      ∧ with_id w2 task_id (list_at w2 (tasks reloaded)) = []
      ∧ TodoList.get_task reloaded task_id w2 = (Return None, w2).
Proof.
  intros Hone Hremove. rewrite remove_task_run in Hremove.
  destruct (index_with_id w task_id 0 (list_at w (tasks self))) as [k|] eqn:Hk;
    [|discriminate].
  injection Hremove as <-.
  destruct (delete_index_with_id _ _ _ _ _ Hk Hone) as [_ Hgone].
  rewrite Nat.sub_0_r in Hgone.
  assert (Hlist : list_at (with_list w (tasks self) (delete k)) (tasks self)
                  = delete k (list_at w (tasks self))).
  { unfold list_at, with_list. cbn [list_heap].
    rewrite !lookup_total_alt, lookup_alter_eq.
    destruct (list_heap w !! tasks self) as [l|] eqn:Hl; [done|].
    exfalso. apply (index_with_id_nonempty _ _ _ _ _ Hk).
    unfold list_at. by rewrite lookup_total_alt, Hl. }
  set (wm := with_list w (tasks self) (delete k)) in *.
  split.
  - rewrite get_task_run, list_at_saved, Hlist. by rewrite first_with_id_None.
  - destruct (init_after_save wm self) as (rs & w' & Hinit & Hrs).
    eexists _, _. split; [exact Hinit|]. cbn [tasks].
    rewrite list_at_new_list, list_at_saved, Hlist in *.
    assert (Hfresh : Forall (λ r, id (task_at (with_new_list w' rs) r) ≠ Some task_id) rs).
    { change (Forall (λ r, id (task_at w' r) ≠ Some task_id) rs).
      apply (Forall_fmap (task_at w') (λ t, id t ≠ Some task_id)). rewrite Hrs.
      apply Forall_fmap. exact Hgone. }
    split; [|split].
    + apply (f_equal length) in Hrs. by rewrite !length_fmap in Hrs.
    + by apply with_id_nil_2.
    + rewrite get_task_run. cbn [tasks]. rewrite list_at_new_list.
      by rewrite first_with_id_None.
Qed.

Lemma removed_task_is_gone_witness :
  (length (with_id one_task_world 1%Z (list_at one_task_world (tasks one_task_store))) ≤ 1)%nat
  ∧ TodoList.remove_task one_task_store 1%Z one_task_world
    = (Return true, after_removal_world)
  ∧ TodoList.get_task one_task_store 1%Z after_removal_world
    = (Return None, after_removal_world)
  ∧ ∃ reloaded w2,
      TodoList.__init__ (data_file one_task_store) after_removal_world
        = (Return reloaded, w2)
      ∧ length (list_at w2 (tasks reloaded))
        = length (list_at after_removal_world (tasks one_task_store))
      ∧ with_id w2 1%Z (list_at w2 (tasks reloaded)) = []
      ∧ TodoList.get_task reloaded 1%Z w2 = (Return None, w2).
Proof.
  assert (H1 : (length (with_id one_task_world 1%Z
                          (list_at one_task_world (tasks one_task_store))) ≤ 1)%nat).
  { vm_compute. constructor. }
  assert (H2 : TodoList.remove_task one_task_store 1%Z one_task_world
               = (Return true, after_removal_world)).
  { vm_compute. reflexivity. }
  split; [exact H1|]. split; [exact H2|].
  exact (removed_task_is_gone one_task_world after_removal_world one_task_store 1%Z H1 H2).
Defined.

(** C8, the claim as stated fails on a store in which two tasks carry the
    id.  Such a store arises from the code alone: the file holds one task
    of id 1 and no [next_id], so the new store issues 1 again.  Then
    [remove_task(1)] returns true, [get_task(1)] still returns a task, and
    a store constructed anew on the file holds a task of id 1. *)
Lemma remove_task_leaves_task_of_same_id :
  ∃ todo w w1 found reloaded w2,
    reused_id_program old_document_world = (Return todo, w)
    ∧ (λ r, id (task_at w r)) <$> list_at w (tasks todo) = [Some 1%Z; Some 1%Z]
    ∧ TodoList.remove_task todo 1%Z w = (Return true, w1)
    ∧ TodoList.get_task todo 1%Z w1 = (Return (Some found), w1)
    ∧ id (task_at w1 found) = Some 1%Z
    ∧ TodoList.__init__ "tasks.json" w1 = (Return reloaded, w2)
    ∧ (λ r, id (task_at w2 r)) <$> list_at w2 (tasks reloaded) = [Some 1%Z].
Proof.
  eexists _, _, _, _, _, _.
  split; [vm_compute; reflexivity|].
  split; [vm_compute; reflexivity|].
  split; [vm_compute; reflexivity|].
  split; [vm_compute; reflexivity|].
  split; [vm_compute; reflexivity|].
  split; vm_compute; reflexivity.
Qed.

(** ** [list_tasks] and the list of the store *)

(** With [show_completed] true and no category, [list_tasks] sorts the
    list object of the store in place and returns that very object. *)
Lemma list_tasks_unfiltered_in_place (w : World) (self : TodoList)
    (wanted : option string) :
  category_given wanted = false →
  ∃ w',
    TodoList.list_tasks self true wanted w = (Return (tasks self), w')
    ∧ list_at w' (tasks self)
      = sort_by TodoList.key_lt (λ x, key_of (task_at w x)) (list_at w (tasks self)).
Proof.
  intros Hgiven.
  destruct (list_tasks_run w self true wanted) as (out & lh & Hrun & Hout & Hpath).
  rewrite Hgiven in Hpath. cbn [andb negb] in Hpath. destruct Hpath as [-> ->].
  eexists. split; [exact Hrun|].
  unfold list_at at 1. cbn [list_heap].
  apply (lookup_total_alter_const _ _ (sort_by _ _)). done.
Qed.

(** With a filter, it returns a new list object and leaves every list
    object of the world, that of the store among them, as it was. *)
Lemma list_tasks_filtered_fresh (w : World) (self : TodoList) (show_completed : bool)
    (wanted : option string) :
  show_completed = false ∨ category_given wanted = true →
  ∃ out w',
    TodoList.list_tasks self show_completed wanted w = (Return out, w')
    ∧ (out ∉ dom (list_heap w))
    ∧ ∀ r, r ∈ dom (list_heap w) → list_heap w' !! r = list_heap w !! r.
Proof.
  intros Hfiltered.
  destruct (list_tasks_run w self show_completed wanted) as (out & lh & Hrun & _ & Hpath).
  assert (Hcase : (show_completed && negb (category_given wanted))%bool = false).
  { destruct Hfiltered as [->| ->]; [done|]. by rewrite andb_false_r. }
  rewrite Hcase in Hpath. destruct Hpath as [Hout Hkeep].
  eexists _, _. split; [exact Hrun|]. split; [exact Hout|exact Hkeep].
Qed.

(** C6, the failing input.  A store holds a Low task and then a High
    task; [list_tasks()] with the default arguments returns the list object
    of the store itself, now in the order High, Low; the task added next
    shows in the list that was returned. *)
Theorem list_tasks_default_sorts_the_store_list :
  ∃ todo w out w1 todo2 task w2,
    two_task_program blank_world = (Return todo, w)
    ∧ list_at w (tasks todo) = [1%positive; 2%positive]
    ∧ priority (task_at w 1%positive) = "Low"
    ∧ priority (task_at w 2%positive) = "High"
    ∧ TodoList.list_tasks todo true None w = (Return out, w1)
    ∧ out = tasks todo
    ∧ list_at w1 (tasks todo) = [2%positive; 1%positive]
    ∧ TodoList.add_task todo "Buy milk" "" "General" "Medium" None w1
      = (Return (todo2, task), w2)
    ∧ list_at w1 out = [2%positive; 1%positive]
    ∧ list_at w2 out = [2%positive; 1%positive; 3%positive].
Proof.
  eexists _, _, _, _, _, _, _.
  split; [vm_compute; reflexivity|].
  split; [vm_compute; reflexivity|].
  split; [vm_compute; reflexivity|].
  split; [vm_compute; reflexivity|].
  split; [vm_compute; reflexivity|].
  split; [vm_compute; reflexivity|].
  split; [vm_compute; reflexivity|].
  split; [vm_compute; reflexivity|].
  split; vm_compute; reflexivity.
Qed.

(** ** The test of the repository and the scenarios of the specification *)

(** Every assertion of [test_todolist_operations] holds of the embedding. *)
Example test_todolist_operations_passes :
  (test_todolist_operations empty_file_world).1
  = Return {| number_after_adds := 2;
              ids_of_added := [Some 1%Z; Some 2%Z];
              marked := true;
              first_is_completed := true;
              number_listed := 2;
              ids_pending := [Some 2%Z];
              categories_of_work := ["Work"];
              removed_second := true;
              number_after_removal := 1;
              removed_missing := false;
              stats_after_removal := (1%Z, 1%Z, 0%Z);
              titles_reloaded := ["Task 1"];
              completed_reloaded := [true] |}.
Proof. vm_compute. reflexivity. Qed.

Example three_priorities_listed :
  (three_priorities_program blank_world).1 = Return ["High"; "Medium"; "Low"].
Proof. vm_compute. reflexivity. Qed.

Example add_remove_add_issues_2 :
  (add_remove_add_program blank_world).1 = Return (Some 2%Z).
Proof. vm_compute. reflexivity. Qed.

(** * Further properties *)

(** ** Statistics *)

Lemma count_task_lookup (m : gmap string TodoList.CategoryStats) (t : Task) (c : string) :
  TodoList.count_task m t !! c
  = if decide (c = category t)
    then let old := default (TodoList.mkCategoryStats 0 0) (m !! c) in
         Some (TodoList.mkCategoryStats
                 (TodoList.c_total old + 1)
                 (TodoList.c_completed old + (if completed t then 1 else 0)))
    else m !! c.
Proof.
  unfold TodoList.count_task.
  destruct (decide (c = category t)) as [->|Hne].
  - destruct (m !! category t) as [old|] eqn:Hold.
    + rewrite bool_decide_eq_false_2 by congruence.
      destruct (completed t); rewrite ?lookup_alter_eq, Hold; cbn;
        do 2 f_equal; lia.
    + rewrite bool_decide_eq_true_2 by done.
      destruct (completed t); rewrite ?lookup_alter_eq, lookup_insert_eq; cbn;
        do 2 f_equal; lia.
  - case_bool_decide; destruct (completed t);
      rewrite ?lookup_alter_ne, ?lookup_insert_ne by done; done.
Qed.

Lemma category_entry_snoc (c : string) (ts : list Task) (t : Task) :
  category_entry c (ts ++ [t])
  = if decide (c = category t)
    then let old := default (TodoList.mkCategoryStats 0 0) (category_entry c ts) in
         Some (TodoList.mkCategoryStats
                 (TodoList.c_total old + 1)
                 (TodoList.c_completed old + (if completed t then 1 else 0)))
    else category_entry c ts.
Proof.
  unfold category_entry, done_in_category, in_category.
  rewrite filter_app, (filter_cons _ t), filter_nil.
  destruct (decide (c = category t)) as [->|Hne].
  - rewrite decide_True by done.
    rewrite filter_app, (filter_cons _ t), filter_nil.
    destruct (filter (λ t0, category t0 = category t) ts) as [|t1 l1] eqn:Hl.
    + cbn [app default length filter]. rewrite filter_nil. cbn [app length].
      destruct (completed t); cbn; done.
    + cbn [app default from_option Datatypes.id TodoList.c_total TodoList.c_completed].
      destruct (completed t).
      * rewrite decide_True by done. rewrite ?length_app. cbn [length]. rewrite ?length_app. cbn [length].
        do 2 f_equal; lia.
      * rewrite decide_False by done. rewrite ?length_app. cbn [length]. rewrite ?length_app. cbn [length].
        do 2 f_equal; lia.
  - rewrite decide_False by congruence. by rewrite app_nil_r.
Qed.

Lemma foldl_count_task (ts pre : list Task) (m : gmap string TodoList.CategoryStats) :
  (∀ c, m !! c = category_entry c pre) →
  ∀ c, foldl TodoList.count_task m ts !! c = category_entry c (pre ++ ts).
Proof.
  revert pre m. induction ts as [|t ts IH]; intros pre m Hm c.
  - by rewrite app_nil_r.
  - cbn [foldl]. rewrite (IH (pre ++ [t])%list); [by rewrite <- app_assoc|].
    intros c'. rewrite count_task_lookup, category_entry_snoc, Hm. done.
Qed.

(** X1.  [get_stats] changes nothing and counts the tasks of the store:
    [total] is their number, [completed] the number of completed ones,
    [pending] the difference, which is never negative; and the entry of a
    category exists exactly when some task is in it (compared with case),
    and then holds the number of tasks in it and the number of completed
    ones among them. *)
Theorem get_stats_counts (w : World) (self : TodoList) :
  ∃ stats,
    TodoList.get_stats self w = (Return stats, w)
    ∧ TodoList.s_total stats = Z.of_nat (length (list_at w (tasks self)))
    ∧ TodoList.s_completed stats
      = Z.of_nat (length (filter (λ r, completed (task_at w r) = true)
                                 (list_at w (tasks self))))
    ∧ TodoList.s_total stats = (TodoList.s_completed stats + TodoList.s_pending stats)%Z
    ∧ (0 ≤ TodoList.s_completed stats)%Z
    ∧ (0 ≤ TodoList.s_pending stats)%Z
    ∧ (∀ c, TodoList.s_categories stats !! c
            = category_entry c (task_at w <$> list_at w (tasks self)))
    ∧ (∀ c e, TodoList.s_categories stats !! c = Some e →
              (1 ≤ TodoList.c_total e)%Z
              ∧ (0 ≤ TodoList.c_completed e ≤ TodoList.c_total e)%Z
              ∧ ∃ r, r ∈ list_at w (tasks self) ∧ category (task_at w r) = c).
Proof.
  unfold TodoList.get_stats. step_in read_list.
  rewrite bind_run, (mapM_reader _ (task_at w)) by done. cbn beta iota.
  fold (list_at w (tasks self)).
  set (l := list_at w (tasks self)).
  assert (Hdone : length (filter (λ t, completed t = true) (task_at w <$> l))
                  = length (filter (λ r, completed (task_at w r) = true) l)).
  { induction l as [|r l IH]; [done|].
    rewrite fmap_cons, !filter_cons.
    destruct (decide (completed (task_at w r) = true)); cbn [length]; by rewrite IH. }
  assert (Hcats : ∀ c, foldl TodoList.count_task ∅ (task_at w <$> l) !! c
                       = category_entry c (task_at w <$> l)).
  { intros c. apply (foldl_count_task _ []). intros c'. by rewrite lookup_empty. }
  pose proof (length_filter (λ t, completed t = true) (task_at w <$> l)) as Hle.
  eexists. split; [reflexivity|].
  cbn [TodoList.s_total TodoList.s_completed TodoList.s_pending TodoList.s_categories].
  rewrite length_fmap in *. rewrite Hdone in *.
  split; [done|]. split; [done|].
  assert (Hnum : ∀ a b : nat, (b ≤ a)%nat →
            Z.of_nat a = (Z.of_nat b + (Z.of_nat a - Z.of_nat b))%Z
            ∧ (0 ≤ Z.of_nat b)%Z ∧ (0 ≤ Z.of_nat a - Z.of_nat b)%Z) by (intros; lia).
  destruct (Hnum _ _ Hle) as (H1 & H2 & H3).
  split; [exact H1|]. split; [exact H2|]. split; [exact H3|].
  split; [exact Hcats|].
  intros c e. rewrite Hcats. unfold category_entry, done_in_category.
  pose proof (length_filter (λ t, completed t = true) (in_category c (task_at w <$> l)))
    as Hle'.
  destruct (in_category c (task_at w <$> l)) as [|t rest] eqn:Hin; [done|].
  intros [= <-]. cbn [TodoList.c_total TodoList.c_completed].
  split; [cbn [length]; lia|].
  change (length (t :: rest)) with (S (length rest)) in Hle'.
  split; [lia|].
  assert (Ht : t ∈ in_category c (task_at w <$> l)) by (rewrite Hin; left).
  apply list_elem_of_filter in Ht as [Hc Ht].
  apply list_elem_of_fmap in Ht as (r & -> & Hr). eauto.
Qed.

(** ** Categories *)

Lemma StronglySorted_strict (l : list string) :
  NoDup l →
  StronglySorted (not_after String.ltb (λ c, c)) l →
  StronglySorted (λ a b, String.ltb a b = true) l.
Proof.
  intros Hnd Hs. induction Hs as [|a l Hs IH Hall]; [constructor|].
  apply NoDup_cons in Hnd as [Ha Hnd]. constructor; [by apply IH|].
  rewrite Forall_forall in Hall |- *. intros b Hb.
  specialize (Hall b Hb). unfold not_after in Hall.
  destruct (String.ltb a b) eqn:Hab; [done|].
  rewrite (ltb_connected a b Hab Hall) in Ha. done.
Qed.

(** X2.  [get_categories] changes nothing and returns the categories of
    the tasks of the store, each once, in strictly ascending order of the
    text: a text is in the result exactly when some task of the store has
    it as its category (case matters). *)
Theorem get_categories_sorted_distinct (w : World) (self : TodoList) :
  ∃ names,
    TodoList.get_categories self w = (Return names, w)
    ∧ StronglySorted (λ a b, String.ltb a b = true) names
    ∧ NoDup names
    ∧ ∀ c, c ∈ names ↔ ∃ r, r ∈ list_at w (tasks self) ∧ category (task_at w r) = c.
Proof.
  unfold TodoList.get_categories. step_in read_list.
  rewrite bind_run, (mapM_reader _ (λ r, category (task_at w r))) by done.
  cbn beta iota. fold (list_at w (tasks self)).
  set (cats := list_to_set ((λ r, category (task_at w r)) <$> list_at w (tasks self))
               : gset string).
  change ((λ c : string, (c, c)) <$> elements cats)
    with (decorate (λ c : string, c) (elements cats)).
  rewrite ret_run, stable_sort_decorate, undecorate.
  eexists. split; [reflexivity|].
  assert (Hperm : sort_by String.ltb (λ c, c) (elements cats) ≡ₚ elements cats)
    by apply sort_by_perm.
  assert (Hnd : NoDup (sort_by String.ltb (λ c, c) (elements cats))).
  { rewrite Hperm. apply NoDup_elements. }
  split; [|split; [exact Hnd|]].
  - apply StronglySorted_strict; [exact Hnd|].
    apply sort_by_sorted; [apply ltb_irrefl|apply ltb_trans|apply ltb_connected].
  - intros c. rewrite Hperm, elem_of_elements. unfold cats.
    rewrite elem_of_list_to_set, list_elem_of_fmap. split.
    + intros (r & -> & Hr). eauto.
    + intros (r & Hr & <-). eauto.
Qed.

(** ** Stores in good order *)

Lemma task_at_lookup (w : World) (r : loc) (t : Task) :
  task_heap w !! r = Some t → task_at w r = t.
Proof. intros H. unfold task_at. by rewrite lookup_total_alt, H. Qed.

Lemma list_at_lookup (w : World) (r : loc) (l : list loc) :
  list_heap w !! r = Some l → list_at w r = l.
Proof. intros H. unfold list_at. by rewrite lookup_total_alt, H. Qed.

Lemma index_with_id_None (w : World) (task_id : Z) (l : list loc) (i : nat) :
  index_with_id w task_id i l = None ↔ Forall (λ r, id (task_at w r) ≠ Some task_id) l.
Proof.
  revert i. induction l as [|r0 l IH]; intros i; [by split; [constructor|]|].
  cbn [index_with_id]. case_bool_decide as Hid.
  - split; [done|]. intros H. apply Forall_cons in H as [H _]. done.
  - rewrite IH. split; [by constructor|]. intros H. by apply Forall_cons in H as [_ H].
Qed.

Lemma NoDup_fmap_at_most_one {A B} `{EqDecision B} (f : A → B) (v : B) (l : list A) :
  NoDup (f <$> l) → (length (filter (λ x, f x = v) l) ≤ 1)%nat.
Proof.
  induction l as [|x l IH]; [cbn; lia|].
  rewrite fmap_cons, NoDup_cons. intros [Hx Hnd]. rewrite filter_cons.
  destruct (decide (f x = v)) as [<-|Hne]; [|by apply IH].
  cbn [length].
  assert (Hnone : filter (λ y, f y = f x) l = []).
  { destruct (filter (λ y, f y = f x) l) as [|y rest] eqn:Hf; [done|].
    exfalso. apply Hx.
    assert (Hy : y ∈ filter (λ y, f y = f x) l) by (rewrite Hf; left).
    apply list_elem_of_filter in Hy as [<- Hy]. by apply list_elem_of_fmap_2. }
  rewrite Hnone. cbn. lia.
Qed.

Lemma store_ok_at_most_one (w : World) (self : TodoList) (task_id : Z) :
  store_ok w self →
  (length (with_id w task_id (list_at w (tasks self))) ≤ 1)%nat.
Proof.
  intros (l & Hl & _ & Hnd). rewrite (list_at_lookup _ _ _ Hl).
  apply (NoDup_fmap_at_most_one (λ r, id (task_at w r)) (Some task_id)). exact Hnd.
Qed.

(** The ids read in two worlds that agree on the task objects of [l]. *)
Lemma ids_agree (w w' : World) (l : list loc) :
  Forall (λ r, id (task_at w' r) = id (task_at w r)) l →
  (λ r, id (task_at w' r)) <$> l = (λ r, id (task_at w r)) <$> l.
Proof.
  induction 1 as [|r l Hr _ IH]; [done|]. rewrite !fmap_cons. by rewrite Hr, IH.
Qed.

Lemma store_ok_add (w : World) (self : TodoList)
    (title description category priority : string) (due_date : option string) :
  store_ok w self →
  store_ok (added w self title description category priority due_date) (added_store self).
Proof.
  intros (l & Hl & Hall & Hnd).
  set (r := fresh (dom (task_heap w))).
  assert (Hfresh : ∀ r0, r0 ∈ l → r0 ≠ r).
  { intros r0 Hr0 ->. rewrite Forall_forall in Hall.
    destruct (Hall _ Hr0) as (t & n & Ht & _).
    apply (is_fresh (dom (task_heap w))). apply elem_of_dom. eauto. }
  exists (l ++ [r])%list. unfold added, saved, added_store.
  cbn [list_heap task_heap tasks next_id]. fold r.
  split; [by rewrite lookup_alter_eq, Hl|]. split.
  - apply Forall_app. split.
    + rewrite Forall_forall in Hall |- *. intros r0 Hr0.
      destruct (Hall _ Hr0) as (t & n & Ht & Hn & Hlt).
      exists t, n. rewrite lookup_insert_ne by (intros Heq; by apply (Hfresh r0)).
      split; [done|]. split; [done|lia].
    + constructor; [|constructor]. eexists _, _. rewrite lookup_insert_eq.
      split; [done|]. split; [done|]. lia.
  - rewrite fmap_app. apply NoDup_app. split; [|split].
    + erewrite ids_agree; [exact Hnd|].
      rewrite Forall_forall. intros r0 Hr0. unfold task_at. cbn [task_heap].
      by rewrite lookup_total_insert_ne by (intros Heq; by apply (Hfresh r0)).
    + intros i Hi Hnew. apply list_elem_of_fmap in Hi as (r0 & -> & Hr0).
      cbn [fmap list_fmap] in Hnew. apply list_elem_of_singleton in Hnew.
      unfold task_at in Hnew. cbn [task_heap] in Hnew.
      rewrite lookup_total_insert_eq in Hnew.
      rewrite lookup_total_insert_ne in Hnew by (intros Heq; by apply (Hfresh r0)).
      rewrite Forall_forall in Hall. destruct (Hall _ Hr0) as (t & n & Ht & Hn & Hlt).
      fold (task_at w r0) in Hnew. rewrite (task_at_lookup _ _ _ Ht), Hn in Hnew.
      cbn [id added_task] in Hnew. injection Hnew as ->. lia.
    + cbn [fmap list_fmap]. apply NoDup_singleton.
Qed.

Lemma store_ok_saved (w : World) (self : TodoList) :
  store_ok w self → store_ok (saved w self) self.
Proof. done. Qed.

Lemma store_ok_delete (w : World) (self : TodoList) (k : nat) :
  store_ok w self → store_ok (with_list w (tasks self) (delete k)) self.
Proof.
  intros (l & Hl & Hall & Hnd). exists (delete k l).
  unfold with_list. cbn [list_heap task_heap].
  split; [by rewrite lookup_alter_eq, Hl|].
  pose proof (sublist_delete l k) as Hsub. split.
  - apply Forall_forall. intros r Hr.
    rewrite Forall_forall in Hall. eapply Hall, elem_of_sublist; done.
  - eapply sublist_NoDup; [exact Hnd|]. by apply fmap_sublist.
Qed.

Lemma store_ok_alter (w : World) (self : TodoList) (r : loc) (f : Task → Task)
    (clk : nat → string) (n : nat) :
  (∀ t, id (f t) = id t) →
  store_ok w self →
  store_ok (mkWorld clk n (alter f r (task_heap w)) (list_heap w) (disk w)) self.
Proof.
  intros Hf (l & Hl & Hall & Hnd). exists l. cbn [list_heap task_heap].
  split; [done|].
  assert (Hid : ∀ r0, id (task_at (mkWorld clk n (alter f r (task_heap w))
                                          (list_heap w) (disk w)) r0)
                      = id (task_at w r0)).
  { intros r0. unfold task_at. cbn [task_heap]. rewrite !lookup_total_alt.
    destruct (decide (r = r0)) as [->|Hne].
    - rewrite lookup_alter_eq. destruct (task_heap w !! r0); [apply Hf|done].
    - by rewrite lookup_alter_ne. }
  split.
  - eapply Forall_impl; [exact Hall|]. intros r0 (t & m & Ht & Hm & Hlt).
    destruct (decide (r = r0)) as [->|Hne].
    + exists (f t), m. rewrite lookup_alter_eq, Ht. by rewrite Hf.
    + exists t, m. by rewrite lookup_alter_ne.
  - erewrite ids_agree; [exact Hnd|]. apply Forall_forall. intros r0 _. apply Hid.
Qed.

Lemma store_ok_perm (w : World) (self : TodoList) (l' : list loc)
    (lh : gmap loc (list loc)) :
  store_ok w self →
  lh !! tasks self = Some l' →
  l' ≡ₚ list_at w (tasks self) →
  store_ok (mkWorld (clock w) (ticks w) (task_heap w) lh (disk w)) self.
Proof.
  intros (l & Hl & Hall & Hnd) Hl' Hperm. rewrite (list_at_lookup _ _ _ Hl) in Hperm.
  exists l'. cbn [list_heap task_heap]. split; [done|]. split.
  - by rewrite Hperm.
  - change (NoDup ((λ r, id (task_at w r)) <$> l')). by rewrite Hperm.
Qed.

Lemma store_ok_list_tasks (w : World) (self : TodoList) (show_completed : bool)
    (wanted : option string) :
  store_ok w self →
  ∃ out w',
    TodoList.list_tasks self show_completed wanted w = (Return out, w')
    ∧ store_ok w' self.
Proof.
  intros Hok.
  destruct (list_tasks_run w self show_completed wanted) as (out & lh & Hrun & _ & Hpath).
  eexists _, _. split; [exact Hrun|].
  destruct Hok as (l & Hl & Hall & Hnd).
  destruct (show_completed && negb (category_given wanted))%bool.
  - destruct Hpath as [-> ->].
    apply store_ok_perm with (l' := sort_by TodoList.key_lt (λ x, key_of (task_at w x)) l).
    + by exists l.
    + by rewrite lookup_alter_eq, Hl, (list_at_lookup _ _ _ Hl).
    + rewrite (list_at_lookup _ _ _ Hl). apply sort_by_perm.
  - destruct Hpath as [_ Hkeep].
    apply store_ok_perm with (l' := l).
    + by exists l.
    + rewrite Hkeep; [done|]. apply elem_of_dom. eauto.
    + by rewrite (list_at_lookup _ _ _ Hl).
Qed.

Lemma set_completed_id (b : bool) (s : option string) (t : Task) :
  id (set_completed_at s (set_completed b t)) = id t.
Proof. done. Qed.

(** Each call keeps a store in good order. *)
Lemma perform_store_ok (w : World) (self : TodoList) (c : call) :
  store_ok w self →
  ∃ w', perform self c w = (Return (issues self c), w')
        ∧ store_ok w' (issues self c).1.
Proof.
  intros Hok. destruct c as [title description category priority due_date
    | task_id | task_id | task_id | task_id | show_completed wanted | | ];
    cbn [perform issues fst]; rewrite bind_run.
  - rewrite add_task_run. cbn beta iota. cbn [fst snd].
    rewrite bind_run. unfold read_task at 1. cbn beta iota.
    unfold added at 1, saved at 1. cbn [task_heap].
    rewrite lookup_total_insert_eq. rewrite ret_run. cbn [id added_task].
    eexists. split; [reflexivity|]. by apply store_ok_add.
  - rewrite remove_task_run.
    destruct (index_with_id w task_id 0 (list_at w (tasks self))); [|eauto].
    cbn beta iota. rewrite ret_run. eexists. split; [done|].
    by apply store_ok_saved, store_ok_delete.
  - rewrite get_task_run. eauto.
  - rewrite store_mark_complete_run.
    destruct (first_with_id w task_id (list_at w (tasks self))) as [r|]; [|eauto].
    cbn beta iota. rewrite ret_run. eexists. split; [done|].
    apply store_ok_saved. unfold marked_complete.
    apply store_ok_alter; [|done]. intros t. apply set_completed_id.
  - rewrite store_mark_incomplete_run.
    destruct (first_with_id w task_id (list_at w (tasks self))) as [r|]; [|eauto].
    cbn beta iota. rewrite ret_run. eexists. split; [done|].
    apply store_ok_saved. unfold marked_incomplete.
    apply store_ok_alter; [|done]. intros t. apply set_completed_id.
  - destruct (store_ok_list_tasks w self show_completed wanted Hok)
      as (out & w' & -> & Hok').
    cbn beta iota. rewrite ret_run. eauto.
  - destruct (get_categories_run w self) as (names & ->). eauto.
  - destruct (get_stats_run w self) as (stats & -> & _). eauto.
Qed.

Lemma run_store_ok (calls : list call) (w : World) (self : TodoList) :
  store_ok w self →
  ∃ w', run self calls w = (Return (run_issues self calls), w')
        ∧ store_ok w' (run_issues self calls).1.
Proof.
  revert w self. induction calls as [|c calls IH]; intros w self Hok; [by exists w|].
  cbn [run run_issues fst]. rewrite bind_run.
  destruct (perform_store_ok w self c Hok) as (w1 & -> & Hok1).
  destruct (IH w1 (issues self c).1 Hok1) as (w2 & Hrun & Hok2).
  rewrite bind_run, Hrun. eauto.
Qed.

(** X3.  Every sequence of calls returns and keeps a store in good order:
    the tasks of the store are objects with an id below [next_id] and no
    two of them have the same id, so at most one task carries any given
    id. *)
Theorem ids_stay_distinct (w : World) (self : TodoList) (calls : list call) :
  store_ok w self →
  ∃ self' ids w',
    run self calls w = (Return (self', ids), w')
    ∧ store_ok w' self'
    ∧ ∀ task_id, (length (with_id w' task_id (list_at w' (tasks self'))) ≤ 1)%nat.
Proof.
  intros Hok.
  destruct (run_store_ok calls w self Hok) as (w' & Hrun & Hok').
  destruct (run_issues self calls) as [self' ids]. cbn [fst] in Hok'.
  exists self', ids, w'. split; [done|]. split; [done|].
  intros task_id. by apply store_ok_at_most_one.
Qed.

Lemma ids_stay_distinct_witness :
  ∃ todo w0,
    TodoList.__init__ "tasks.json" blank_world = (Return todo, w0)
    ∧ store_ok w0 todo
    ∧ ∃ self' ids w',
        run todo [AddTask "a" "" "General" "Low" None; ListTasks true None;
                  RemoveTask 1%Z; AddTask "b" "" "General" "High" None] w0
        = (Return (self', ids), w')
        ∧ store_ok w' self'
        ∧ ∀ task_id,
            (length (with_id w' task_id (list_at w' (tasks self'))) ≤ 1)%nat.
Proof.
  eexists _, _. split; [reflexivity|].
  assert (Hok : store_ok (with_new_list blank_world [])
                  (mkTodoList "tasks.json" (fresh (dom (list_heap blank_world))) 1)).
  { exists []. split; [reflexivity|]. split; constructor. }
  split; [exact Hok|]. exact (ids_stay_distinct _ _ _ Hok).
Defined.

(** ** The file and the store *)

(** The objects that [from_dict] makes are new. *)
Lemma mapM_from_dict_new (ds : list TaskDict) (w w' : World) (rs : list loc) :
  mapM Task.from_dict ds w = (Return rs, w') →
  Forall (λ r, r ∉ dom (task_heap w)) rs
  ∧ dom (task_heap w) ⊆ dom (task_heap w').
Proof.
  revert w w' rs. induction ds as [|d ds IH]; intros w w' rs.
  - intros [= <- <-]. split; [constructor|done].
  - cbn [mapM]. rewrite bind_run.
    destruct (d_title d) as [title|] eqn:Ht.
    + rewrite (from_dict_run w d title Ht). cbn beta iota.
      set (r := fresh (dom (task_heap w))).
      set (w1 := mkWorld _ _ _ _ _).
      rewrite bind_run.
      destruct (mapM Task.from_dict ds w1) as [[rs1|e] w2] eqn:Hrest; [|done].
      cbn beta iota. rewrite ret_run. intros [= <- <-].
      destruct (IH _ _ _ Hrest) as [Hnew Hsub].
      assert (Hw1 : dom (task_heap w) ⊆ dom (task_heap w1)).
      { subst w1. cbn [task_heap]. rewrite dom_insert. apply union_subseteq_r. }
      split.
      * constructor; [apply is_fresh|].
        eapply Forall_impl; [exact Hnew|]. intros r0 Hr0 Hin. apply Hr0.
        by apply Hw1.
      * by etrans.
    + rewrite (from_dict_no_title w d Ht). done.
Qed.

(** The constructor on a JSON object whose records all have a title. *)
Lemma init_object_run (w : World) (path : string) (d : StoreDict) :
  disk w !! path = Some (Json (JObject d)) →
  Forall (λ rec, is_Some (d_title rec)) (default [] (d_tasks d)) →
  ∃ rs w',
    TodoList.__init__ path w
    = (Return (mkTodoList path (fresh (dom (list_heap w'))) (default 1%Z (d_next_id d))),
       with_new_list w' rs)
    ∧ Forall2 (λ r rec, ∃ title fallback,
                 d_title rec = Some title
                 ∧ task_heap w' !! r = Some (decoded rec title fallback))
              rs (default [] (d_tasks d))
    ∧ list_heap w' = list_heap (with_new_list w [])
    ∧ disk w' = disk w
    ∧ (∀ r t, task_heap w !! r = Some t → task_heap w' !! r = Some t)
    ∧ Forall (λ r, r ∉ dom (task_heap w)) rs.
Proof.
  intros Hfile Htitles. rewrite init_run.
  rewrite (load_tasks_object _ _ d) by exact Hfile.
  destruct (mapM_from_dict_run _ Htitles (with_new_list w []))
    as (rs & w' & Hrun & Hall & Hlists & Hdisk & Hkeep).
  rewrite Hrun. cbn [data_file].
  exists rs, w'. split; [done|]. split; [done|]. split; [done|].
  split; [done|]. split; [exact Hkeep|].
  by destruct (mapM_from_dict_new _ _ _ _ Hrun) as [Hnew _].
Qed.

(** The constructor on a file that holds the records of the tasks [ts]. *)
Lemma init_records_of (w : World) (path : string) (ts : list Task) (n : Z) :
  disk w !! path
  = Some (Json (JObject {| d_tasks := Some (dict_of <$> ts); d_next_id := Some n |})) →
  ∃ self' w',
    TodoList.__init__ path w = (Return self', w')
    ∧ data_file self' = path
    ∧ next_id self' = n
    ∧ (tasks self' ∉ dom (list_heap w))
    ∧ list_heap w' !! tasks self' = Some (list_at w' (tasks self'))
    ∧ task_at w' <$> list_at w' (tasks self') = ts
    ∧ Forall (λ r, is_Some (task_heap w' !! r) ∧ r ∉ dom (task_heap w))
             (list_at w' (tasks self'))
    ∧ (∀ r t, task_heap w !! r = Some t → task_heap w' !! r = Some t)
    ∧ (∀ r l, list_heap w !! r = Some l → list_heap w' !! r = Some l)
    ∧ disk w' = disk w.
Proof.
  intros Hfile.
  destruct (init_object_run w path _ Hfile)
    as (rs & w' & Hrun & Hall & Hlists & Hdisk & Hkeep & Hnew).
  { cbn [d_tasks default from_option Datatypes.id].
    apply Forall_fmap, Forall_forall. intros t _. cbn. eauto. }
  cbn [d_tasks d_next_id default from_option Datatypes.id] in Hrun, Hall.
  eexists _, _. split; [exact Hrun|]. cbn [data_file next_id tasks].
  rewrite list_at_new_list.
  assert (Hdom : dom (list_heap w) ⊆ dom (list_heap w')).
  { rewrite Hlists. unfold with_new_list. cbn [list_heap]. rewrite dom_insert.
    apply union_subseteq_r. }
  split; [done|]. split; [done|]. split.
  { intros Hin. apply (is_fresh (dom (list_heap w'))). by apply Hdom. }
  split.
  { unfold with_new_list. cbn [list_heap]. apply lookup_insert_eq. }
  assert (Hother : ∀ r, r ≠ fresh (dom (list_heap w')) →
            task_heap (with_new_list w' rs) !! r = task_heap w' !! r) by done.
  split.
  { apply Forall2_fmap_r in Hall. clear -Hall.
    induction Hall as [|r t rs ts (title & fallback & Ht & Hr) _ IH]; [done|].
    rewrite fmap_cons. f_equal; [|exact IH].
    rewrite (task_at_lookup (with_new_list w' (r :: rs)) r _ Hr).
    cbn [dict_of d_title] in Ht. injection Ht as <-. apply decoded_dict_of. }
  split.
  { apply Forall_forall. intros r Hr. split.
    - apply Forall2_fmap_r in Hall.
      destruct (list_elem_of_lookup_1 _ _ Hr) as (i & Hi).
      destruct (Forall2_lookup_l _ _ _ _ _ Hall Hi) as (t & _ & title & fallback & _ & Hsome).
      cbn [with_new_list task_heap]. eauto.
    - rewrite Forall_forall in Hnew. by apply Hnew. }
  split; [exact Hkeep|]. split; [|exact Hdisk].
  intros r l Hr. unfold with_new_list. cbn [list_heap].
  rewrite lookup_insert_ne.
  - rewrite Hlists. unfold with_new_list. cbn [list_heap].
    rewrite lookup_insert_ne; [done|]. intros <-.
    apply (is_fresh (dom (list_heap w))). apply elem_of_dom. eauto.
  - intros <-. apply (is_fresh (dom (list_heap w'))). apply Hdom, elem_of_dom. eauto.
Qed.

(** A store whose tasks have the values of the tasks of a store in good
    order, in some order, is in good order. *)
Lemma store_ok_same_values (w w' : World) (self self' : TodoList) (l' : list loc) :
  store_ok w self →
  list_heap w' !! tasks self' = Some l' →
  Forall (λ r, is_Some (task_heap w' !! r)) l' →
  task_at w' <$> l' ≡ₚ task_at w <$> list_at w (tasks self) →
  next_id self' = next_id self →
  store_ok w' self'.
Proof.
  intros (l & Hl & Hall & Hnd) Hl' Hobj Hperm Hnext.
  rewrite (list_at_lookup _ _ _ Hl) in Hperm.
  exists l'. split; [done|]. split.
  - apply Forall_forall. intros r Hr.
    rewrite Forall_forall in Hobj. destruct (Hobj _ Hr) as [t Ht].
    assert (Hin : task_at w' r ∈ task_at w <$> l).
    { rewrite <- Hperm. by apply list_elem_of_fmap_2. }
    apply list_elem_of_fmap in Hin as (r0 & Heq & Hr0).
    rewrite Forall_forall in Hall. destruct (Hall _ Hr0) as (t0 & n & Ht0 & Hn & Hlt).
    exists t, n. split; [done|].
    rewrite <- (task_at_lookup _ _ _ Ht), Heq, (task_at_lookup _ _ _ Ht0), Hnext. done.
  - rewrite (list_fmap_compose (task_at w') id), Hperm, <- list_fmap_compose. exact Hnd.
Qed.

(** X4.  A store written by [save_tasks] and constructed again from its file
    is the same store made of new objects: the same [next_id], tasks equal
    field by field in the same order, in good order as the saved store
    was, and sharing neither the list nor a task object with it; the load
    writes nothing. *)
Theorem reload_after_save (w : World) (self : TodoList) :
  store_ok w self →
  ∃ self' w',
    TodoList.__init__ (data_file self) (saved w self) = (Return self', w')
    ∧ data_file self' = data_file self
    ∧ next_id self' = next_id self
    ∧ task_at w' <$> list_at w' (tasks self') = task_at w <$> list_at w (tasks self)
    ∧ store_ok w' self'
    ∧ tasks self' ≠ tasks self
    ∧ (∀ r, r ∈ list_at w' (tasks self') → r ∉ list_at w (tasks self))
    ∧ disk w' = disk (saved w self).
Proof.
  intros Hok.
  destruct (init_records_of (saved w self) (data_file self)
              (task_at w <$> list_at w (tasks self)) (next_id self))
    as (self' & w' & Hrun & Hfile & Hnext & Hlist & Hl' & Hvals & Hobj & Hkeep & _ & Hdisk).
  { unfold saved, saved_document. cbn [disk].
    rewrite lookup_insert_eq, <- list_fmap_compose. done. }
  exists self', w'. split; [done|]. split; [done|]. split; [done|].
  split; [done|]. split; [|split; [|split; [|done]]].
  - apply (store_ok_same_values w w' self self' (list_at w' (tasks self'))); try done.
    + eapply Forall_impl; [exact Hobj|]. by intros r [? _].
    + by rewrite Hvals.
  - intros Heq. apply Hlist. rewrite Heq.
    destruct Hok as (l & Hl & _). apply elem_of_dom. cbn [saved list_heap]. eauto.
  - intros r Hr Hold. rewrite Forall_forall in Hobj.
    destruct (Hobj _ Hr) as [_ Hnew]. apply Hnew.
    destruct Hok as (l & Hl & Hall & _). rewrite (list_at_lookup _ _ _ Hl) in Hold.
    rewrite Forall_forall in Hall. destruct (Hall _ Hold) as (t & n & Ht & _).
    apply elem_of_dom. cbn [saved task_heap]. eauto.
Qed.

Lemma reload_after_save_witness :
  ∃ todo w0,
    (todo ← TodoList.__init__ "tasks.json";
     '(todo, _) ← TodoList.add_task todo "a" "" "Home" "Low" None;
     '(todo, _) ← TodoList.add_task todo "b" "" "Work" "High" None;
     mret todo) blank_world = (Return todo, w0)
    ∧ store_ok w0 todo
    ∧ ∃ self' w',
        TodoList.__init__ (data_file todo) (saved w0 todo) = (Return self', w')
        ∧ data_file self' = data_file todo
        ∧ next_id self' = next_id todo
        ∧ task_at w' <$> list_at w' (tasks self') = task_at w0 <$> list_at w0 (tasks todo)
        ∧ store_ok w' self'
        ∧ tasks self' ≠ tasks todo
        ∧ (∀ r, r ∈ list_at w' (tasks self') → r ∉ list_at w0 (tasks todo))
        ∧ disk w' = disk (saved w0 todo).
Proof.
  eexists _, _. split; [vm_compute; reflexivity|].
  match goal with |- store_ok ?w ?s ∧ _ => assert (Hok : store_ok w s) end.
  { eexists. split; [vm_compute; reflexivity|]. split.
    - repeat constructor; eexists _, _; (split; [vm_compute; reflexivity|]);
        (split; [reflexivity|]); reflexivity.
    - vm_compute. repeat constructor; rewrite ?elem_of_cons, ?elem_of_nil;
        intros H; repeat destruct H as [H|H]; try discriminate H; done. }
  split; [exact Hok|]. exact (reload_after_save _ _ Hok).
Defined.

Lemma file_agrees_saved (w : World) (self : TodoList) :
  is_Some (list_heap w !! tasks self) → file_agrees (saved w self) self.
Proof.
  intros [l Hl]. exists l, (task_at w <$> l). split; [done|]. split; [|done].
  unfold saved, saved_document. cbn [disk].
  by rewrite lookup_insert_eq, (list_at_lookup _ _ _ Hl), <- list_fmap_compose.
Qed.

Lemma file_agrees_list_tasks (w : World) (self : TodoList) (show_completed : bool)
    (wanted : option string) :
  file_agrees w self →
  ∃ out w',
    TodoList.list_tasks self show_completed wanted w = (Return out, w')
    ∧ file_agrees w' self.
Proof.
  intros (l & ts & Hl & Hfile & Hperm).
  destruct (list_tasks_run w self show_completed wanted) as (out & lh & Hrun & _ & Hpath).
  eexists _, _. split; [exact Hrun|].
  destruct (show_completed && negb (category_given wanted))%bool.
  - destruct Hpath as [-> ->].
    exists (sort_by TodoList.key_lt (λ x, key_of (task_at w x)) l), ts.
    cbn [list_heap disk]. split; [|split; [done|]].
    + by rewrite lookup_alter_eq, Hl, (list_at_lookup _ _ _ Hl).
    + rewrite Hperm. apply fmap_Permutation. symmetry. apply sort_by_perm.
  - destruct Hpath as [_ Hkeep]. exists l, ts. cbn [list_heap disk].
    split; [|done]. rewrite Hkeep; [done|]. apply elem_of_dom. eauto.
Qed.

(** Each call leaves the file in agreement with the store. *)
Lemma perform_file_agrees (w : World) (self : TodoList) (c : call) :
  file_agrees w self →
  ∃ w', perform self c w = (Return (issues self c), w')
        ∧ file_agrees w' (issues self c).1.
Proof.
  intros Hok.
  assert (Hlist : is_Some (list_heap w !! tasks self)).
  { destruct Hok as (l & _ & Hl & _). eauto. }
  destruct c as [title description category priority due_date
    | task_id | task_id | task_id | task_id | show_completed wanted | | ];
    cbn [perform issues fst]; rewrite bind_run.
  - rewrite add_task_run. cbn beta iota. cbn [fst snd].
    rewrite bind_run. unfold read_task at 1. cbn beta iota.
    unfold added at 1, saved at 1. cbn [task_heap].
    rewrite lookup_total_insert_eq. rewrite ret_run. cbn [id added_task].
    eexists. split; [reflexivity|]. unfold added.
    apply (file_agrees_saved _ (added_store self)). cbn [list_heap added_store tasks].
    rewrite lookup_alter_eq. destruct Hlist as [l ->]. by eexists.
  - rewrite remove_task_run.
    destruct (index_with_id w task_id 0 (list_at w (tasks self))); [|eauto].
    cbn beta iota. rewrite ret_run. eexists. split; [done|].
    apply file_agrees_saved. unfold with_list. cbn [list_heap].
    rewrite lookup_alter_eq. destruct Hlist as [l ->]. by eexists.
  - rewrite get_task_run. eauto.
  - rewrite store_mark_complete_run.
    destruct (first_with_id w task_id (list_at w (tasks self))) as [r|]; [|eauto].
    cbn beta iota. rewrite ret_run. eexists. split; [done|].
    by apply file_agrees_saved.
  - rewrite store_mark_incomplete_run.
    destruct (first_with_id w task_id (list_at w (tasks self))) as [r|]; [|eauto].
    cbn beta iota. rewrite ret_run. eexists. split; [done|].
    by apply file_agrees_saved.
  - destruct (file_agrees_list_tasks w self show_completed wanted Hok)
      as (out & w' & -> & Hok').
    cbn beta iota. rewrite ret_run. eauto.
  - destruct (get_categories_run w self) as (names & ->). eauto.
  - destruct (get_stats_run w self) as (stats & -> & _). eauto.
Qed.

Lemma run_file_agrees (calls : list call) (w : World) (self : TodoList) :
  file_agrees w self →
  ∃ w', run self calls w = (Return (run_issues self calls), w')
        ∧ file_agrees w' (run_issues self calls).1.
Proof.
  revert w self. induction calls as [|c calls IH]; intros w self Hok; [by exists w|].
  cbn [run run_issues fst]. rewrite bind_run.
  destruct (perform_file_agrees w self c Hok) as (w1 & -> & Hok1).
  destruct (IH w1 (issues self c).1 Hok1) as (w2 & Hrun & Hok2).
  rewrite bind_run, Hrun. eauto.
Qed.

(** X5.  Once the file agrees with the store it does so after every
    sequence of calls: at any point the file holds the [next_id] of the
    store and one record for each of its tasks, so a store constructed from
    the file at that point has the same [next_id] and, up to their order,
    tasks equal field by field to those of the running store. *)
Theorem file_follows_store (w : World) (self : TodoList) (calls : list call) :
  file_agrees w self →
  ∃ self' ids w',
    run self calls w = (Return (self', ids), w')
    ∧ file_agrees w' self'
    ∧ ∃ loaded w'',
        TodoList.__init__ (data_file self') w' = (Return loaded, w'')
        ∧ next_id loaded = next_id self'
        ∧ task_at w'' <$> list_at w'' (tasks loaded)
          ≡ₚ task_at w' <$> list_at w' (tasks self').
Proof.
  intros Hok.
  destruct (run_file_agrees calls w self Hok) as (w' & Hrun & Hok').
  destruct (run_issues self calls) as [self' ids]. cbn [fst] in Hok'.
  exists self', ids, w'. split; [done|]. split; [done|].
  destruct Hok' as (l & ts & Hl & Hfile & Hperm).
  destruct (init_records_of w' (data_file self') ts (next_id self') Hfile)
    as (loaded & w'' & Hinit & _ & Hnext & _ & _ & Hvals & _).
  exists loaded, w''. split; [done|]. split; [done|].
  by rewrite Hvals, Hperm, (list_at_lookup _ _ _ Hl).
Qed.

Lemma file_follows_store_witness :
  ∃ todo w0,
    (todo ← TodoList.__init__ "tasks.json";
     '(todo, _) ← TodoList.add_task todo "a" "" "Home" "Low" None;
     mret todo) blank_world = (Return todo, w0)
    ∧ file_agrees w0 todo
    ∧ ∃ self' ids w',
        run todo [AddTask "b" "" "Work" "High" None; ListTasks true None;
                  MarkComplete 1%Z; RemoveTask 2%Z] w0
        = (Return (self', ids), w')
        ∧ file_agrees w' self'
        ∧ ∃ loaded w'',
            TodoList.__init__ (data_file self') w' = (Return loaded, w'')
            ∧ next_id loaded = next_id self'
            ∧ task_at w'' <$> list_at w'' (tasks loaded)
              ≡ₚ task_at w' <$> list_at w' (tasks self').
Proof.
  eexists _, _. split; [vm_compute; reflexivity|].
  match goal with
  | |- file_agrees ?w ?s ∧ _ =>
      assert (Hok : file_agrees w s)
        by (exists (list_at w (tasks s)), (task_at w <$> list_at w (tasks s));
            split; [vm_compute; reflexivity|];
            split; [vm_compute; reflexivity|reflexivity])
  end.
  split; [exact Hok|]. exact (file_follows_store _ _ _ Hok).
Defined.

(** ** Finding a task by its id *)

Lemma index_with_id_split (w : World) (task_id : Z) (l : list loc) (i k : nat) :
  index_with_id w task_id i l = Some k →
  ∃ l1 r l2, l = (l1 ++ r :: l2)%list
             ∧ k = (i + length l1)%nat
             ∧ id (task_at w r) = Some task_id
             ∧ with_id w task_id l1 = [].
Proof.
  revert i. induction l as [|r0 l IH]; intros i; [done|].
  cbn [index_with_id]. case_bool_decide as Hid.
  - intros [= <-]. exists [], r0, l. cbn [length app]. split; [done|].
    split; [lia|]. done.
  - intros Hk. destruct (IH (S i) Hk) as (l1 & r & l2 & -> & -> & Hr & Hnone).
    exists (r0 :: l1), r, l2. cbn [length app]. split; [done|]. split; [lia|].
    split; [done|]. unfold with_id in *. by rewrite filter_cons, decide_False.
Qed.

Lemma first_with_id_split (w : World) (task_id : Z) (l : list loc) (r : loc) :
  first_with_id w task_id l = Some r →
  ∃ l1 l2, l = (l1 ++ r :: l2)%list
           ∧ id (task_at w r) = Some task_id
           ∧ with_id w task_id l1 = [].
Proof.
  induction l as [|r0 l IH]; [done|].
  cbn [first_with_id]. case_bool_decide as Hid.
  - intros [= <-]. by exists [], l.
  - intros Hr. destruct (IH Hr) as (l1 & l2 & -> & Hidr & Hnone).
    exists (r0 :: l1), l2. split; [done|]. split; [done|].
    unfold with_id in *. by rewrite filter_cons, decide_False.
Qed.

Lemma first_with_id_miss (w : World) (task_id : Z) (l : list loc) :
  first_with_id w task_id l = None ↔ with_id w task_id l = [].
Proof.
  split.
  - intros Hnone. apply with_id_nil_2. apply Forall_forall. intros r Hr Hid.
    induction l as [|r0 l IH]; [by apply elem_of_nil in Hr|].
    cbn [first_with_id] in Hnone. case_bool_decide as Hid0; [done|].
    apply elem_of_cons in Hr as [->|Hr]; [done|]. by apply IH.
  - intros Hnone. by apply first_with_id_None, with_id_nil.
Qed.

Lemma index_with_id_miss (w : World) (task_id : Z) (l : list loc) (i : nat) :
  index_with_id w task_id i l = None ↔ with_id w task_id l = [].
Proof.
  rewrite index_with_id_None. split; [apply with_id_nil_2|apply with_id_nil].
Qed.

Lemma list_at_nonempty (w : World) (r : loc) :
  list_at w r ≠ [] → list_heap w !! r = Some (list_at w r).
Proof.
  unfold list_at. rewrite lookup_total_alt.
  by destruct (list_heap w !! r).
Qed.

(** X6.  [get_task] changes nothing and returns the first task of the store
    that carries the id: the tasks before it carry other ids or none; it
    returns [None] exactly when no task of the store carries the id. *)
Theorem get_task_finds_first (w : World) (self : TodoList) (task_id : Z) :
  ∃ found,
    TodoList.get_task self task_id w = (Return found, w)
    ∧ (found = None ↔ with_id w task_id (list_at w (tasks self)) = [])
    ∧ ∀ r, found = Some r →
        ∃ l1 l2, list_at w (tasks self) = (l1 ++ r :: l2)%list
                 ∧ id (task_at w r) = Some task_id
                 ∧ with_id w task_id l1 = [].
Proof.
  exists (first_with_id w task_id (list_at w (tasks self))).
  split; [apply get_task_run|]. split; [apply first_with_id_miss|].
  intros r. apply first_with_id_split.
Qed.

(** X7.  For an id that no task of the store carries, [remove_task],
    [mark_complete] and [mark_incomplete] return false and change nothing:
    no object is changed and the file is not written. *)
Theorem unknown_id_changes_nothing (w : World) (self : TodoList) (task_id : Z) :
  with_id w task_id (list_at w (tasks self)) = [] →
  TodoList.remove_task self task_id w = (Return false, w)
  ∧ TodoList.mark_complete self task_id w = (Return false, w)
  ∧ TodoList.mark_incomplete self task_id w = (Return false, w).
Proof.
  intros Hnone.
  rewrite remove_task_run, store_mark_complete_run, store_mark_incomplete_run.
  rewrite (proj2 (index_with_id_miss _ _ _ _) Hnone).
  by rewrite (proj2 (first_with_id_miss _ _ _) Hnone).
Qed.

Lemma unknown_id_changes_nothing_witness :
  with_id one_task_world 7 (list_at one_task_world (tasks one_task_store)) = []
  ∧ TodoList.remove_task one_task_store 7 one_task_world = (Return false, one_task_world)
  ∧ TodoList.mark_complete one_task_store 7 one_task_world
    = (Return false, one_task_world)
  ∧ TodoList.mark_incomplete one_task_store 7 one_task_world
    = (Return false, one_task_world).
Proof.
  split; [vm_compute; reflexivity|].
  apply (unknown_id_changes_nothing one_task_world one_task_store 7).
  vm_compute. reflexivity.
Defined.

(** X8.  [remove_task] returns true exactly when a task of the store carries
    the id.  It then takes the first such task out of the list, keeps every
    other task in its place and every task object as it is, and rewrites
    the file from the shorter list; otherwise it changes nothing. *)
Theorem remove_task_drops_first_match (w : World) (self : TodoList) (task_id : Z) :
  ∃ removed w',
    TodoList.remove_task self task_id w = (Return removed, w')
    ∧ (removed = false ↔ with_id w task_id (list_at w (tasks self)) = [])
    ∧ (removed = false → w' = w)
    ∧ (removed = true →
       ∃ l1 r l2,
         list_at w (tasks self) = (l1 ++ r :: l2)%list
         ∧ id (task_at w r) = Some task_id
         ∧ with_id w task_id l1 = []
         ∧ list_at w' (tasks self) = (l1 ++ l2)%list
         ∧ task_heap w' = task_heap w
         ∧ disk w' = <[data_file self := Json (saved_document w' self)]> (disk w)).
Proof.
  rewrite remove_task_run.
  destruct (index_with_id w task_id 0 (list_at w (tasks self))) as [k|] eqn:Hk.
  - eexists _, _. split; [reflexivity|]. split.
    { split; [done|]. intros Hnone.
      apply (index_with_id_miss _ _ _ 0%nat) in Hnone. congruence. }
    split; [done|]. intros _.
    destruct (index_with_id_split _ _ _ _ _ Hk) as (l1 & r & l2 & Hl & -> & Hr & Hnone).
    exists l1, r, l2. split; [done|]. split; [done|]. split; [done|].
    assert (Hlist : list_heap w !! tasks self = Some (l1 ++ r :: l2)%list).
    { rewrite <- Hl. apply list_at_nonempty. rewrite Hl. by destruct l1. }
    split; [|done].
    rewrite list_at_saved. unfold list_at, with_list. cbn [list_heap].
    rewrite (lookup_total_alter_Some _ _ _ _ Hlist). apply delete_middle.
  - eexists _, _. split; [reflexivity|]. split; [|done].
    split; [|done]. intros _. by apply (index_with_id_miss _ _ _ 0%nat).
Qed.

(** ** Marking a task of the store *)

Lemma first_with_id_ext (w w' : World) (task_id : Z) (l : list loc) :
  (∀ r, id (task_at w' r) = id (task_at w r)) →
  first_with_id w' task_id l = first_with_id w task_id l.
Proof.
  intros Hid. induction l as [|r l IH]; [done|].
  cbn [first_with_id]. by rewrite Hid, IH.
Qed.

Lemma first_with_id_object (w : World) (task_id : Z) (l : list loc) (r : loc) :
  first_with_id w task_id l = Some r → task_heap w !! r = Some (task_at w r).
Proof.
  intros Hr. destruct (first_with_id_split _ _ _ _ Hr) as (_ & _ & _ & Hid & _).
  unfold task_at in *. rewrite lookup_total_alt in *.
  by destruct (task_heap w !! r).
Qed.

(** The tasks of a world whose object [r] is changed by [f]. *)
Lemma task_at_alter (w : World) (clk : nat → string) (n : nat) (lh : gmap loc (list loc))
    (dk : gmap string content) (f : Task → Task) (r r' : loc) :
  task_heap w !! r = Some (task_at w r) →
  task_at (mkWorld clk n (alter f r (task_heap w)) lh dk) r'
  = if decide (r' = r) then f (task_at w r) else task_at w r'.
Proof.
  intros Hr. unfold task_at at 1. cbn [task_heap]. rewrite lookup_total_alt.
  destruct (decide (r' = r)) as [->|Hne].
  - by rewrite lookup_alter_eq, Hr.
  - rewrite lookup_alter_ne by done. by rewrite <- lookup_total_alt.
Qed.

(** X9.  [mark_complete] of the store returns true exactly when a task of
    the store carries the id.  It then marks the task that [get_task]
    finds: the task becomes completed with the time of the call as its
    completion time, its other fields, the other tasks and the list stay
    as they are, [get_task] still finds the same task, and the file is
    rewritten.  Otherwise nothing changes. *)
Theorem mark_complete_marks_first_match (w : World) (self : TodoList) (task_id : Z) :
  ∃ marked w',
    TodoList.mark_complete self task_id w = (Return marked, w')
    ∧ (marked = false ↔ with_id w task_id (list_at w (tasks self)) = [])
    ∧ (marked = false → w' = w)
    ∧ (marked = true →
       ∃ r,
         TodoList.get_task self task_id w = (Return (Some r), w)
         ∧ task_at w' r
           = set_completed_at (Some (clock w (ticks w)))
               (set_completed true (task_at w r))
         ∧ (∀ r', r' ≠ r → task_at w' r' = task_at w r')
         ∧ list_heap w' = list_heap w
         ∧ TodoList.get_task self task_id w' = (Return (Some r), w')
         ∧ disk w' = <[data_file self := Json (saved_document w' self)]> (disk w)).
Proof.
  rewrite store_mark_complete_run.
  destruct (first_with_id w task_id (list_at w (tasks self))) as [r|] eqn:Hr.
  - eexists _, _. split; [reflexivity|]. split.
    { split; [done|]. intros Hnone. apply first_with_id_miss in Hnone. congruence. }
    split; [done|]. intros _.
    pose proof (first_with_id_object _ _ _ _ Hr) as Hobj.
    assert (Hat : ∀ r', task_at (saved (marked_complete w r) self) r'
                        = if decide (r' = r)
                          then set_completed_at (Some (clock w (ticks w)))
                                 (set_completed true (task_at w r))
                          else task_at w r').
    { intros r'. unfold saved, marked_complete. by apply task_at_alter. }
    exists r. rewrite !get_task_run, Hr. split; [done|]. split.
    { by rewrite Hat, decide_True. }
    split. { intros r' Hne. by rewrite Hat, decide_False. }
    split; [done|]. split; [|done].
    rewrite list_at_saved.
    change (list_at (marked_complete w r) (tasks self)) with (list_at w (tasks self)).
    rewrite <- Hr. do 2 f_equal. apply first_with_id_ext. intros r'. rewrite Hat.
    by destruct (decide (r' = r)) as [->|].
  - eexists _, _. split; [reflexivity|]. split; [|done].
    split; [|done]. intros _. by apply first_with_id_miss.
Qed.

(** X10.  [mark_incomplete] of the store returns true exactly when a task
    of the store carries the id.  It then resets the task that [get_task]
    finds: the task becomes not completed and loses its completion time,
    its other fields, the other tasks and the list stay as they are, no
    clock is read, and the file is rewritten.  Otherwise nothing
    changes. *)
Theorem mark_incomplete_resets_first_match (w : World) (self : TodoList) (task_id : Z) :
  ∃ marked w',
    TodoList.mark_incomplete self task_id w = (Return marked, w')
    ∧ (marked = false ↔ with_id w task_id (list_at w (tasks self)) = [])
    ∧ (marked = false → w' = w)
    ∧ (marked = true →
       ∃ r,
         TodoList.get_task self task_id w = (Return (Some r), w)
         ∧ task_at w' r = set_completed_at None (set_completed false (task_at w r))
         ∧ (∀ r', r' ≠ r → task_at w' r' = task_at w r')
         ∧ list_heap w' = list_heap w
         ∧ ticks w' = ticks w
         ∧ TodoList.get_task self task_id w' = (Return (Some r), w')
         ∧ disk w' = <[data_file self := Json (saved_document w' self)]> (disk w)).
Proof.
  rewrite store_mark_incomplete_run.
  destruct (first_with_id w task_id (list_at w (tasks self))) as [r|] eqn:Hr.
  - eexists _, _. split; [reflexivity|]. split.
    { split; [done|]. intros Hnone. apply first_with_id_miss in Hnone. congruence. }
    split; [done|]. intros _.
    pose proof (first_with_id_object _ _ _ _ Hr) as Hobj.
    assert (Hat : ∀ r', task_at (saved (marked_incomplete w r) self) r'
                        = if decide (r' = r)
                          then set_completed_at None (set_completed false (task_at w r))
                          else task_at w r').
    { intros r'. unfold saved, marked_incomplete. by apply task_at_alter. }
    exists r. rewrite !get_task_run, Hr. split; [done|]. split.
    { by rewrite Hat, decide_True. }
    split. { intros r' Hne. by rewrite Hat, decide_False. }
    split; [done|]. split; [done|]. split; [|done].
    rewrite list_at_saved.
    change (list_at (marked_incomplete w r) (tasks self)) with (list_at w (tasks self)).
    rewrite <- Hr. do 2 f_equal. apply first_with_id_ext. intros r'. rewrite Hat.
    by destruct (decide (r' = r)) as [->|].
  - eexists _, _. split; [reflexivity|]. split; [|done].
    split; [|done]. intros _. by apply first_with_id_miss.
Qed.

(** ** Adding a task and finding it *)

Lemma first_with_id_app (w : World) (task_id : Z) (l1 l2 : list loc) :
  first_with_id w task_id (l1 ++ l2)
  = match first_with_id w task_id l1 with
    | Some r => Some r
    | None => first_with_id w task_id l2
    end.
Proof.
  induction l1 as [|r l1 IH]; [done|]. cbn [app first_with_id].
  by destruct (bool_decide (id (task_at w r) = Some task_id)).
Qed.

Lemma first_with_id_agree (w w' : World) (task_id : Z) (l : list loc) :
  Forall (λ r, task_at w' r = task_at w r) l →
  first_with_id w' task_id l = first_with_id w task_id l.
Proof.
  induction 1 as [|r l Hr _ IH]; [done|]. cbn [first_with_id]. by rewrite Hr, IH.
Qed.

(** X11.  On a store in good order [add_task] makes a new task object with
    the id [next_id], the given fields, not completed and created at the
    time of the call, puts it at the end of the list and moves [next_id]
    up by one.  Afterwards [get_task] finds the new task under its id and
    finds under every other id what it found before. *)
Theorem add_task_then_get_task (w : World) (self : TodoList)
    (title description category priority : string) (due_date : option string) :
  store_ok w self →
  ∃ self' r w',
    TodoList.add_task self title description category priority due_date w
    = (Return (self', r), w')
    ∧ next_id self' = (next_id self + 1)%Z
    ∧ task_at w' r
      = mkTask (Some (next_id self)) title description category priority due_date
               false (clock w (ticks w)) None
    ∧ (r ∉ list_at w (tasks self))
    ∧ list_at w' (tasks self') = (list_at w (tasks self) ++ [r])%list
    ∧ Forall (λ r0, task_at w' r0 = task_at w r0) (list_at w (tasks self))
    ∧ TodoList.get_task self' (next_id self) w' = (Return (Some r), w')
    ∧ ∀ task_id found,
        task_id ≠ next_id self →
        TodoList.get_task self task_id w = (Return found, w) →
        TodoList.get_task self' task_id w' = (Return found, w').
Proof.
  intros (l & Hl & Hall & Hnd). rewrite add_task_run.
  set (r := fresh (dom (task_heap w))).
  set (w' := added w self title description category priority due_date).
  assert (Hfresh : ∀ r0, r0 ∈ l → r0 ≠ r).
  { intros r0 Hr0 ->. rewrite Forall_forall in Hall.
    destruct (Hall _ Hr0) as (t & n & Ht & _).
    apply (is_fresh (dom (task_heap w))). apply elem_of_dom. eauto. }
  assert (Hnew : task_at w' r
                 = mkTask (Some (next_id self)) title description category priority
                          due_date false (clock w (ticks w)) None).
  { unfold task_at, w', added, saved. cbn [task_heap]. fold r.
    by rewrite lookup_total_insert_eq. }
  assert (Hold : Forall (λ r0, task_at w' r0 = task_at w r0) l).
  { apply Forall_forall. intros r0 Hr0. unfold task_at, w', added, saved.
    cbn [task_heap]. fold r. rewrite lookup_total_insert_ne; [done|].
    intros Heq. by apply (Hfresh r0). }
  assert (Hlist : list_at w' (tasks self) = (l ++ [r])%list).
  { unfold list_at, w', added, saved. cbn [list_heap]. fold r.
    by rewrite (lookup_total_alter_Some _ _ _ _ Hl). }
  assert (Hbelow : first_with_id w (next_id self) l = None).
  { apply first_with_id_None. rewrite Forall_forall in Hall |- *.
    intros r0 Hr0 Hid. destruct (Hall _ Hr0) as (t & n & Ht & Hn & Hlt).
    rewrite (task_at_lookup _ _ _ Ht), Hn in Hid. injection Hid as ->. lia. }
  rewrite (list_at_lookup _ _ _ Hl).
  exists (added_store self), r, w'. split; [done|]. split; [done|].
  split; [done|]. split. { intros Hin. by apply (Hfresh r). }
  split; [done|]. split; [done|]. split.
  - rewrite get_task_run. cbn [added_store tasks]. rewrite Hlist.
    rewrite first_with_id_app, (first_with_id_agree w w' _ l Hold), Hbelow.
    cbn [first_with_id]. rewrite Hnew. cbn [id].
    by rewrite bool_decide_eq_true_2.
  - intros task_id found Hne. rewrite !get_task_run.
    cbn [added_store tasks]. rewrite Hlist, (list_at_lookup _ _ _ Hl).
    intros [= <-]. do 2 f_equal.
    rewrite first_with_id_app, (first_with_id_agree w w' _ l Hold).
    destruct (first_with_id w task_id l); [done|].
    cbn [first_with_id]. rewrite Hnew. cbn [id].
    rewrite bool_decide_eq_false_2; [done|]. intros [= Heq]. by apply Hne.
Qed.

Lemma add_task_then_get_task_witness :
  ∃ todo w0,
    (todo ← TodoList.__init__ "tasks.json";
     '(todo, _) ← TodoList.add_task todo "a" "" "Home" "Low" None;
     mret todo) blank_world = (Return todo, w0)
    ∧ store_ok w0 todo
    ∧ ∃ self' r w',
        TodoList.add_task todo "b" "second" "Work" "High" (Some "2024-02-01") w0
        = (Return (self', r), w')
        ∧ next_id self' = (next_id todo + 1)%Z
        ∧ task_at w' r
          = mkTask (Some (next_id todo)) "b" "second" "Work" "High" (Some "2024-02-01")
                   false (clock w0 (ticks w0)) None
        ∧ (r ∉ list_at w0 (tasks todo))
        ∧ list_at w' (tasks self') = (list_at w0 (tasks todo) ++ [r])%list
        ∧ Forall (λ r0, task_at w' r0 = task_at w0 r0) (list_at w0 (tasks todo))
        ∧ TodoList.get_task self' (next_id todo) w' = (Return (Some r), w')
        ∧ ∀ task_id found,
            task_id ≠ next_id todo →
            TodoList.get_task todo task_id w0 = (Return found, w0) →
            TodoList.get_task self' task_id w' = (Return found, w').
Proof.
  eexists _, _. split; [vm_compute; reflexivity|].
  match goal with |- store_ok ?w ?s ∧ _ => assert (Hok : store_ok w s) end.
  { eexists. split; [vm_compute; reflexivity|]. split.
    - repeat constructor; eexists _, _; (split; [vm_compute; reflexivity|]);
        (split; [reflexivity|]); reflexivity.
    - vm_compute. repeat constructor; rewrite ?elem_of_cons, ?elem_of_nil;
        intros H; repeat destruct H as [H|H]; try discriminate H; done. }
  split; [exact Hok|].
  exact (add_task_then_get_task _ _ "b" "second" "Work" "High" (Some "2024-02-01") Hok).
Defined.

(** ** Listing after listing *)

Lemma filter_comm {A} (P Q : A → Prop) `{∀ x, Decision (P x)} `{∀ x, Decision (Q x)}
    (l : list A) :
  filter P (filter Q l) = filter Q (filter P l).
Proof.
  induction l as [|x l IH]; [done|]. rewrite !(filter_cons _ x).
  destruct (decide (Q x)), (decide (P x)); rewrite ?(filter_cons _ x);
    rewrite ?decide_True, ?decide_False by done; by rewrite IH.
Qed.

(** Sorting a selection of a sorted list is sorting the selection of the
    list. *)
Lemma sort_by_filter_sort_by {K A} `{EqDecision K} (lt : K → K → bool) (key : A → K)
    (P : A → Prop) `{∀ x, Decision (P x)} (l : list A) :
  (∀ a, lt a a = false) →
  (∀ a b c, lt a b = true → lt b c = true → lt a c = true) →
  (∀ a b, lt a b = false → lt b a = false → a = b) →
  sort_by lt key (filter P (sort_by lt key l)) = sort_by lt key (filter P l).
Proof.
  intros Hirr Htrans Hconn.
  apply (stable_sort_unique lt key Hirr Hconn).
  - by apply sort_by_sorted.
  - by apply sort_by_sorted.
  - intros k. rewrite !(sort_by_stable lt key Hirr).
    by rewrite filter_comm, (sort_by_stable lt key Hirr), filter_comm.
Qed.

Lemma sort_by_sort_by {K A} `{EqDecision K} (lt : K → K → bool) (key : A → K)
    (l : list A) :
  (∀ a, lt a a = false) →
  (∀ a b c, lt a b = true → lt b c = true → lt a c = true) →
  (∀ a b, lt a b = false → lt b a = false → a = b) →
  sort_by lt key (sort_by lt key l) = sort_by lt key l.
Proof.
  intros Hirr Htrans Hconn.
  apply (stable_sort_unique lt key Hirr Hconn).
  - by apply sort_by_sorted.
  - by apply sort_by_sorted.
  - intros k. by rewrite !(sort_by_stable lt key Hirr).
Qed.

(** The list that [list_tasks] returns exists. *)
Lemma list_tasks_out_allocated (w w' : World) (self : TodoList) (sc : bool)
    (wanted : option string) (out : loc) :
  is_Some (list_heap w !! tasks self) →
  TodoList.list_tasks self sc wanted w = (Return out, w') →
  out ∈ dom (list_heap w').
Proof.
  intros Hl. unfold TodoList.list_tasks.
  destruct sc; cbn [negb].
  - step_by ret_run.
    destruct wanted as [[|c0 c]|].
    + rewrite bind_run. cbn [bool_decide].
      rewrite bool_decide_eq_false_2 by (intros H; by apply H).
      rewrite ret_run. cbn beta iota. rewrite sort_then_return.
      intros [= <- <-]. cbn [list_heap]. rewrite dom_alter. by apply elem_of_dom.
    + rewrite bind_run, bool_decide_eq_true_2 by done.
      rewrite (comprehension_step _ _ _ _ (category_is_run _ w)). cbn beta iota.
      rewrite sort_then_return. intros [= <- <-]. apply elem_of_dom. cbn [list_heap].
      rewrite lookup_alter_eq, lookup_insert_eq. by eexists.
    + step_by ret_run. rewrite sort_then_return.
      intros [= <- <-]. cbn [list_heap]. rewrite dom_alter. by apply elem_of_dom.
  - rewrite bind_run.
    rewrite (comprehension_step _ _ _ _ (not_completed_run w)). cbn beta iota.
    destruct wanted as [[|c0 c]|].
    + rewrite bind_run. cbn [bool_decide].
      rewrite bool_decide_eq_false_2 by (intros H; by apply H).
      rewrite ret_run. cbn beta iota. rewrite sort_then_return.
      intros [= <- <-]. apply elem_of_dom. cbn [list_heap].
      rewrite lookup_alter_eq, lookup_insert_eq. by eexists.
    + rewrite bind_run, bool_decide_eq_true_2 by done.
      set (w1 := mkWorld _ _ _ _ _).
      rewrite (comprehension_step _ _ _ _ (category_is_run _ w1)). cbn beta iota.
      rewrite sort_then_return. intros [= <- <-]. apply elem_of_dom. cbn [list_heap].
      rewrite lookup_alter_eq, lookup_insert_eq. by eexists.
    + step_by ret_run. rewrite sort_then_return.
      intros [= <- <-]. apply elem_of_dom. cbn [list_heap].
      rewrite lookup_alter_eq, lookup_insert_eq. by eexists.
Qed.

Lemma spec_selected_sorted (w : World) (sc : bool) (wanted : option string)
    (l : list loc) :
  sort_by TodoList.key_lt (λ x, key_of (task_at w x))
    (spec_selected w sc wanted
       (sort_by TodoList.key_lt (λ x, key_of (task_at w x)) l))
  = sort_by TodoList.key_lt (λ x, key_of (task_at w x)) (spec_selected w sc wanted l).
Proof.
  unfold spec_selected. rewrite !list_filter_filter.
  apply sort_by_filter_sort_by;
    [apply key_lt_irrefl|apply key_lt_trans|apply key_lt_connected].
Qed.

(** X12.  A call of [list_tasks] changes no later listing and is not
    changed by one: after any [list_tasks] call, a second call with any
    arguments returns the tasks, in the order, that it would have returned
    without the first, and the list returned by the first call still holds
    what it held. *)
Theorem list_tasks_after_list_tasks (w : World) (self : TodoList)
    (sc1 sc2 : bool) (wanted1 wanted2 : option string) :
  is_Some (list_heap w !! tasks self) →
  ∃ out1 w1 out2 w2 out w',
    TodoList.list_tasks self sc1 wanted1 w = (Return out1, w1)
    ∧ TodoList.list_tasks self sc2 wanted2 w1 = (Return out2, w2)
    ∧ TodoList.list_tasks self sc2 wanted2 w = (Return out, w')
    ∧ list_at w2 out2 = list_at w' out
    ∧ list_at w2 out1 = list_at w1 out1.
Proof.
  intros [l Hl].
  destruct (list_tasks_run w self sc1 wanted1) as (out1 & lh1 & Hrun1 & Hout1 & Hpath1).
  set (w1 := mkWorld (clock w) (ticks w) (task_heap w) lh1 (disk w)) in *.
  pose proof (list_tasks_out_allocated _ _ _ _ _ _ (ltac:(eauto)) Hrun1) as Halloc1.
  destruct (list_tasks_run w1 self sc2 wanted2) as (out2 & lh2 & Hrun2 & Hout2 & Hpath2).
  destruct (list_tasks_run w self sc2 wanted2) as (out & lh & Hrun & Hout & _).
  eexists _, _, _, _, _, _. split; [exact Hrun1|]. split; [exact Hrun2|].
  split; [exact Hrun|].
  change (task_at w1) with (task_at w) in *.
  change (list_heap w1) with lh1 in *.
  assert (Hstore : lh1 !! tasks self = Some (list_at w1 (tasks self))
                   ∧ (list_at w1 (tasks self) = l
                      ∨ list_at w1 (tasks self)
                        = sort_by TodoList.key_lt (λ x, key_of (task_at w x)) l)
                   ∧ (out1 = tasks self →
                      list_at w1 (tasks self)
                      = sort_by TodoList.key_lt (λ x, key_of (task_at w x)) l)).
  { unfold list_at. cbn [w1 list_heap].
    destruct (sc1 && negb (category_given wanted1))%bool.
    - destruct Hpath1 as [_ ->].
      rewrite (lookup_total_alter_Some _ _ _ _ Hl), lookup_alter_eq, Hl.
      rewrite (list_at_lookup _ _ _ Hl). split; [done|]. split; [by right|done].
    - destruct Hpath1 as [Hnew Hkeep].
      assert (Hsame : lh1 !! tasks self = Some l).
      { rewrite Hkeep; [done|]. apply elem_of_dom. eauto. }
      rewrite lookup_total_alt, Hsame. split; [done|]. split; [by left|].
      intros ->. exfalso. apply Hnew, elem_of_dom. eauto. }
  destruct Hstore as (Hl1 & Hwhich & Hsorted).
  split.
  - unfold list_at at 1 2. cbn [list_heap]. rewrite Hout2, Hout.
    rewrite (list_at_lookup _ _ _ Hl).
    change (spec_selected w1 sc2 wanted2) with (spec_selected w sc2 wanted2).
    destruct Hwhich as [->| ->]; [done|]. apply spec_selected_sorted.
  - unfold list_at at 1 2. cbn [list_heap].
    destruct (sc2 && negb (category_given wanted2))%bool.
    + destruct Hpath2 as [_ ->].
      destruct (decide (out1 = tasks self)) as [->|Hne].
      * rewrite (lookup_total_alter_Some _ _ _ _ Hl1).
        change (sort_by TodoList.key_lt (λ x, key_of (task_at w x))
                  (list_at w1 (tasks self)) = list_at w1 (tasks self)).
        rewrite (Hsorted eq_refl).
        apply sort_by_sort_by;
          [apply key_lt_irrefl|apply key_lt_trans|apply key_lt_connected].
      * by rewrite lookup_total_alter_ne.
    + destruct Hpath2 as [_ Hkeep].
      by rewrite !lookup_total_alt, (Hkeep _ Halloc1).
Qed.

Lemma list_tasks_after_list_tasks_witness :
  ∃ todo w,
    two_task_program blank_world = (Return todo, w)
    ∧ is_Some (list_heap w !! tasks todo)
    ∧ ∃ out1 w1 out2 w2 out w',
        TodoList.list_tasks todo true None w = (Return out1, w1)
        ∧ TodoList.list_tasks todo false (Some "general") w1 = (Return out2, w2)
        ∧ TodoList.list_tasks todo false (Some "general") w = (Return out, w')
        ∧ list_at w2 out2 = list_at w' out
        ∧ list_at w2 out1 = list_at w1 out1.
Proof.
  eexists _, _. split; [vm_compute; reflexivity|].
  match goal with
  | |- is_Some ?x ∧ _ => assert (Hl : is_Some x) by (vm_compute; eauto)
  end.
  split; [exact Hl|].
  exact (list_tasks_after_list_tasks _ _ true false None (Some "general") Hl).
Defined.

(** ** Loading records *)

(** Decoding a list of records that all have a title: the values, and the
    clock readings that stand in for a missing [created_at]. *)
Lemma mapM_from_dict_values (ds : list TaskDict) :
  Forall (λ d, is_Some (d_title d)) ds →
  ∀ w, ∃ rs w',
    mapM Task.from_dict ds w = (Return rs, w')
    ∧ clock w' = clock w
    ∧ (ticks w ≤ ticks w')%nat
    ∧ Forall2 (λ r d, ∃ title n,
                 d_title d = Some title
                 ∧ (ticks w ≤ n)%nat
                 ∧ task_heap w' !! r = Some (decoded d title (clock w n))) rs ds.
Proof.
  induction 1 as [|d ds [title Ht] Hds IH]; intros w.
  - exists [], w. repeat split; [lia|constructor].
  - cbn [mapM]. step_by (from_dict_run w d title Ht).
    set (r := fresh (dom (task_heap w))).
    set (w1 := mkWorld _ _ _ _ _).
    destruct (IH w1) as (rs & w' & Hrun & Hclock & Hticks & Hall).
    destruct (mapM_from_dict_run ds Hds w1)
      as (rs0 & w0 & Hrun0 & _ & _ & _ & Hkeep).
    rewrite Hrun in Hrun0. injection Hrun0 as <- <-.
    step_by Hrun. cbn [w1 clock ticks] in Hclock, Hticks, Hall.
    exists (r :: rs), w'. split; [done|]. split; [done|]. split; [lia|].
    constructor.
    + exists title, (S (ticks w)). split; [done|]. split; [lia|].
      apply Hkeep. subst w1. cbn [task_heap]. apply lookup_insert_eq.
    + eapply Forall2_impl; [exact Hall|]. intros r0 d0 (title0 & n & Ht0 & Hn & Hr0).
      exists title0, n. split; [done|]. split; [lia|done].
Qed.

(** X13.  On a file that holds a JSON object whose task records all have a
    title, the constructor returns a store with [next_id] as the object
    gives it (1 when the key is missing) and one new task object per
    record, in the order of the records (none when the key [tasks] is
    missing).  Each task has the fields of its record, a missing key read
    as: no id, empty description, category General, priority Medium, no
    due date, not completed, created at a time read during the load, no
    completion time.  The file is not written. *)
Theorem init_loads_each_record (w : World) (path : string) (d : StoreDict) :
  disk w !! path = Some (Json (JObject d)) →
  Forall (λ rec, is_Some (d_title rec)) (default [] (d_tasks d)) →
  ∃ self w',
    TodoList.__init__ path w = (Return self, w')
    ∧ data_file self = path
    ∧ next_id self = default 1%Z (d_next_id d)
    ∧ Forall2 (λ r rec, ∃ title n,
                 d_title rec = Some title
                 ∧ (ticks w ≤ n)%nat
                 ∧ task_at w' r = decoded rec title (clock w n))
              (list_at w' (tasks self)) (default [] (d_tasks d))
    ∧ Forall (λ r, r ∉ dom (task_heap w)) (list_at w' (tasks self))
    ∧ disk w' = disk w.
Proof.
  intros Hfile Htitles. rewrite init_run.
  rewrite (load_tasks_object _ _ d) by exact Hfile.
  destruct (mapM_from_dict_values _ Htitles (with_new_list w []))
    as (rs & w1 & Hmap & _ & _ & Hall).
  destruct (mapM_from_dict_run _ Htitles (with_new_list w []))
    as (rs0 & w0 & Hrun0 & _ & _ & Hdisk & _).
  rewrite Hmap in Hrun0. injection Hrun0 as <- <-.
  destruct (mapM_from_dict_new _ _ _ _ Hmap) as [Hnew _].
  rewrite Hmap. eexists _, _. split; [reflexivity|]. cbn [data_file next_id tasks].
  rewrite list_at_new_list. split; [done|]. split; [done|].
  split; [|split; [done|done]].
  eapply Forall2_impl; [exact Hall|]. intros r rec (title & n & Ht & Hn & Hr).
  exists title, n. split; [done|]. split; [done|].
  by apply task_at_lookup.
Qed.

Lemma init_loads_each_record_witness :
  disk old_document_world !! "tasks.json"
  = Some (Json (JObject (mkStoreDict (Some [old_record]) None)))
  ∧ Forall (λ rec, is_Some (d_title rec)) [old_record]
  ∧ ∃ self w',
      TodoList.__init__ "tasks.json" old_document_world = (Return self, w')
      ∧ data_file self = "tasks.json"
      ∧ next_id self = 1%Z
      ∧ Forall2 (λ r rec, ∃ title n,
                   d_title rec = Some title
                   ∧ (ticks old_document_world ≤ n)%nat
                   ∧ task_at w' r = decoded rec title (clock old_document_world n))
                (list_at w' (tasks self)) [old_record]
      ∧ Forall (λ r, r ∉ dom (task_heap old_document_world)) (list_at w' (tasks self))
      ∧ disk w' = disk old_document_world.
Proof.
  assert (Hfile : disk old_document_world !! "tasks.json"
                  = Some (Json (JObject (mkStoreDict (Some [old_record]) None))))
    by reflexivity.
  assert (Htitles : Forall (λ rec, is_Some (d_title rec)) [old_record])
    by (repeat constructor; vm_compute; eauto).
  split; [exact Hfile|]. split; [exact Htitles|].
  exact (init_loads_each_record old_document_world "tasks.json" _ Hfile Htitles).
Defined.

(** ** Encoding a decoded record *)

(** X14.  Decoding a record that has a title and encoding the task again
    gives a record with all nine keys: the keys of the record keep their
    values and each missing key gets its default ([created_at] the clock
    reading taken by [from_dict]); a record that [to_dict] wrote comes back
    unchanged. *)
Theorem to_dict_from_dict_fills_defaults (w : World) (data : TaskDict) (title : string) :
  d_title data = Some title →
  ∃ r w1 out,
    Task.from_dict data w = (Return r, w1)
    ∧ Task.to_dict r w1 = (Return out, w1)
    ∧ out = {| d_id := Some (default None (d_id data));
               d_title := Some title;
               d_description := Some (default "" (d_description data));
               d_category := Some (default "General" (d_category data));
               d_priority := Some (default "Medium" (d_priority data));
               d_due_date := Some (default None (d_due_date data));
               d_completed := Some (default false (d_completed data));
               d_created_at :=
                 Some (default (clock w (S (ticks w))) (d_created_at data));
               d_completed_at := Some (default None (d_completed_at data)) |}
    ∧ ∀ t, data = dict_of t → out = data.
Proof.
  intros Ht. rewrite (from_dict_run w data title Ht).
  eexists _, _, _. split; [reflexivity|]. rewrite to_dict_run.
  split; [reflexivity|].
  unfold task_at. cbn [task_heap]. rewrite lookup_total_insert_eq.
  split; [reflexivity|].
  intros t ->. cbn [dict_of d_title] in Ht. injection Ht as <-. reflexivity.
Qed.

Lemma to_dict_from_dict_fills_defaults_witness :
  d_title old_record = Some "Old task"
  ∧ ∃ r w1 out,
      Task.from_dict old_record blank_world = (Return r, w1)
      ∧ Task.to_dict r w1 = (Return out, w1)
      ∧ out = mkTaskDict (Some (Some 1%Z)) (Some "Old task") (Some "") (Some "General")
                         (Some "Medium") (Some None) (Some false) (Some (stamp 1))
                         (Some None)
      ∧ ∀ t, old_record = dict_of t → out = old_record.
Proof.
  split; [reflexivity|].
  exact (to_dict_from_dict_fills_defaults blank_world old_record "Old task" eq_refl).
Defined.

(** ** Statistics and listings *)

Lemma get_stats_value (w : World) (self : TodoList) :
  TodoList.get_stats self w
  = (Return
       (TodoList.mkStats
          (Z.of_nat (length (task_at w <$> list_at w (tasks self))))
          (Z.of_nat (length (filter (λ t, completed t = true)
                                    (task_at w <$> list_at w (tasks self)))))
          (Z.of_nat (length (task_at w <$> list_at w (tasks self)))
           - Z.of_nat (length (filter (λ t, completed t = true)
                                      (task_at w <$> list_at w (tasks self)))))
          (foldl TodoList.count_task ∅ (task_at w <$> list_at w (tasks self)))),
     w).
Proof.
  unfold TodoList.get_stats. step_in read_list.
  by rewrite bind_run, (mapM_reader _ (task_at w)) by done.
Qed.

Lemma pending_count (w : World) (l : list loc) :
  (length (filter (λ r, spec_shown false (task_at w r)) l)
   + length (filter (λ t, completed t = true) (task_at w <$> l)))%nat
  = length l.
Proof.
  induction l as [|r l IH]; [done|].
  rewrite fmap_cons, !filter_cons.
  destruct (decide (spec_shown false (task_at w r))) as [Hs|Hs];
    destruct (decide (completed (task_at w r) = true)) as [Hc|Hc];
    cbn [length]; try lia; exfalso.
  - unfold spec_shown in Hs. by rewrite Hc in Hs.
  - apply Hs. unfold spec_shown. by destruct (completed (task_at w r)).
Qed.

Lemma same_ignoring_case_refl (s : string) : same_ignoring_case s s = true.
Proof. rewrite same_ignoring_case_lower. by apply bool_decide_eq_true. Qed.

Lemma in_category_at_most (w : World) (c : string) (l : list loc) :
  (length (in_category c (task_at w <$> l))
   ≤ length (filter (λ r, same_ignoring_case (category (task_at w r)) c) l))%nat.
Proof.
  unfold in_category. induction l as [|r l IH]; [done|].
  rewrite fmap_cons, !filter_cons.
  destruct (decide (category (task_at w r) = c)) as [Hc|Hc].
  - rewrite decide_True; [cbn [length]; lia|].
    by rewrite Hc, same_ignoring_case_refl.
  - destruct (decide _); cbn [length]; lia.
Qed.

(** X15.  The statistics count what the listings show: [total] is the
    length of [list_tasks()], [pending] the length of
    [list_tasks(show_completed=False)]; and the listing of a category that
    has an entry in the statistics, which compares without case, shows at
    least as many tasks as the entry counts. *)
Theorem stats_agree_with_listings (w : World) (self : TodoList) :
  ∃ stats all w1 pending w2,
    TodoList.get_stats self w = (Return stats, w)
    ∧ TodoList.list_tasks self true None w = (Return all, w1)
    ∧ TodoList.list_tasks self false None w = (Return pending, w2)
    ∧ TodoList.s_total stats = Z.of_nat (length (list_at w1 all))
    ∧ TodoList.s_pending stats = Z.of_nat (length (list_at w2 pending))
    ∧ ∀ c e,
        c ≠ "" →
        TodoList.s_categories stats !! c = Some e →
        ∃ listed w3,
          TodoList.list_tasks self true (Some c) w = (Return listed, w3)
          ∧ (TodoList.c_total e ≤ Z.of_nat (length (list_at w3 listed)))%Z.
Proof.
  rewrite get_stats_value.
  set (l := list_at w (tasks self)).
  destruct (list_tasks_run w self true None) as (all & lh1 & Hrun1 & Hout1 & _).
  destruct (list_tasks_run w self false None) as (pending & lh2 & Hrun2 & Hout2 & _).
  eexists _, _, _, _, _. split; [reflexivity|]. split; [exact Hrun1|].
  split; [exact Hrun2|].
  cbn [TodoList.s_total TodoList.s_pending TodoList.s_categories].
  unfold list_at at 1 2. cbn [list_heap]. rewrite Hout1, Hout2.
  rewrite !sort_by_perm. unfold spec_selected. fold l.
  rewrite !(filter_all (λ r, spec_in_category None (task_at w r))) by done.
  rewrite ?(filter_all (λ r, spec_shown true (task_at w r))) by done.
  rewrite length_fmap.
  split; [done|]. split.
  { pose proof (pending_count w l). lia. }
  intros c e Hc He.
  destruct (list_tasks_run w self true (Some c)) as (listed & lh3 & Hrun3 & Hout3 & _).
  eexists _, _. split; [exact Hrun3|].
  unfold list_at. cbn [list_heap]. rewrite Hout3, sort_by_perm.
  unfold spec_selected. fold l.
  rewrite (filter_all (λ r, spec_shown true (task_at w r))) by done.
  rewrite (foldl_count_task _ []) in He by (intros c'; by rewrite lookup_empty).
  cbn [app] in He. unfold category_entry in He.
  pose proof (in_category_at_most w c l) as Hle.
  destruct (in_category c (task_at w <$> l)) as [|t rest] eqn:Hin; [done|].
  injection He as <-. cbn [TodoList.c_total].
  destruct c as [|c0 c]; [done|]. cbn [spec_in_category].
  change (length (t :: rest)) with (S (length rest)) in Hle. lia.
Qed.

(** * The interactive functions *)

Lemma sh_bind_run {A B} (m : Sh A) (f : A → Sh B) (c : Console) (w : World) :
  (m ≫= f) c w
  = match m c w with
    | (Done a, c', w') => f a c' w'
    | (Failed e, c', w') => (Failed e, c', w')
    end.
Proof. reflexivity. Qed.

(** ** [str.strip] *)

(** The four ways in which [lstrip] meets the beginning of a text. *)
Lemma lstrip_space1 (a : ascii) (r : string) :
  is_space a = true → lstrip (String a r) = lstrip r.
Proof. intros Ha. cbn [lstrip]. by rewrite Ha. Qed.

Lemma lstrip_space2 (a b : ascii) (r : string) :
  is_space a = false → is_space2 a b = true →
  lstrip (String a (String b r)) = lstrip r.
Proof. intros Ha Hab. cbn [lstrip]. by rewrite Ha, Hab. Qed.

Lemma lstrip_space3 (a b c : ascii) (r : string) :
  is_space a = false → is_space2 a b = false → is_space3 a b c = true →
  lstrip (String a (String b (String c r))) = lstrip r.
Proof. intros Ha Hab Habc. cbn [lstrip]. by rewrite Ha, Hab, Habc. Qed.

Lemma lstrip_cases (s : string) :
  lstrip s = s
  ∨ ∃ r, lstrip s = lstrip r ∧ (String.length r < String.length s)%nat.
Proof.
  destruct s as [|a r1]; [by left|].
  destruct (is_space a) eqn:Ha.
  { right. exists r1. rewrite lstrip_space1 by done. cbn [String.length]. split; [done|lia]. }
  destruct r1 as [|b r2].
  { left. cbn [lstrip]. by rewrite Ha. }
  destruct (is_space2 a b) eqn:Hab.
  { right. exists r2. rewrite lstrip_space2 by done.
    cbn [String.length]. split; [done|lia]. }
  destruct r2 as [|c r3].
  { left. cbn [lstrip]. by rewrite Ha, Hab. }
  destruct (is_space3 a b c) eqn:Habc.
  { right. exists r3. rewrite lstrip_space3 by done.
    cbn [String.length]. split; [done|lia]. }
  left. cbn [lstrip]. by rewrite Ha, Hab, Habc.
Qed.

Lemma lstrip_length (s : string) : (String.length (lstrip s) ≤ String.length s)%nat.
Proof.
  remember (String.length s) as n eqn:Hn. revert s Hn.
  induction n as [n IH] using lt_wf_ind. intros s ->.
  destruct (lstrip_cases s) as [->|(r & -> & Hlt)]; [done|].
  specialize (IH _ Hlt r eq_refl). lia.
Qed.

Lemma lstrip_lstrip (s : string) : lstrip (lstrip s) = lstrip s.
Proof.
  remember (String.length s) as n eqn:Hn. revert s Hn.
  induction n as [n IH] using lt_wf_ind. intros s ->.
  destruct (lstrip_cases s) as [Hs|(r & Hs & Hlt)]; rewrite Hs; [done|].
  exact (IH _ Hlt r eq_refl).
Qed.

Lemma rstrip_rstrip (s : string) : rstrip (rstrip s) = rstrip s.
Proof.
  induction s as [|a s IH]; [done|]. cbn [rstrip].
  destruct (is_space_char (String a (rstrip s))) eqn:Hsp; [done|].
  cbn [rstrip]. by rewrite IH, Hsp.
Qed.

(** What [rstrip] keeps is the beginning of the text. *)
Lemma rstrip_prefix (s : string) : ∃ u, s = (rstrip s ++ u)%string.
Proof.
  induction s as [|a s [u IH]]; [by exists ""|]. cbn [rstrip].
  destruct (is_space_char (String a (rstrip s))).
  - by exists (String a s).
  - exists u. change (String a s = String a (rstrip s ++ u)%string).
    f_equal. exact IH.
Qed.

(** A text without white space at its beginning has none there when it is
    cut short. *)
Lemma lstrip_append_fixed (p u : string) :
  lstrip (p ++ u) = (p ++ u)%string → lstrip p = p.
Proof.
  intros Hfix.
  assert (Hshort : ∀ t, (String.length t < String.length (p ++ u))%nat →
                        lstrip t ≠ (p ++ u)%string).
  { intros t Hlt Heq. pose proof (lstrip_length t) as Hle. rewrite Heq in Hle. lia. }
  destruct p as [|a r1]; [done|].
  destruct (is_space a) eqn:Ha.
  { exfalso. change (String a r1 ++ u)%string with (String a (r1 ++ u)) in *.
    rewrite lstrip_space1 in Hfix by done.
    eapply Hshort; [|exact Hfix]. cbn [String.length]. lia. }
  destruct r1 as [|b r2].
  { cbn [lstrip]. by rewrite Ha. }
  destruct (is_space2 a b) eqn:Hab.
  { exfalso.
    change (String a (String b r2) ++ u)%string with (String a (String b (r2 ++ u))) in *.
    rewrite lstrip_space2 in Hfix by done.
    eapply Hshort; [|exact Hfix]. cbn [String.length]. lia. }
  destruct r2 as [|c r3].
  { cbn [lstrip]. by rewrite Ha, Hab. }
  destruct (is_space3 a b c) eqn:Habc.
  { exfalso.
    change (String a (String b (String c r3)) ++ u)%string
      with (String a (String b (String c (r3 ++ u)))) in *.
    rewrite lstrip_space3 in Hfix by done.
    eapply Hshort; [|exact Hfix]. cbn [String.length]. lia. }
  cbn [lstrip]. by rewrite Ha, Hab, Habc.
Qed.

Lemma lstrip_rstrip (s : string) : lstrip s = s → lstrip (rstrip s) = rstrip s.
Proof.
  intros Hfix. destruct (rstrip_prefix s) as [u Hu].
  apply (lstrip_append_fixed _ u). by rewrite <- Hu.
Qed.

Lemma strip_strip (s : string) : strip (strip s) = strip s.
Proof.
  unfold strip. rewrite (lstrip_rstrip (lstrip s)) by apply lstrip_lstrip.
  apply rstrip_rstrip.
Qed.

(** ** [get_user_input] *)

Lemma input_run (prompt : string) (c : Console) (w : World) :
  input prompt c w
  = match stdin c with
    | [] => (Failed EOFError, mkConsole [] (stdout c ++ [prompt])%list, w)
    | line :: rest => (Done line, mkConsole rest (stdout c ++ [prompt])%list, w)
    end.
Proof. reflexivity. Qed.

Lemma get_user_input_loop_run (prompt : string) (required : bool) (lines : list string) :
  ∀ (c : Console) (w : World),
    stdin c = lines →
    match get_user_input_loop prompt required lines c w with
    | (Done value, c', w') =>
        w' = w
        ∧ ∃ skipped line,
            lines = (skipped ++ line :: stdin c')%list
            ∧ value = strip line
            ∧ Forall (λ l, strip l = "") skipped
            ∧ (required = true → value ≠ "")
            ∧ (required = false → skipped = [])
            ∧ stdout c'
              = (stdout c
                 ++ concat ((λ _, [prompt;
                                   ("❌ This field is required. Please try again." ++ LF)%string])
                            <$> skipped)
                 ++ [prompt])%list
    | (Failed e, c', w') =>
        e = EOFError
        ∧ w' = w
        ∧ stdin c' = []
        ∧ Forall (λ l, strip l = "") lines
        ∧ (required = false → lines = [])
        ∧ stdout c'
          = (stdout c
             ++ concat ((λ _, [prompt;
                               ("❌ This field is required. Please try again." ++ LF)%string])
                        <$> lines)
             ++ [prompt])%list
    end.
Proof.
  induction lines as [|l rest IH]; intros c w Hin.
  - cbn [get_user_input_loop]. rewrite input_run, Hin.
    repeat split; constructor.
  - cbn [get_user_input_loop]. rewrite sh_bind_run, input_run, Hin.
    destruct (bool_decide (strip l ≠ "") || negb required) eqn:Hcond.
    + split; [done|]. exists [], l. cbn [stdin stdout app fmap list_fmap concat].
      split; [done|]. split; [done|]. split; [constructor|].
      split; [|done]. intros ->. rewrite orb_false_r in Hcond.
      by apply bool_decide_eq_true in Hcond.
    + apply orb_false_iff in Hcond as [Hblank Hreq].
      apply bool_decide_eq_false in Hblank. apply dec_stable in Hblank.
      apply negb_false_iff in Hreq. subst required.
      rewrite sh_bind_run. unfold print at 1. cbn [stdin stdout].
      set (c2 := mkConsole rest _).
      specialize (IH c2 w eq_refl).
      destruct (get_user_input_loop prompt true rest c2 w) as [[[value|e] c'] w'].
      * destruct IH as (-> & skipped & line & -> & -> & Hall & Hval & _ & Hout).
        split; [done|]. exists (l :: skipped), line.
        split; [done|]. split; [done|]. split; [by constructor|].
        split; [done|]. split; [done|].
        rewrite Hout. subst c2. cbn [stdout fmap list_fmap concat].
        by rewrite <- !app_assoc.
      * destruct IH as (-> & -> & Hrest & Hall & _ & Hout).
        split; [done|]. split; [done|]. split; [done|]. split; [by constructor|].
        split; [done|].
        rewrite Hout. subst c2. cbn [stdout fmap list_fmap concat].
        by rewrite <- !app_assoc.
Qed.

(** X16.  [get_user_input] does not touch the store.  It returns the first
    line read, stripped, when the field is not required, and the first
    line that is not blank, stripped, when it is: the result is then not
    empty, each blank line before it is answered with the message that the
    field is required, and the lines after it stay unread.  When the input
    ends before such a line it raises [EOFError]. *)
Theorem get_user_input_returns_first_answer (prompt : string) (required : bool)
    (c : Console) (w : World) :
  match get_user_input prompt required c w with
  | (Done value, c', w') =>
      w' = w
      ∧ strip value = value
      ∧ ∃ skipped line,
          stdin c = (skipped ++ line :: stdin c')%list
          ∧ value = strip line
          ∧ Forall (λ l, strip l = "") skipped
          ∧ (required = true → value ≠ "")
          ∧ (required = false → skipped = [])
          ∧ stdout c'
            = (stdout c
               ++ concat ((λ _, [prompt;
                                 ("❌ This field is required. Please try again." ++ LF)%string])
                          <$> skipped)
               ++ [prompt])%list
  | (Failed e, c', w') =>
      e = EOFError
      ∧ w' = w
      ∧ stdin c' = []
      ∧ Forall (λ l, strip l = "") (stdin c)
      ∧ (required = false → stdin c = [])
  end.
Proof.
  unfold get_user_input.
  pose proof (get_user_input_loop_run prompt required (stdin c) c w eq_refl) as H.
  destruct (get_user_input_loop prompt required (stdin c) c w) as [[[value|e] c'] w'].
  - destruct H as (-> & skipped & line & Hin & -> & Hrest).
    split; [done|]. split; [apply strip_strip|]. exists skipped, line. done.
  - destruct H as (-> & -> & Hin & Hall & Hreq & _). done.
Qed.

(** ** [add_task_interactive] *)

Lemma print_run (s : string) (c : Console) (w : World) :
  print s c w = (Done (), mkConsole (stdin c) (stdout c ++ [(s ++ LF)%string])%list, w).
Proof. reflexivity. Qed.

Lemma call_store_run {A} (m : M A) (a : A) (c : Console) (w w' : World) :
  m w = (Return a, w') → call_store m c w = (Done a, c, w').
Proof. intros H. unfold call_store. by rewrite H. Qed.

(** A field that is not required takes the next line. *)
Lemma get_user_input_optional (prompt : string) (c : Console) (w : World) :
  get_user_input prompt false c w
  = match stdin c with
    | [] => (Failed EOFError, mkConsole [] (stdout c ++ [prompt])%list, w)
    | line :: rest => (Done (strip line), mkConsole rest (stdout c ++ [prompt])%list, w)
    end.
Proof.
  unfold get_user_input. destruct (stdin c) as [|l rest] eqn:Hin.
  - cbn [get_user_input_loop]. by rewrite input_run, Hin.
  - cbn [get_user_input_loop]. rewrite sh_bind_run, input_run, Hin.
    by rewrite orb_true_r.
Qed.

Lemma capitalized_priority (answer : string) :
  (if bool_decide (capitalize answer ∉ ["High"; "Medium"; "Low"])
   then "Medium" else capitalize answer) ∈ ["High"; "Medium"; "Low"].
Proof.
  case_bool_decide as Hin.
  - apply elem_of_cons. right. left.
  - done.
Qed.

Lemma or_else_nonempty (a b : string) : b ≠ "" → or_else a b ≠ "".
Proof. intros Hb. unfold or_else. by case_bool_decide. Qed.

(** X17.  [add_task_interactive] adds exactly one task, by one [add_task]
    call made after all five answers are read, or raises [EOFError] and
    leaves the store and the file as they were.  It succeeds when the
    input holds a line that is not blank, after blank lines only, and four
    more lines.  The title of the task is that line, stripped, so it is
    not empty; the description is the next line, stripped; the category is
    the third answer or [General] when that is blank, so it is not empty;
    the priority is one of [High], [Medium], [Low]: the fourth answer
    capitalized when that gives one of the three, [Medium] otherwise; the
    due date is the fifth answer, or none when that is blank. *)
Theorem add_task_interactive_adds_checked_task (todo_list : TodoList)
    (c : Console) (w : World) :
  match add_task_interactive todo_list c w with
  | (Done todo', c', w') =>
      ∃ skipped t a1 a2 a3 a4 title description category priority due_date r,
        stdin c = (skipped ++ t :: a1 :: a2 :: a3 :: a4 :: stdin c')%list
        ∧ Forall (λ l, strip l = "") skipped
        ∧ TodoList.add_task todo_list title description category priority due_date w
          = (Return (todo', r), w')
        ∧ title = strip t ∧ title ≠ ""
        ∧ description = strip a1
        ∧ category = or_else (strip a2) "General" ∧ category ≠ ""
        ∧ priority ∈ ["High"; "Medium"; "Low"]
        ∧ (capitalize (or_else (strip a3) "Medium") ∈ ["High"; "Medium"; "Low"] →
           priority = capitalize (or_else (strip a3) "Medium"))
        ∧ (capitalize (or_else (strip a3) "Medium") ∉ ["High"; "Medium"; "Low"] →
           priority = "Medium")
        ∧ due_date = (if bool_decide (strip a4 ≠ "") then Some (strip a4) else None)
  | (Failed e, c', w') =>
      e = EOFError
      ∧ w' = w
      ∧ stdin c' = []
      ∧ (Forall (λ l, strip l = "") (stdin c)
         ∨ ∃ skipped t rest,
             stdin c = (skipped ++ t :: rest)%list
             ∧ Forall (λ l, strip l = "") skipped
             ∧ strip t ≠ ""
             ∧ (length rest < 4)%nat)
  end.
Proof.
  unfold add_task_interactive.
  rewrite sh_bind_run, print_run. rewrite sh_bind_run, print_run.
  set (c0 := mkConsole _ _).
  rewrite sh_bind_run. unfold get_user_input at 1.
  pose proof (get_user_input_loop_run "📌 Task title: " true (stdin c0) c0 w eq_refl) as H.
  destruct (get_user_input_loop "📌 Task title: " true (stdin c0) c0 w)
    as [[[title|e] c1] w1].
  2:{ destruct H as (-> & -> & Hin & Hall & _). by repeat split; [..|left]. }
  destruct H as (-> & skipped & t & Hin & -> & Hskipped & Htitle & _).
  change (stdin c0) with (stdin c) in Hin. clearbody c0. clear c0.
  specialize (Htitle eq_refl).
  rewrite sh_bind_run, get_user_input_optional.
  destruct (stdin c1) as [|a1 rest1] eqn:H1.
  { repeat split; try done. right. exists skipped, t, []. rewrite Hin.
    repeat split; try done. cbn. lia. }
  rewrite sh_bind_run.
  destruct (get_categories_run w todo_list) as (names & Hnames).
  rewrite (call_store_run _ _ _ _ _ Hnames).
  rewrite sh_bind_run, print_run. cbn [stdin stdout].
  rewrite sh_bind_run, get_user_input_optional. cbn [stdin stdout].
  destruct rest1 as [|a2 rest2].
  { repeat split; try done. right. exists skipped, t, [a1]. rewrite Hin.
    repeat split; try done. cbn. lia. }
  rewrite sh_bind_run, print_run. cbn [stdin stdout].
  rewrite sh_bind_run, get_user_input_optional. cbn [stdin stdout].
  destruct rest2 as [|a3 rest3].
  { repeat split; try done. right. exists skipped, t, [a1; a2]. rewrite Hin.
    repeat split; try done. cbn. lia. }
  rewrite sh_bind_run, get_user_input_optional. cbn [stdin stdout].
  destruct rest3 as [|a4 rest4].
  { repeat split; try done. right. exists skipped, t, [a1; a2; a3]. rewrite Hin.
    repeat split; try done. cbn. lia. }
  rewrite sh_bind_run.
  set (priority := if bool_decide (capitalize (or_else (strip a3) "Medium")
                                   ∉ ["High"; "Medium"; "Low"])
                   then "Medium" else capitalize (or_else (strip a3) "Medium")).
  set (due_date := if bool_decide (strip a4 ≠ "") then Some (strip a4) else None).
  rewrite (call_store_run _ _ _ _ _
             (add_task_run w todo_list (strip t) (strip a1)
                (or_else (strip a2) "General") priority due_date)).
  rewrite sh_bind_run. unfold call_store at 1, read_task at 1.
  rewrite sh_bind_run, print_run. cbn [stdin stdout fst snd].
  eexists skipped, t, a1, a2, a3, a4, _, _, _, _, _, _.
  split; [exact Hin|]. split; [exact Hskipped|].
  split; [apply add_task_run|].
  split; [done|]. split; [done|]. split; [done|]. split; [done|].
  split; [by apply or_else_nonempty|].
  split; [apply capitalized_priority|].
  split; [|split; [|done]].
  - intros Hin3. subst priority. by rewrite bool_decide_eq_false_2 by (by intros ?).
  - intros Hout3. subst priority. by rewrite bool_decide_eq_true_2.
Qed.

(** ** [list_tasks_interactive] *)

Lemma Task_str_reads (w : World) (r : loc) :
  ∃ text, Task__str__ r w = (Return text, w).
Proof. eexists. reflexivity. Qed.

Lemma print_tasks_run (l : list loc) :
  ∀ (c : Console) (w : World),
    ∃ texts,
      Forall2 (λ r text, Task__str__ r w = (Return text, w)) l texts
      ∧ print_tasks l c w
        = (Done (),
           mkConsole (stdin c)
             (stdout c ++ concat ((λ text, [(text ++ LF)%string; LF]) <$> texts))%list,
           w).
Proof.
  induction l as [|r l IH]; intros c w.
  - exists []. split; [constructor|]. destruct c as [lines written]. cbn.
    by rewrite app_nil_r.
  - destruct (Task_str_reads w r) as [text Htext].
    cbn [print_tasks]. rewrite sh_bind_run, (call_store_run _ _ _ _ _ Htext).
    rewrite sh_bind_run, print_run. rewrite sh_bind_run, print_run.
    cbn [stdin stdout].
    destruct (IH (mkConsole (stdin c)
                    ((stdout c ++ [(text ++ LF)%string]) ++ [("" ++ LF)%string])%list) w)
      as (texts & Hall & ->).
    exists (text :: texts). split; [by constructor|].
    cbn [stdin stdout fmap list_fmap concat]. by rewrite <- !app_assoc.
Qed.

(** X18.  [list_tasks_interactive] reads two lines, makes one [list_tasks]
    call and prints its result: completed tasks are shown when the first
    answer, as typed, begins with y or Y; the second answer, stripped, is
    the category (a blank answer is passed as the empty text, which
    [list_tasks] takes as no category).  It prints one entry per task of
    the result, in the order of the result (the selected tasks, sorted),
    or that no task was found; the world changes as [list_tasks] changes
    it and in no other way.  When the input holds fewer than two lines it
    raises [EOFError] with the world unchanged.  Where a category is
    given, it and the categories of the tasks are taken to be in ASCII, as
    for [list_tasks]. *)
Theorem list_tasks_interactive_prints_selection (todo_list : TodoList)
    (c : Console) (w : World) :
  match stdin c with
  | _ :: cat :: _ =>
      ascii_categories w (Some (strip cat)) (list_at w (tasks todo_list))
  | _ => True
  end →
  match list_tasks_interactive todo_list c w with
  | (Done _, c', w') =>
      ∃ answer cat out texts,
        stdin c = answer :: cat :: stdin c'
        ∧ TodoList.list_tasks todo_list (String.prefix "y" (lower answer))
            (Some (strip cat)) w
          = (Return out, w')
        ∧ list_at w' out
          = sort_by TodoList.key_lt (λ x, key_of (task_at w x))
              (spec_selected w (String.prefix "y" (lower answer)) (Some (strip cat))
                 (list_at w (tasks todo_list)))
        ∧ Forall2 (λ r text, Task__str__ r w' = (Return text, w')) (list_at w' out) texts
        ∧ stdout c'
          = (stdout c
             ++ [((LF ++ "📝 TASK LIST") ++ LF)%string; (dashes 20 ++ LF)%string;
                 "Show completed tasks? (y/N): "; "Filter by category (optional): "]
             ++ match texts with
                | [] => [("📭 No tasks found." ++ LF)%string]
                | _ =>
                    [((LF ++ "📋 Found " ++ pretty (length texts) ++ " task(s):") ++ LF)%string;
                     (dashes 40 ++ LF)%string]
                    ++ concat ((λ text, [(text ++ LF)%string; LF]) <$> texts)
                end)%list
  | (Failed e, c', w') =>
      e = EOFError ∧ w' = w ∧ stdin c' = [] ∧ (length (stdin c) < 2)%nat
  end.
Proof.
  intros _. unfold list_tasks_interactive.
  rewrite sh_bind_run, print_run. rewrite sh_bind_run, print_run.
  rewrite sh_bind_run, input_run. cbn [stdin stdout].
  destruct (stdin c) as [|answer rest] eqn:Hin.
  { repeat split; try done. cbn. lia. }
  rewrite sh_bind_run, get_user_input_optional. cbn [stdin stdout].
  destruct rest as [|cat rest].
  { repeat split; try done. cbn. lia. }
  assert (Hcat : (if bool_decide (strip cat ≠ "") then strip (strip cat) else strip cat)
                 = strip cat).
  { case_bool_decide; [apply strip_strip|done]. }
  rewrite Hcat. rewrite sh_bind_run.
  destruct (list_tasks_run w todo_list (String.prefix "y" (lower answer))
              (Some (strip cat))) as (out & lh & Hrun & Hout & _).
  rewrite (call_store_run _ _ _ _ _ Hrun).
  set (w' := mkWorld _ _ _ lh _) in *.
  rewrite sh_bind_run. unfold call_store at 1, read_list at 1.
  fold (list_at w' out).
  assert (Hlist : list_at w' out
                  = sort_by TodoList.key_lt (λ x, key_of (task_at w x))
                      (spec_selected w (String.prefix "y" (lower answer))
                         (Some (strip cat)) (list_at w (tasks todo_list)))) by exact Hout.
  destruct (list_at w' out) as [|r l] eqn:Hl.
  - rewrite print_run. cbn [stdin stdout].
    exists answer, cat, out, []. rewrite Hl.
    split; [done|]. split; [done|]. split; [done|].
    split; [constructor|]. by rewrite <- !app_assoc.
  - rewrite sh_bind_run, print_run. rewrite sh_bind_run, print_run.
    cbn [stdin stdout].
    match goal with
    | |- context [print_tasks (r :: l) ?c0 w'] =>
        destruct (print_tasks_run (r :: l) c0 w') as (texts & Hall & ->)
    end.
    cbn [stdin stdout].
    exists answer, cat, out, texts. rewrite Hl.
    split; [done|]. split; [done|]. split; [done|].
    split; [done|].
    pose proof (Forall2_length _ _ _ Hall) as Hlen.
    destruct texts as [|text texts]; [done|].
    rewrite <- Hlen. by rewrite <- !app_assoc.
Qed.

(** The theorem on the three tasks of [mixed_case_program], listed with the
    answers "y" and " WORK ". *)
Lemma list_tasks_interactive_prints_selection_witness :
  ∃ todo w,
    mixed_case_program blank_world = (Return todo, w)
    ∧ ascii_categories w (Some (strip " WORK ")) (list_at w (tasks todo))
    ∧ ∃ c' w' out texts,
        list_tasks_interactive todo (mkConsole ["y"; " WORK "] []) w = (Done (), c', w')
        ∧ stdin c' = []
        ∧ TodoList.list_tasks todo true (Some "WORK") w = (Return out, w')
        ∧ Forall2 (λ r text, Task__str__ r w' = (Return text, w')) (list_at w' out) texts
        ∧ length texts = 2%nat.
Proof.
  eexists _, _. split; [vm_compute; reflexivity|].
  match goal with
  | |- ascii_categories ?w ?c ?l ∧ _ =>
      assert (Hascii : ascii_categories w c l)
        by (vm_compute; split; [reflexivity|repeat constructor])
  end.
  split; [exact Hascii|].
  match goal with
  | |- ∃ c' w' out texts, list_tasks_interactive ?t ?c ?w = _ ∧ _ =>
      pose proof (list_tasks_interactive_prints_selection t c w Hascii) as H;
      destruct (list_tasks_interactive t c w) as [[[[]|e] c'] w'] eqn:Hrun
  end.
  - destruct H as (answer & cat & out & texts & Hin & Hlist & Hsel & Htexts & _).
    cbn [stdin] in Hin. injection Hin as <- <- Hrest.
    exists c', w', out, texts. split; [reflexivity|]. split; [by symmetry|].
    split; [exact Hlist|]. split; [exact Htexts|].
    rewrite <- (Forall2_length _ _ _ Htexts), Hsel. vm_compute. reflexivity.
  - destruct H as (_ & _ & _ & Hlen). cbn in Hlen. lia.
Defined.

(** ** [mark_task_interactive] and [remove_task_interactive] *)

(** X19.  [mark_task_interactive] reads lines up to the first that is not
    blank and takes it, stripped, as the id.  When [int] rejects it, the
    store is left as it is and the last line printed says that the id is
    invalid.  Otherwise the store changes exactly as by one call of
    [mark_complete] (or [mark_incomplete]) with that id, and the last line
    printed tells whether the call found the task.  When the input ends
    first, [EOFError] is raised with the store unchanged. *)
Theorem mark_task_interactive_marks_by_id (int : string → option Z)
    (todo_list : TodoList) (complete : bool) (c : Console) (w : World) :
  match mark_task_interactive int todo_list complete c w with
  | (Done _, c', w') =>
      ∃ skipped line,
        stdin c = (skipped ++ line :: stdin c')%list
        ∧ Forall (λ l, strip l = "") skipped
        ∧ strip line ≠ ""
        ∧ match int (strip line) with
          | Some task_id =>
              ∃ success,
                (if complete then TodoList.mark_complete todo_list task_id
                 else TodoList.mark_incomplete todo_list task_id) w
                = (Return success, w')
                ∧ last (stdout c')
                  = Some (if success : bool
                          then (("✅ Task " ++ pretty task_id ++ " marked as "
                                 ++ (if complete then "complete" else "incomplete")
                                 ++ "!") ++ LF)%string
                          else (("❌ Task " ++ pretty task_id ++ " not found.") ++ LF)%string)
          | None =>
              w' = w
              ∧ last (stdout c')
                = Some ("❌ Invalid task ID. Please enter a number." ++ LF)%string
          end
  | (Failed e, c', w') =>
      e = EOFError ∧ w' = w ∧ stdin c' = [] ∧ Forall (λ l, strip l = "") (stdin c)
  end.
Proof.
  unfold mark_task_interactive.
  rewrite sh_bind_run, print_run. rewrite sh_bind_run, print_run.
  set (c0 := mkConsole _ _).
  rewrite sh_bind_run. unfold get_user_input at 1.
  pose proof (get_user_input_loop_run "🔢 Enter task ID: " true (stdin c0) c0 w eq_refl) as H.
  destruct (get_user_input_loop "🔢 Enter task ID: " true (stdin c0) c0 w)
    as [[[answer|e] c1] w1].
  2:{ destruct H as (-> & -> & Hin & Hall & _). done. }
  destruct H as (-> & skipped & line & Hin & -> & Hskipped & Hline & _).
  change (stdin c0) with (stdin c) in Hin. specialize (Hline eq_refl).
  destruct (int (strip line)) as [task_id|] eqn:Hint.
  - rewrite sh_bind_run.
    assert (Hcall : ∃ success w',
              (if complete then TodoList.mark_complete todo_list task_id
               else TodoList.mark_incomplete todo_list task_id) w = (Return success, w')).
    { destruct complete.
      - rewrite store_mark_complete_run.
        destruct (first_with_id w task_id (list_at w (tasks todo_list))); eauto.
      - rewrite store_mark_incomplete_run.
        destruct (first_with_id w task_id (list_at w (tasks todo_list))); eauto. }
    destruct Hcall as (success & w' & Hcall).
    rewrite (call_store_run _ _ _ _ _ Hcall).
    destruct success; rewrite print_run; cbn [stdin stdout].
    + exists skipped, line. rewrite Hint. split; [done|]. split; [done|]. split; [done|].
      exists true. split; [done|]. apply last_snoc.
    + exists skipped, line. rewrite Hint. split; [done|]. split; [done|]. split; [done|].
      exists false. split; [done|]. apply last_snoc.
  - rewrite print_run. cbn [stdin stdout].
    exists skipped, line. rewrite Hint. split; [done|]. split; [done|]. split; [done|].
    split; [done|]. apply last_snoc.
Qed.

(** X20.  [remove_task_interactive] changes the store only by one
    [remove_task] call, and makes that call only when [int] accepts the
    id, [get_task] finds a task of that id, and the confirmation, as typed,
    begins with y or Y; the call then returns true.  In every other case
    (an invalid id, an unknown id, another confirmation, the end of the
    input) the store and the file are left as they are. *)
Theorem remove_task_interactive_removes_on_yes (int : string → option Z)
    (todo_list : TodoList) (c : Console) (w : World) :
  match remove_task_interactive int todo_list c w with
  | (Done _, c', w') =>
      ∃ skipped line rest,
        stdin c = (skipped ++ line :: rest)%list
        ∧ Forall (λ l, strip l = "") skipped
        ∧ strip line ≠ ""
        ∧ match int (strip line) with
          | Some task_id =>
              ∃ found,
                TodoList.get_task todo_list task_id w = (Return found, w)
                ∧ match found with
                  | Some task =>
                      ∃ confirm,
                        rest = confirm :: stdin c'
                        ∧ if String.prefix "y" (lower confirm)
                          then TodoList.remove_task todo_list task_id w
                               = (Return true, w')
                          else w' = w
                  | None => rest = stdin c' ∧ w' = w
                  end
          | None => rest = stdin c' ∧ w' = w
          end
  | (Failed e, c', w') => e = EOFError ∧ w' = w ∧ stdin c' = []
  end.
Proof.
  unfold remove_task_interactive.
  rewrite sh_bind_run, print_run. rewrite sh_bind_run, print_run.
  set (c0 := mkConsole _ _).
  rewrite sh_bind_run. unfold get_user_input at 1.
  pose proof (get_user_input_loop_run "🔢 Enter task ID to remove: " true
                (stdin c0) c0 w eq_refl) as H.
  destruct (get_user_input_loop "🔢 Enter task ID to remove: " true (stdin c0) c0 w)
    as [[[answer|e] c1] w1].
  2:{ destruct H as (-> & -> & Hin & _). done. }
  destruct H as (-> & skipped & line & Hin & -> & Hskipped & Hline & _).
  change (stdin c0) with (stdin c) in Hin. specialize (Hline eq_refl).
  destruct (int (strip line)) as [task_id|] eqn:Hint.
  2:{ rewrite print_run. cbn [stdin stdout].
      exists skipped, line, (stdin c1). by rewrite Hint. }
  rewrite sh_bind_run, (call_store_run _ _ _ _ _ (get_task_run w todo_list task_id)).
  destruct (first_with_id w task_id (list_at w (tasks todo_list))) as [task|] eqn:Hfound.
  2:{ rewrite print_run. cbn [stdin stdout].
      exists skipped, line, (stdin c1). rewrite Hint.
      split; [done|]. split; [done|]. split; [done|].
      exists None. by rewrite get_task_run, Hfound. }
  rewrite sh_bind_run, print_run.
  destruct (Task_str_reads w task) as [text Htext].
  rewrite sh_bind_run, (call_store_run _ _ _ _ _ Htext).
  rewrite sh_bind_run, print_run.
  rewrite sh_bind_run, input_run. cbn [stdin stdout].
  destruct (stdin c1) as [|confirm rest] eqn:H1; [done|].
  assert (Hremove : ∃ w', TodoList.remove_task todo_list task_id w = (Return true, w')).
  { rewrite remove_task_run.
    destruct (index_with_id w task_id 0 (list_at w (tasks todo_list))) eqn:Hk; [eauto|].
    apply index_with_id_miss, first_with_id_miss in Hk. congruence. }
  destruct Hremove as (w' & Hremove).
  destruct (String.prefix "y" (lower confirm)) eqn:Hyes.
  - rewrite sh_bind_run, (call_store_run _ _ _ _ _ Hremove).
    rewrite print_run. cbn [stdin stdout].
    exists skipped, line, (confirm :: rest). rewrite Hint.
    split; [done|]. split; [done|]. split; [done|].
    exists (Some task). rewrite get_task_run, Hfound. split; [done|].
    exists confirm. by rewrite Hyes.
  - rewrite print_run. cbn [stdin stdout].
    exists skipped, line, (confirm :: rest). rewrite Hint.
    split; [done|]. split; [done|]. split; [done|].
    exists (Some task). rewrite get_task_run, Hfound. split; [done|].
    exists confirm. by rewrite Hyes.
Qed.

(** ** [Task.__str__] *)

Lemma append_cancel_l (s a b : string) : (s ++ a = s ++ b → a = b)%string.
Proof. induction s as [|c s IH]; [done|]. cbn. intros [= H]. by apply IH. Qed.

Lemma length_append (a b : string) :
  String.length (a ++ b) = (String.length a + String.length b)%nat.
Proof. induction a as [|c a IH]; [done|]. simpl. f_equal. exact IH. Qed.

Lemma append_cancel_r (s a b : string) : (a ++ s = b ++ s → a = b)%string.
Proof.
  revert b. induction a as [|c a IH]; intros [|c' b] Heq; [done| | |].
  - apply (f_equal String.length) in Heq. rewrite !length_append in Heq.
    cbn [String.length] in Heq. lia.
  - apply (f_equal String.length) in Heq. rewrite !length_append in Heq.
    cbn [String.length] in Heq. lia.
  - cbn in Heq. injection Heq as -> Heq. f_equal. by apply IH.
Qed.

Lemma priority_symbol_lookup (p : string) :
  default "🟡" (priority_symbol !! p)
  = if bool_decide (p = "High") then "🔴"
    else if bool_decide (p = "Low") then "🟢"
    else "🟡".
Proof.
  unfold priority_symbol.
  rewrite !lookup_insert, lookup_singleton.
  repeat case_decide; repeat case_bool_decide; subst; done.
Qed.

(** The symbol shown for a priority and the rank that [list_tasks] gives
    it. *)
Lemma symbol_and_rank (p1 p2 : string) :
  default "🟡" (priority_symbol !! p1) = default "🟡" (priority_symbol !! p2)
  ↔ default 1%Z (TodoList.priority_order !! p1)
    = default 1%Z (TodoList.priority_order !! p2).
Proof.
  rewrite !priority_symbol_lookup, !priority_order_rank. unfold spec_rank.
  repeat case_bool_decide; split; intros Heq; try done; try discriminate Heq.
Qed.

(** X21.  [Task.__str__] changes nothing, and the text it returns shows
    the priority exactly as [list_tasks] ranks it: two tasks that differ in
    their priority only have the same text if and only if the sort key of
    [list_tasks] gives their priorities the same rank.  A priority that is
    none of High, Medium, Low is shown, as it is ranked, like Medium. *)
Theorem task_text_shows_rank (w : World) (r1 r2 : loc) (p : string) :
  task_at w r2
  = mkTask (id (task_at w r1)) (title (task_at w r1)) (description (task_at w r1))
           (category (task_at w r1)) p (due_date (task_at w r1))
           (completed (task_at w r1)) (created_at (task_at w r1))
           (completed_at (task_at w r1)) →
  ∃ text1 text2,
    Task__str__ r1 w = (Return text1, w)
    ∧ Task__str__ r2 w = (Return text2, w)
    ∧ (text1 = text2
       ↔ default 1%Z (TodoList.priority_order !! priority (task_at w r1))
         = default 1%Z (TodoList.priority_order !! p)).
Proof.
  intros H2. eexists _, _. split; [reflexivity|]. split; [reflexivity|].
  unfold read_task. cbn beta iota. fold (task_at w r1) (task_at w r2). rewrite H2.
  cbn [id title description category priority due_date completed].
  set (t := task_at w r1). rewrite <- symbol_and_rank.
  set (s1 := default "🟡" (priority_symbol !! priority t)).
  set (s2 := default "🟡" (priority_symbol !! p)).
  split; [|by intros ->].
  intros Heq.
  destruct (bool_decide (description t ≠ ""));
    [apply append_cancel_r in Heq|];
    (destruct (due_date t) as [[|d0 d]|];
       [|apply append_cancel_r in Heq|]);
    (destruct (bool_decide (category t ≠ "General"));
       [apply append_cancel_r in Heq|]);
    do 4 apply append_cancel_l in Heq;
    by apply append_cancel_r in Heq.
Qed.

Lemma task_text_shows_rank_witness :
  task_at two_priorities_world 2%positive
  = mkTask (id (task_at two_priorities_world 1%positive))
           (title (task_at two_priorities_world 1%positive))
           (description (task_at two_priorities_world 1%positive))
           (category (task_at two_priorities_world 1%positive)) "Urgent"
           (due_date (task_at two_priorities_world 1%positive))
           (completed (task_at two_priorities_world 1%positive))
           (created_at (task_at two_priorities_world 1%positive))
           (completed_at (task_at two_priorities_world 1%positive))
  ∧ ∃ text1 text2,
      Task__str__ 1%positive two_priorities_world = (Return text1, two_priorities_world)
      ∧ Task__str__ 2%positive two_priorities_world = (Return text2, two_priorities_world)
      ∧ (text1 = text2
         ↔ default 1%Z (TodoList.priority_order
                          !! priority (task_at two_priorities_world 1%positive))
           = default 1%Z (TodoList.priority_order !! "Urgent")).
Proof.
  split; [vm_compute; reflexivity|].
  apply (task_text_shows_rank two_priorities_world 1%positive 2%positive "Urgent").
  vm_compute. reflexivity.
Defined.
